(** * node_features_cpuinfo: a shallow embedding of the cpuinfo plugin

    The development follows [node_features_cpuinfo.c] (the revision with PCI
    detection): the C string helpers, the chunked line reader, the
    [/proc/cpuinfo] field parsers and the Slurm [node_features_p_*] entry
    points.  Every definition carries the name of the C function it embeds.

    Conventions.
    - A C string is the list of its characters before the terminating NUL
      ([cstring]); a nullable [char*] is an [option cstring].
    - A pointer that walks a string is the suffix it points at.
    - [<ctype.h>] predicates are those of the "C" locale.
    - [unsigned int] bitmaps are [Z] with [Z.lor], [Z.land] and [Z.shiftl];
      no shift in this program reaches bit 32. *)

From Stdlib Require Import List Ascii String ZArith NArith Lia Bool.
From Stdlib Require Import DecimalString.
Import ListNotations.

Local Open Scope list_scope.
Local Open Scope bool_scope.

(** ** C strings and <ctype.h> *)

Module CStr.

Definition cstring := list ascii.

(** String literals of the C source. *)
Definition lit (s : string) : cstring := list_ascii_of_string s.

(** The empty string. *)
Definition empty : cstring := [].

Definition nul : ascii := "000"%char.
Definition newline : ascii := "010"%char.
Definition tab : ascii := "009"%char.
Definition space : ascii := " "%char.

Definition code (c : ascii) : N := N_of_ascii c.

Definition in_range (lo hi : N) (c : ascii) : bool :=
  (lo <=? code c)%N && (code c <=? hi)%N.

(** isspace: space, and the controls HT, LF, VT, FF, CR. *)
Definition isspace (c : ascii) : bool :=
  (code c =? 32)%N || in_range 9 13 c.

Definition isdigit (c : ascii) : bool := in_range 48 57 c.
Definition isupper (c : ascii) : bool := in_range 65 90 c.
Definition islower (c : ascii) : bool := in_range 97 122 c.
Definition isalpha (c : ascii) : bool := isupper c || islower c.
Definition isalnum (c : ascii) : bool := isalpha c || isdigit c.

Definition toupper (c : ascii) : ascii :=
  if islower c then ascii_of_N (code c - 32) else c.
Definition tolower (c : ascii) : ascii :=
  if isupper c then ascii_of_N (code c + 32) else c.

(** [*p] for a pointer [p] into a string: the NUL terminator at the end. *)
Definition deref (p : cstring) : ascii :=
  match p with
  | [] => nul
  | c :: _ => c
  end.

Definition strlen (s : cstring) : nat := List.length s.

(** strchr(s, c) != NULL; the terminator counts as part of [s]. *)
Definition strchr (s : cstring) (c : ascii) : bool :=
  Ascii.eqb c nul || existsb (Ascii.eqb c) s.

(** [needle] is at the very start of [p]. *)
Fixpoint starts_with (needle p : cstring) : bool :=
  match needle, p with
  | [], _ => true
  | _ :: _, [] => false
  | n :: needle', c :: p' => Ascii.eqb n c && starts_with needle' p'
  end.

(** strstr(haystack, needle): the suffix of [haystack] at the first
    occurrence of [needle], [None] for NULL. *)
Fixpoint strstr (haystack needle : cstring) : option cstring :=
  if starts_with needle haystack then Some haystack
  else match haystack with
       | [] => None
       | _ :: rest => strstr rest needle
       end.

(** strncasecmp(a, b, n) == 0 *)
Fixpoint strncasecmp_eq (a b : cstring) (n : nat) : bool :=
  match n with
  | O => true
  | S n' =>
      match a, b with
      | [], [] => true
      | x :: a', y :: b' =>
          Ascii.eqb (tolower x) (tolower y) && strncasecmp_eq a' b' n'
      | _, _ => false
      end
  end.

(** Slurm's xstrdup: NULL stays NULL. *)
Definition xstrdup (s : option cstring) : option cstring := s.

(** Slurm's xstrfmtcat(str, "%s%s", a, b): the formatted text is appended to
    [str], which is allocated when it was NULL. *)
Definition xstrfmtcat (str : option cstring) (text : cstring)
    : option cstring :=
  match str with
  | None => Some text
  | Some s => Some (s ++ text)
  end.

End CStr.

Import CStr.

(** ** Feature ownership *)

Section Ownership.

(** Whether the plugin is compiled with HAVE_PCI_DETECTION. *)
Variable have_pci_detection : bool.

Fixpoint str_startswith_loop (string prefix : cstring) (string_len : nat)
    : bool :=
  match string_len, string, prefix with
  | S n, c :: string', p :: prefix' =>
      if Ascii.eqb c p then str_startswith_loop string' prefix' n
      else false
  | _, _, [] => true
  | _, _, _ :: _ => false
  end.

Definition str_startswith (string prefix : cstring) (string_len : Z) : bool :=
  let string_len :=
    if (string_len <? 0)%Z then Z.of_nat (strlen string) else string_len in
  str_startswith_loop string prefix (Z.to_nat string_len).

Definition cpuinfo_features_is_str_ours (feature_str : cstring)
    (feature_str_len : Z) : bool :=
  let feature_str_len :=
    if (feature_str_len <=? 0)%Z then Z.of_nat (strlen feature_str)
    else feature_str_len in
  if str_startswith feature_str (lit "VENDOR::") feature_str_len then true
  else if str_startswith feature_str (lit "MODEL::") feature_str_len then true
  else if str_startswith feature_str (lit "CACHE::") feature_str_len then true
  else if str_startswith feature_str (lit "ISA::") feature_str_len then true
  else if have_pci_detection
          && str_startswith feature_str (lit "PCI::") feature_str_len then true
  else false.

End Ownership.

(** ** __contains_str and the ISA flags *)

(** The [while ( *p )] loop of __contains_str.  A round that does not
    return moves [p] past one occurrence of the needle, so for a non-empty
    needle the rounds are bounded by the length of the haystack, which is
    the fuel [contains_str] gives.  (With an empty needle the C loop can
    stay where it is for ever; the callers pass flag names and strtok_r
    tokens, which are not empty.) *)
Fixpoint contains_str_loop (fuel : nat) (p needle delimiter : cstring)
    : bool :=
  match fuel with
  | O => false
  | S fuel' =>
      match p with
      | [] => false
      | _ :: _ =>
          match strstr p needle with
          | None => false
          | Some found =>
              let next_char := skipn (strlen needle) found in
              if Ascii.eqb (deref next_char) nul
                 || strchr delimiter (deref next_char)
              then true
              else contains_str_loop fuel' next_char needle delimiter
          end
      end
  end.

Definition contains_str (haystack : option cstring) (needle : cstring)
    (delimiter : option cstring) : bool :=
  match haystack with
  | None => false
  | Some [] => false
  | Some h =>
      let delimiter :=
        match delimiter with
        | None | Some [] => [space; tab]
        | Some d => d
        end in
      contains_str_loop (S (strlen h)) h needle delimiter
  end.

Definition cpuinfo_flags_strings : list cstring :=
  map lit ["sse"; "sse2"; "ssse3"; "sse4_1"; "sse4_2"; "avx"; "avx2";
           "avx512f"; "avx512dq"; "avx512cd"; "avx512bw"; "avx512vl";
           "avx512_vnni"]%string.

Definition cpuinfo_flags_MAX : nat := 13.

(** Processor features read from /proc/cpuinfo. *)
Record cpuinfo_features := {
  vendor_id : option cstring;
  model_name : option cstring;
  cache_kb : Z;
  flags : Z
}.

Definition cpuinfo_features_init : cpuinfo_features :=
  {| vendor_id := None; model_name := None; cache_kb := 0; flags := 0 |}.

Definition set_flags (cif : cpuinfo_features) (f : Z) : cpuinfo_features :=
  {| vendor_id := vendor_id cif; model_name := model_name cif;
     cache_kb := cache_kb cif; flags := f |}.

(** The loop of cpuinfo_parse_flags over the flag names still to test. *)
Fixpoint parse_flags_loop (names : list cstring) (mask acc : Z)
    (text : cstring) : Z :=
  match names with
  | [] => acc
  | name :: names' =>
      let acc' :=
        if contains_str (Some text) name None then Z.lor acc mask else acc in
      parse_flags_loop names' (Z.shiftl mask 1) acc' text
  end.

Definition cpuinfo_parse_flags (cif : cpuinfo_features) (text : cstring)
    : bool * cpuinfo_features :=
  (true, set_flags cif (parse_flags_loop cpuinfo_flags_strings 1 0 text)).

(** ** Results of the field parsers

    A parser callback returns a boolean and may update the record.  Two
    further outcomes are kept apart from a normal return, both undefined
    behaviour in C: a scan that steps over the terminating NUL, and the
    conversion to unsigned int of a double whose integer part unsigned int
    cannot hold. *)

Inductive outcome :=
| Returns (ok : bool) (cif : cpuinfo_features)
| ReadsPastEnd
| UndefinedConversion.

Inductive string_field := VendorIdField | ModelNameField.

Definition set_string_field (f : string_field) (cif : cpuinfo_features)
    (s : option cstring) : cpuinfo_features :=
  match f with
  | VendorIdField =>
      {| vendor_id := s; model_name := model_name cif;
         cache_kb := cache_kb cif; flags := flags cif |}
  | ModelNameField =>
      {| vendor_id := vendor_id cif; model_name := s;
         cache_kb := cache_kb cif; flags := flags cif |}
  end.

Definition set_cache_kb (cif : cpuinfo_features) (kb : Z) : cpuinfo_features :=
  {| vendor_id := vendor_id cif; model_name := model_name cif;
     cache_kb := kb; flags := flags cif |}.

(** cpuinfo_parse_strdup: [arg_offset] selects the char* field to replace. *)
Definition cpuinfo_parse_strdup (arg_offset : string_field)
    (cif : cpuinfo_features) (text : cstring) : outcome :=
  Returns true (set_string_field arg_offset cif (Some text)).

(** ** Cache size *)

(** [while ( *p && f( *p) ) p++] *)
Fixpoint skip (f : ascii -> bool) (p : cstring) : cstring :=
  match p with
  | [] => []
  | c :: p' => if f c then skip f p' else p
  end.

Fixpoint take (f : ascii -> bool) (p : cstring) : cstring :=
  match p with
  | [] => []
  | c :: p' => if f c then c :: take f p' else []
  end.

Definition digit_value (c : ascii) : Z := Z.of_N (code c - 48).

Definition decimal_value (ds : cstring) : Z :=
  fold_left (fun acc c => (10 * acc + digit_value c)%Z) ds 0%Z.

(** *** Doubles *)

(** A binary64 value: the finite value [m * 2^e], an infinity or a NaN.
    The sign of a zero is not kept: nothing here tells the two zeros
    apart. *)
Inductive double :=
| DFinite (m e : Z)
| DInfinity (negative : bool)
| DNaN.

(** [n / d] rounded to the nearest integer, a tie going to the even one
    ([0 <= n], [0 < d]). *)
Definition round_half_even (n d : Z) : Z :=
  let q := (n / d)%Z in
  match (2 * (n mod d) ?= d)%Z with
  | Lt => q
  | Gt => (q + 1)%Z
  | Eq => if Z.even q then q else (q + 1)%Z
  end.

(** The integer part of the binary logarithm of [n / d] ([0 < n],
    [0 < d]). *)
Definition floor_log2 (n d : Z) : Z :=
  let l := (Z.log2 n - Z.log2 d)%Z in
  if (n * 2 ^ Z.log2 d <? d * 2 ^ Z.log2 n)%Z then (l - 1)%Z else l.

(** The double nearest to [n / d] ([0 <= n], [0 < d]) with the sign given,
    a tie going to the even significand: 53 bits of precision, least
    exponent -1074, infinity from 2^1024 on.  This is the value strtod
    returns for a numeral in the default rounding mode. *)
Definition round_to_double (negative : bool) (n d : Z) : double :=
  if (n =? 0)%Z then DFinite 0 0
  else
    let e := Z.max (floor_log2 n d - 52) (-1074) in
    let m :=
      if (0 <=? e)%Z then round_half_even n (d * 2 ^ e)
      else round_half_even (n * 2 ^ (- e)) d in
    if (0 <=? e)%Z && (2 ^ 1024 <=? m * 2 ^ e)%Z then DInfinity negative
    else DFinite (if negative then (- m)%Z else m) e.

(** [v * 1024.0]: exact unless it overflows. *)
Definition dmul1024 (v : double) : double :=
  match v with
  | DFinite m e =>
      if (0 <=? e + 10)%Z && (2 ^ 1024 <=? Z.abs m * 2 ^ (e + 10))%Z
      then DInfinity (m <? 0)%Z
      else DFinite m (e + 10)
  | _ => v
  end.

(** [v / 1024.0]: exact unless the quotient falls below the least
    exponent, where it is rounded to a multiple of 2^-1074. *)
Definition ddiv1024 (v : double) : double :=
  match v with
  | DFinite m e =>
      if (-1074 <=? e - 10)%Z then DFinite m (e - 10)
      else
        let r := round_half_even (Z.abs m) (2 ^ (-1074 - (e - 10))) in
        DFinite (if (m <? 0)%Z then (- r)%Z else r) (-1074)
  | _ => v
  end.

(** (unsigned int)v: the fraction is discarded; the conversion is defined
    when what is left lies in the range of unsigned int. *)
Definition to_unsigned_int (v : double) : option Z :=
  match v with
  | DFinite m e =>
      let t := if (0 <=? e)%Z then (m * 2 ^ e)%Z
               else Z.quot m (2 ^ (- e)) in
      if (0 <=? t)%Z && (t <? 2 ^ 32)%Z then Some t else None
  | _ => None
  end.

(** *** strtod *)

Definition isxdigit (c : ascii) : bool :=
  isdigit c || in_range 97 102 (tolower c).

Definition xdigit_value (c : ascii) : Z :=
  if isdigit c then digit_value c else Z.of_N (code (tolower c) - 87).

Definition hex_value (ds : cstring) : Z :=
  fold_left (fun acc c => (16 * acc + xdigit_value c)%Z) ds 0%Z.

(** The characters allowed between the parentheses of nan(...). *)
Definition is_n_char (c : ascii) : bool := isalnum c || Ascii.eqb c "_".

(** An optional sign: whether it is a minus, and what follows. *)
Definition sign_part (p : cstring) : bool * cstring :=
  if Ascii.eqb (deref p) "-" then (true, tl p)
  else if Ascii.eqb (deref p) "+" then (false, tl p)
  else (false, p).

(** A run of digits with at most one radix point in it and at least one
    digit: the digits before the point, those after it, and what follows. *)
Definition mantissa_part (digit : ascii -> bool) (p : cstring)
    : option (cstring * cstring * cstring) :=
  let int := take digit p in
  let p1 := skip digit p in
  let '(frac, p2) :=
    if Ascii.eqb (deref p1) "."
    then (take digit (tl p1), skip digit (tl p1))
    else ([], p1) in
  match int ++ frac with
  | [] => None
  | _ :: _ => Some (int, frac, p2)
  end.

(** The exponent part, taken only when at least one digit follows the
    marker and the optional sign: its value and what follows. *)
Definition exponent_part (marker : ascii) (p : cstring) : Z * cstring :=
  if Ascii.eqb (tolower (deref p)) marker then
    let '(negative, p2) := sign_part (tl p) in
    let ds := take isdigit p2 in
    match ds with
    | [] => (0%Z, p)
    | _ :: _ =>
        ((if negative then - decimal_value ds else decimal_value ds)%Z,
         skip isdigit p2)
    end
  else (0%Z, p).

(** The mantissa of a hexadecimal numeral: 0x or 0X and hexadecimal
    digits. *)
Definition hex_part (p : cstring)
    : option (cstring * cstring * cstring) :=
  if Ascii.eqb (deref p) "0" && Ascii.eqb (tolower (deref (tl p))) "x"
  then mantissa_part isxdigit (tl (tl p))
  else None.

(** inf, infinity, nan, nan(...) in any letter case. *)
Definition special_part (negative : bool) (p : cstring)
    : option (double * cstring) :=
  if strncasecmp_eq (lit "infinity") p 8
  then Some (DInfinity negative, skipn 8 p)
  else if strncasecmp_eq (lit "inf") p 3
  then Some (DInfinity negative, skipn 3 p)
  else if strncasecmp_eq (lit "nan") p 3 then
    let r := skipn 3 p in
    let close := skip is_n_char (tl r) in
    if Ascii.eqb (deref r) "(" && Ascii.eqb (deref close) ")"
    then Some (DNaN, tl close)
    else Some (DNaN, r)
  else None.

(** The double for [mant * base ^ exp]. *)
Definition scaled (negative : bool) (mant base exp : Z) : double :=
  if (0 <=? exp)%Z then round_to_double negative (mant * base ^ exp) 1
  else round_to_double negative mant (base ^ (- exp)).

(** [SNone] is strtod converting nothing: 0 is returned and [endp] is left
    at [text]. *)
Inductive strtod_result :=
| SNone
| SValue (v : double) (endp : cstring).

(** strtod(text, &endp) in the C locale: white space, an optional sign,
    then a hexadecimal numeral (0x, hexadecimal digits, optional binary
    exponent), a decimal numeral (decimal digits, optional exponent), or
    inf, infinity, nan or nan(...) in any letter case. *)
Definition strtod (text : cstring) : strtod_result :=
  let '(negative, p) := sign_part (skip isspace text) in
  match hex_part p with
  | Some (int, frac, p2) =>
      let '(exp, endp) := exponent_part "p" p2 in
      SValue (scaled negative (hex_value (int ++ frac)) 2
                (exp - 4 * Z.of_nat (strlen frac))) endp
  | None =>
      match mantissa_part isdigit p with
      | Some (int, frac, p2) =>
          let '(exp, endp) := exponent_part "e" p2 in
          SValue (scaled negative (decimal_value (int ++ frac)) 10
                    (exp - Z.of_nat (strlen frac))) endp
      | None =>
          match special_part negative p with
          | Some (v, endp) => SValue v endp
          | None => SNone
          end
      end
  end.

(** ** cpuinfo_parse_cache_size *)

Definition cpuinfo_parse_cache_size (cif : cpuinfo_features) (text : cstring)
    : outcome :=
  match strtod text with
  | SNone => Returns false cif
  | SValue numerical_val endp =>
      let endp := skip isspace endp in
      let u := toupper (deref endp) in
      (* first switch: G falls through to M, M to K *)
      let '(numerical_val, endp) :=
        if Ascii.eqb u "G" then
          (dmul1024 (dmul1024 numerical_val), tl endp)
        else if Ascii.eqb u "M" then (dmul1024 numerical_val, tl endp)
        else if Ascii.eqb u "K" then (numerical_val, tl endp)
        else if Ascii.eqb u "B" then (ddiv1024 numerical_val, endp)
        else (numerical_val, endp) in
      (* second switch *)
      let u := toupper (deref endp) in
      if Ascii.eqb u "B" || Ascii.eqb u nul then
        match to_unsigned_int numerical_val with
        | Some kb => Returns true (set_cache_kb cif kb)
        | None => UndefinedConversion
        end
      else Returns false cif
  end.

(** ** Model name *)

Definition is_alpha_dash (c : ascii) : bool := isalpha c || Ascii.eqb c "-".
Definition is_alnum_dash (c : ascii) : bool := isalnum c || Ascii.eqb c "-".

(** The characters [from, e) for a pointer [e] further along [from]. *)
Definition between (from e : cstring) : cstring :=
  firstn (strlen from - strlen e) from.

Definition underscore_spaces (p : cstring) : cstring :=
  map (fun c => if Ascii.eqb c " " then "_"%char else c) p.

Definition store_model (cif : cpuinfo_features) (from e : cstring)
    : cpuinfo_features :=
  set_string_field ModelNameField cif
    (Some (underscore_spaces (between from e))).

(** The match attempted at [s] when [*s] is alphanumeric: the end pointer of
    [[A-Z0-9][A-Z-]*[0-9][A-Z0-9-]*], or [None] when the digit is missing. *)
Definition match_model (s : cstring) : option cstring :=
  let e := tl s in
  let e := skip is_alpha_dash e in
  if isdigit (deref e) then
    let e := tl e in
    Some (skip is_alnum_dash e)
  else None.

(** The optional " v<digits>" of the generic path. *)
Definition match_version (e : cstring) : cstring :=
  if Ascii.eqb (deref e) " " && Ascii.eqb (deref (tl e)) "v"
     && isdigit (deref (tl (tl e)))
  then skip isdigit (tl (tl e))
  else e.

(** [while ( ! isalnum( *s) ) s++]: the loop has no test for the terminator,
    and NUL is not alphanumeric, so at the end of the string it steps
    outside ([None]). *)
Fixpoint skip_to_alnum (s : cstring) : option cstring :=
  match s with
  | [] => None
  | c :: s' => if isalnum c then Some s else skip_to_alnum s'
  end.

(** The generic [while ( *s )] loop; [None] is fuel running out. *)
Fixpoint model_scan (fuel : nat) (cif : cpuinfo_features) (s : cstring)
    : option outcome :=
  match fuel with
  | O => None
  | S fuel' =>
      match s with
      | [] => Some (Returns false cif)
      | _ :: _ =>
          match skip_to_alnum s with
          | None => Some ReadsPastEnd
          | Some s =>
              match match_model s with
              | Some e =>
                  Some (Returns true (store_model cif s (match_version e)))
              | None => model_scan fuel' cif (tl s)
              end
          end
      end
  end.

Definition find_leadin (text : cstring) : option cstring :=
  match strstr text (lit "Gold ") with
  | Some s => Some s
  | None => strstr text (lit "EPYC ")
  end.

Definition cpuinfo_parse_model_name (cif : cpuinfo_features) (text : cstring)
    : outcome :=
  let generic :=
    match model_scan (S (strlen text)) cif text with
    | Some o => o
    | None => Returns false cif
    end in
  match find_leadin text with
  | Some prefix =>
      let s := skipn 5 prefix in
      if isalnum (deref s) then
        match match_model s with
        | Some e => Returns true (store_model cif prefix e)
        | None => generic
        end
      else generic
  | None => generic
  end.

(** ** Parser registry and one line of cpuinfo *)

Inductive parse_cb :=
| cb_cache_size
| cb_flags
| cb_model_name
| cb_strdup.

Record cpuinfo_feature_parser := {
  feature_str : cstring;
  parse_callback : parse_cb;
  arg_offset : string_field
}.

Definition cpuinfo_feature_parsers : list cpuinfo_feature_parser :=
  [ {| feature_str := lit "cache size"; parse_callback := cb_cache_size;
       arg_offset := VendorIdField |};
    {| feature_str := lit "flags"; parse_callback := cb_flags;
       arg_offset := VendorIdField |};
    {| feature_str := lit "model name"; parse_callback := cb_model_name;
       arg_offset := VendorIdField |};
    {| feature_str := lit "vendor_id"; parse_callback := cb_strdup;
       arg_offset := VendorIdField |} ].

Definition run_parser (parser : cpuinfo_feature_parser)
    (cif : cpuinfo_features) (text : cstring) : outcome :=
  match parse_callback parser with
  | cb_cache_size => cpuinfo_parse_cache_size cif text
  | cb_flags =>
      let '(ok, cif') := cpuinfo_parse_flags cif text in Returns ok cif'
  | cb_model_name => cpuinfo_parse_model_name cif text
  | cb_strdup => cpuinfo_parse_strdup (arg_offset parser) cif text
  end.

Fixpoint parsers_lookup_from (parsers : list cpuinfo_feature_parser)
    (feature_str_ptr : cstring) (feature_str_len : nat)
    : option cpuinfo_feature_parser :=
  match parsers with
  | [] => None
  | parser :: parsers' =>
      if (strlen (feature_str parser) =? feature_str_len)%nat
         && strncasecmp_eq (feature_str parser) feature_str_ptr feature_str_len
      then Some parser
      else parsers_lookup_from parsers' feature_str_ptr feature_str_len
  end.

Definition cpuinfo_feature_parsers_lookup :=
  parsers_lookup_from cpuinfo_feature_parsers.

(** The length left after backing [feature_end] over trailing white space. *)
Definition backtrack_spaces (name : cstring) : nat :=
  strlen (rev (skip isspace (rev name))).

Definition not_colon (c : ascii) : bool := negb (Ascii.eqb c ":").

Definition cpuinfo_parse_line (cif : cpuinfo_features) (line : cstring)
    : outcome :=
  let line := skip isspace line in
  match line with
  | [] => Returns false cif
  | _ :: _ =>
      let feature_start := line in
      let line := skip not_colon line in
      match line with
      | [] => Returns false cif
      | _ :: after_colon =>
          let feature_len := backtrack_spaces (between feature_start line) in
          match cpuinfo_feature_parsers_lookup feature_start feature_len with
          | None => Returns false cif
          | Some parser =>
              run_parser parser cif (skip isspace after_colon)
          end
      end
  end.

(** ** The line reader *)

(** A stdio stream open for reading: the bytes not yet read, and whether the
    read that follows them fails (the error indicator) instead of reporting
    end-of-file. *)
Record FILE := {
  unread : list ascii;
  read_error : bool
}.

(** fread(ptr, 1, n, stream): the bytes delivered and the stream after. *)
Definition fread (n : nat) (stream : FILE) : list ascii * FILE :=
  (firstn n (unread stream),
   {| unread := skipn n (unread stream); read_error := read_error stream |}).

(** ferror(stream), consulted once fread has delivered nothing. *)
Definition ferror (stream : FILE) : bool := read_error stream.

Definition ENOMEM : Z := 12.

(** [line_buffer] holds the [used] bytes of the C line buffer.  The chunk
    buffer is kept twice: [chunk] are its bytes from [&buffer[0]] up to
    [buffer_end] (the chunk last read), [buffer] those from [buffer_ptr] up
    to [buffer_end] (the part not yet copied). *)
Record line_reader := {
  stream : FILE;
  err_code : Z;
  line_buffer : list ascii;
  capacity : nat;
  chunk_size : nat;
  chunk : list ascii;
  buffer : list ascii
}.

Definition used (this : line_reader) : nat := List.length (line_buffer this).

Definition with_line (this : line_reader) (l : list ascii) (cap : nat)
    : line_reader :=
  {| stream := stream this; err_code := err_code this; line_buffer := l;
     capacity := cap; chunk_size := chunk_size this; chunk := chunk this;
     buffer := buffer this |}.

Definition with_buffer (this : line_reader) (b : list ascii) : line_reader :=
  {| stream := stream this; err_code := err_code this;
     line_buffer := line_buffer this; capacity := capacity this;
     chunk_size := chunk_size this; chunk := chunk this; buffer := b |}.

(** A chunk [b] has been read: [buffer_ptr] is at its start, [buffer_end]
    at its end. *)
Definition with_stream (this : line_reader) (f : FILE) (b : list ascii)
    : line_reader :=
  {| stream := f; err_code := err_code this;
     line_buffer := line_buffer this; capacity := capacity this;
     chunk_size := chunk_size this; chunk := b; buffer := b |}.

(** fread has delivered nothing: [buffer_ptr] is back at the start of the
    chunk buffer while [buffer_end] stays where it was, so the old chunk
    lies between them again. *)
Definition rewound (this : line_reader) (f : FILE) : line_reader :=
  {| stream := f; err_code := err_code this;
     line_buffer := line_buffer this; capacity := capacity this;
     chunk_size := chunk_size this; chunk := chunk this;
     buffer := chunk this |}.

Definition with_err_code (this : line_reader) (e : Z) : line_reader :=
  {| stream := stream this; err_code := e;
     line_buffer := line_buffer this; capacity := capacity this;
     chunk_size := chunk_size this; chunk := chunk this;
     buffer := buffer this |}.

Definition is_terminator (c : ascii) : bool :=
  Ascii.eqb c nul || Ascii.eqb c newline.

Section Reader.

(** Whether the allocator grants a block of the given size. *)
Variable alloc_ok : nat -> bool.

(** sizeof(line_reader_t) on an LP64 target. *)
Definition sizeof_line_reader : nat := 64.

(** [fopen_result] is what fopen(filename, "r") gives. *)
Definition line_reader_create (fopen_result : option FILE) (chunk_size : nat)
    : option line_reader :=
  let chunk_size := if (chunk_size <? 128)%nat then 128 else chunk_size in
  match fopen_result with
  | None => None
  | Some stream =>
      if alloc_ok (sizeof_line_reader + chunk_size) then
        Some {| stream := stream; err_code := 0; line_buffer := [];
                capacity := 0; chunk_size := chunk_size; chunk := [];
                buffer := [] |}
      else None
  end.

(** The realloc guarding each write to the line buffer; [None] when it
    fails. *)
Definition grow (this : line_reader) : option line_reader :=
  if (used this =? capacity this)%nat then
    let new_capacity :=
      if (capacity this =? 0)%nat then 128 else 2 * capacity this in
    if alloc_ok new_capacity
    then Some (with_line this (line_buffer this) new_capacity)
    else None
  else Some this.

Inductive copied :=
| Copied (this : line_reader) (is_done : bool)
| CopyFailed (this : line_reader).

(** The inner [while ( ! is_done && (buffer_ptr < buffer_end) )]. *)
Fixpoint copy_chunk (buf : list ascii) (this : line_reader) : copied :=
  match buf with
  | [] => Copied (with_buffer this []) false
  | c :: buf' =>
      match grow this with
      | None => CopyFailed (with_err_code (with_buffer this buf) ENOMEM)
      | Some this =>
          let this :=
            with_buffer
              (with_line this (line_buffer this ++ [c]) (capacity this)) buf' in
          if is_terminator c then Copied this true
          else copy_chunk buf' this
      end
  end.

(** The [while ( 1 )] of line_reader_nextline.  The boolean tells whether
    the line buffer is returned (as opposed to NULL); [None] is fuel running
    out. *)
Fixpoint nextline_loop (fuel : nat) (this : line_reader)
    : option (bool * line_reader) :=
  match fuel with
  | O => None
  | S fuel' =>
      match copy_chunk (buffer this) this with
      | CopyFailed this => Some (false, this)
      | Copied this is_done =>
          match buffer this with
          | [] =>
              let '(bytes, stream') := fread (chunk_size this) (stream this) in
              match bytes with
              | [] =>
                  Some (false,
                        with_err_code (rewound this stream')
                          (if ferror stream' then -1 else 0)%Z)
              | _ :: _ => nextline_loop fuel' (with_stream this stream' bytes)
              end
          | _ :: _ =>
              if is_done then
                match grow this with
                | None => Some (false, with_err_code this ENOMEM)
                | Some this =>
                    Some (true,
                          with_line this (line_buffer this ++ [nul])
                            (capacity this))
                end
              else nextline_loop fuel' this
          end
      end
  end.

Definition line_reader_nextline (this : line_reader) : bool * line_reader :=
  let this := with_line this [] (capacity this) in
  match nextline_loop (S (List.length (unread (stream this)))) this with
  | Some r => r
  | None => (false, this)
  end.

End Reader.

(** The C string at the start of a buffer. *)
Fixpoint c_str (buf : list ascii) : cstring :=
  match buf with
  | [] => []
  | c :: buf' => if Ascii.eqb c nul then [] else c :: c_str buf'
  end.

Definition line_reader_getline (this : line_reader) : option cstring :=
  if (capacity this =? 0)%nat then None else Some (c_str (line_buffer this)).

Definition rstrip (l : list ascii) : list ascii :=
  rev (skip isspace (rev l)).

(** line_reader_trim.  The backward loop starts on the last used byte (the
    NUL that nextline wrote) and tests the byte before it; the forward loop
    runs over the used bytes. *)
Definition line_reader_trim (this : line_reader) : line_reader :=
  if (capacity this =? 0)%nat || (used this =? 0)%nat then this
  else
    let body := removelast (line_buffer this) in
    let kept := rstrip body in
    let l :=
      if (List.length kept <? List.length body)%nat then kept ++ [nul]
      else line_buffer this in
    with_line this (skip isspace l) (capacity this).

(** ** cpuinfo_parse_file *)

Section ParseFile.

Variable alloc_ok : nat -> bool.

(** The [while ( (line = line_reader_nextline(line_reader)) )] loop. *)
Fixpoint parse_file_loop (fuel : nat) (cif : cpuinfo_features)
    (line_reader : line_reader) : option outcome :=
  match fuel with
  | O => None
  | S fuel' =>
      let '(got, line_reader) := line_reader_nextline alloc_ok line_reader in
      if got then
        let line_reader := line_reader_trim line_reader in
        let line := c_str (line_buffer line_reader) in
        if Ascii.eqb (deref line) nul then Some (Returns true cif)
        else
          match cpuinfo_parse_line cif line with
          | Returns _ cif => parse_file_loop fuel' cif line_reader
          | stuck => Some stuck
          end
      else Some (Returns true cif)
  end.

Definition cpuinfo_parse_file (cif : cpuinfo_features)
    (fopen_result : option FILE) : outcome :=
  match line_reader_create alloc_ok fopen_result 0 with
  | Some line_reader =>
      match parse_file_loop (S (List.length (unread (stream line_reader))))
              cif line_reader with
      | Some o => o
      | None => Returns true cif
      end
  | None => Returns false cif
  end.

End ParseFile.

(** ** strtok_r over a private copy *)

(** The buffer strtok_r walks: [scanned] are the bytes behind the save
    pointer, with the NULs written over delimiters so far; [save_ptr] is the
    string still ahead. *)
Record strtok_buf := {
  scanned : list ascii;
  save_ptr : cstring
}.

Definition strtok_start (copy : cstring) : strtok_buf :=
  {| scanned := []; save_ptr := copy |}.

(** The C string the start of the buffer now holds. *)
Definition buf_str (b : strtok_buf) : cstring :=
  c_str (scanned b ++ save_ptr b).

Definition is_delim (delim : cstring) (c : ascii) : bool :=
  existsb (Ascii.eqb c) delim.
Definition not_delim (delim : cstring) (c : ascii) : bool :=
  negb (is_delim delim c).

(** One call of strtok_r: leading delimiters are skipped, the token runs to
    the next delimiter, which is overwritten with NUL. *)
Definition strtok_r (delim : cstring) (b : strtok_buf)
    : option cstring * strtok_buf :=
  let skipped := take (is_delim delim) (save_ptr b) in
  let s := skip (is_delim delim) (save_ptr b) in
  match s with
  | [] => (None, {| scanned := scanned b ++ skipped; save_ptr := [] |})
  | _ :: _ =>
      let tok := take (not_delim delim) s in
      match skip (not_delim delim) s with
      | [] =>
          (Some tok,
           {| scanned := scanned b ++ skipped ++ tok; save_ptr := [] |})
      | _ :: rest =>
          (Some tok,
           {| scanned := scanned b ++ skipped ++ tok ++ [nul];
              save_ptr := rest |})
      end
  end.

(** [while ( (tokptr = strtok_r(tokarg1, delim, &save_ptr)) ) body]: the
    state [acc] of the loop body is threaded through; [None] is fuel running
    out. *)
Fixpoint strtok_loop {A : Type} (fuel : nat) (delim : cstring)
    (body : A -> cstring -> A) (b : strtok_buf) (acc : A)
    : option (A * strtok_buf) :=
  match fuel with
  | O => None
  | S fuel' =>
      match strtok_r delim b with
      | (None, b') => Some (acc, b')
      | (Some tokptr, b') => strtok_loop fuel' delim body b' (body acc tokptr)
      end
  end.

Definition strtok_while {A : Type} (delim : cstring)
    (body : A -> cstring -> A) (copy : cstring) (acc : A) : A * strtok_buf :=
  match strtok_loop (S (strlen copy)) delim body (strtok_start copy) acc with
  | Some r => r
  | None => (acc, strtok_start copy)
  end.

(** ** Plugin entry points *)

Section Plugin.

Variable have_pci_detection : bool.

(** State of the accumulation loops: the output string and the delimiter to
    put before the next feature. *)
Definition out_state := (option cstring * cstring)%type.

Definition append_feature (st : out_state) (text : cstring) : out_state :=
  (xstrfmtcat (fst st) (snd st ++ text), lit ",").

Definition job_xlate_body (st : out_state) (tokptr : cstring) : out_state :=
  if cpuinfo_features_is_str_ours have_pci_detection tokptr (-1)
  then append_feature st tokptr
  else st.

Definition node_features_p_job_xlate (job_features : option cstring)
    : option cstring :=
  match job_features with
  | Some ((_ :: _) as s) =>
      let '(st, copy) :=
        strtok_while (lit "&") job_xlate_body s (None, empty) in
      match fst st with
      | None => Some (buf_str copy)
      | Some out_features => Some out_features
      end
  | _ => None
  end.

Definition node_xlate_body (st : out_state) (tokptr : cstring) : out_state :=
  if negb (cpuinfo_features_is_str_ours have_pci_detection tokptr (-1)) then
    if negb (contains_str (fst st) tokptr (Some (lit ","))) then
      append_feature st tokptr
    else st
  else st.

Definition is_empty (s : option cstring) : bool :=
  match s with
  | None | Some [] => true
  | Some (_ :: _) => false
  end.

Definition node_features_p_node_xlate (new_features orig_features
    avail_features : option cstring) : option cstring :=
  if is_empty new_features then xstrdup orig_features
  else if is_empty orig_features then xstrdup new_features
  else
    let out_features := xstrdup new_features in
    let delim := if is_empty out_features then empty else lit "," in
    let orig_copy := match orig_features with Some o => o | None => [] end in
    fst (fst (strtok_while (lit ",") node_xlate_body orig_copy
                (out_features, delim))).

Definition node_features_p_node_xlate2 (new_features : option cstring)
    : option cstring :=
  xstrdup new_features.

Definition node_features_p_changible_feature (feature : cstring) : bool :=
  cpuinfo_features_is_str_ours have_pci_detection feature (-1).

(** printf's %u *)
Definition fmt_unsigned (n : Z) : cstring :=
  lit (NilZero.string_of_uint (N.to_uint (Z.to_N n))).

(** The ISA loop shared by the renderers: [i], [mask] run over the flag
    names. *)
Fixpoint isa_loop (names : list cstring) (mask : Z) (flags : Z)
    (st : out_state) : out_state :=
  match names with
  | [] => st
  | name :: names' =>
      let st :=
        if (Z.land flags mask =? mask)%Z
        then append_feature st (lit "ISA::" ++ name)
        else st in
      isa_loop names' (Z.shiftl mask 1) flags st
  end.

(** The rendering block of node_features_p_node_state.  [pci_features] is
    [add_features] after the PCI lookup: NULL when the lookup is compiled
    out or has failed. *)
Definition render_add_features (pci_features : option cstring)
    (node_features : cpuinfo_features) : option cstring :=
  let st : out_state :=
    (pci_features, if is_empty pci_features then empty else lit ",") in
  let st :=
    match vendor_id node_features with
    | Some v => append_feature st (lit "VENDOR::" ++ v)
    | None => st
    end in
  let st :=
    match model_name node_features with
    | Some m => append_feature st (lit "MODEL::" ++ m)
    | None => st
    end in
  let st :=
    match model_name node_features with
    | Some _ =>
        append_feature st
          (lit "CACHE::" ++ fmt_unsigned (cache_kb node_features) ++ lit "KB")
    | None => st
    end in
  fst (isa_loop cpuinfo_flags_strings 1 (flags node_features) st).

(** cpuinfo_features_summarize of the test program: the line it prints,
    without the final newline. *)
Definition cpuinfo_features_summarize (cif : cpuinfo_features) : cstring :=
  let st : out_state := (Some (empty), empty) in
  let st :=
    match vendor_id cif with
    | Some v => append_feature st (lit "VENDOR::" ++ v)
    | None => st
    end in
  let st :=
    match model_name cif with
    | Some m => append_feature st (lit "MODEL::" ++ m)
    | None => st
    end in
  let st :=
    if negb (cache_kb cif =? 0)%Z then
      append_feature st
        (lit "CACHE::" ++ fmt_unsigned (cache_kb cif) ++ lit "KB")
    else st in
  match fst (isa_loop cpuinfo_flags_strings 1 (flags cif) st) with
  | Some s => s
  | None => []
  end.

(** The plugin's globals. *)
Record plugin_state := {
  is_node_features_inited : bool;
  node_features : cpuinfo_features
}.

Definition append_modes (modes add_features : option cstring)
    : option cstring :=
  match add_features with
  | Some ((_ :: _) as add) =>
      match modes with
      | Some _ => xstrfmtcat modes (lit "," ++ add)
      | None => xstrdup add_features
      end
  | _ => modes
  end.

End Plugin.

(** node_features_p_node_state.  [proc_cpuinfo] is what opening
    /proc/cpuinfo gives; the result is [None] when parsing leaves the
    defined behaviour of the program. *)
Definition node_features_p_node_state (alloc_ok : nat -> bool)
    (proc_cpuinfo : option FILE) (pci_features : option cstring)
    (st : plugin_state) (avail_modes current_mode : option cstring)
    : option (plugin_state * (option cstring * option cstring)) :=
  let parsed :=
    if is_node_features_inited st then Some st
    else
      match cpuinfo_parse_file alloc_ok cpuinfo_features_init proc_cpuinfo with
      | Returns ok cif =>
          Some {| is_node_features_inited := ok; node_features := cif |}
      | _ => None
      end in
  match parsed with
  | None => None
  | Some st =>
      if is_node_features_inited st then
        let add_features :=
          render_add_features pci_features (node_features st) in
        Some (st, (append_modes avail_modes add_features,
                   append_modes current_mode add_features))
      else Some (st, (avail_modes, current_mode))
  end.

(** ** Notions used to state the properties *)

(** [l] joined with [sep] between neighbours. *)
Definition join (sep : cstring) (l : list cstring) : cstring :=
  match l with
  | [] => []
  | x :: xs => x ++ List.concat (map (fun y => sep ++ y) xs)
  end.

(** The pieces of [s] between delimiters, empty ones included. *)
Fixpoint pieces (delim : cstring) (s : cstring) : list cstring :=
  match s with
  | [] => [[]]
  | c :: s' =>
      if is_delim delim c then [] :: pieces delim s'
      else match pieces delim s' with
           | [] => [[c]]
           | p :: ps => (c :: p) :: ps
           end
  end.

Definition nonempty (t : cstring) : bool :=
  match t with
  | [] => false
  | _ :: _ => true
  end.

(** The tokens of a delimited list: its non-empty pieces. *)
Definition tokens (delim : cstring) (s : cstring) : list cstring :=
  filter nonempty (pieces delim s).

(** Tokens of a nullable feature list. *)
Definition feature_tokens (l : option cstring) : list cstring :=
  match l with
  | None => []
  | Some s => tokens (lit ",") s
  end.

(** The ISA features of a bitmap, from bit [i] on, in the order of
    [names]. *)
Fixpoint isa_features_from (i : Z) (names : list cstring) (flags : Z)
    : list cstring :=
  match names with
  | [] => []
  | name :: names' =>
      (if Z.testbit flags i then [lit "ISA::" ++ name] else [])
      ++ isa_features_from (i + 1) names' flags
  end.

Definition vendor_feature (cif : cpuinfo_features) : list cstring :=
  match vendor_id cif with
  | Some v => [lit "VENDOR::" ++ v]
  | None => []
  end.

Definition model_feature (cif : cpuinfo_features) : list cstring :=
  match model_name cif with
  | Some m => [lit "MODEL::" ++ m]
  | None => []
  end.

Definition cache_text (cif : cpuinfo_features) : cstring :=
  lit "CACHE::" ++ fmt_unsigned (cache_kb cif) ++ lit "KB".

(** The CACHE feature, present exactly when the model name is. *)
Definition cache_feature (cif : cpuinfo_features) : list cstring :=
  match model_name cif with
  | Some _ => [cache_text cif]
  | None => []
  end.

(** The CACHE feature as the test program prints it: present exactly when
    the cache size is not zero. *)
Definition cache_feature_by_size (cif : cpuinfo_features) : list cstring :=
  if (cache_kb cif =? 0)%Z then [] else [cache_text cif].

Definition isa_features (cif : cpuinfo_features) : list cstring :=
  isa_features_from 0 cpuinfo_flags_strings (flags cif).

(** The features of a record in render order. *)
Definition rendered_features (cif : cpuinfo_features) : list cstring :=
  vendor_feature cif ++ model_feature cif ++ cache_feature cif
  ++ isa_features cif.

(** The PCI features found before rendering count as one leading item. *)
Definition leading_item (pci_features : option cstring) : list cstring :=
  match pci_features with
  | Some ((_ :: _) as p) => [p]
  | _ => []
  end.

(** The unit table of the cache-size line as the specification words it:
    the kilobytes for a number [v] followed by [after_number], [None] when
    the line is rejected.  A unit G, M or K must be followed by B or the end
    of the text.  The multipliers cascade: G is 1024 times 1024. *)
Definition ends_or_B (rest : cstring) : bool :=
  match rest with
  | [] => true
  | b :: _ => Ascii.eqb (toupper b) "B" || Ascii.eqb b nul
  end.

Definition cache_size_kilobytes (v : double) (after_number : cstring)
    : option double :=
  match skip isspace after_number with
  | [] => Some v
  | u :: rest =>
      if Ascii.eqb (toupper u) "G" then
        if ends_or_B rest then Some (dmul1024 (dmul1024 v)) else None
      else if Ascii.eqb (toupper u) "M" then
        if ends_or_B rest then Some (dmul1024 v) else None
      else if Ascii.eqb (toupper u) "K" then
        if ends_or_B rest then Some v else None
      else if Ascii.eqb (toupper u) "B" then Some (ddiv1024 v)
      else if Ascii.eqb u nul then Some v
      else None
  end.

(** The outcome [o] of a parser run on [cif] is a return of true with [kb]
    in the cache-size field and the other fields as they were. *)
Definition stores_kb (cif : cpuinfo_features) (o : outcome) (kb : Z) : Prop :=
  exists cif' : cpuinfo_features,
    o = Returns true cif'
    /\ cache_kb cif' = kb
    /\ vendor_id cif' = vendor_id cif
    /\ model_name cif' = model_name cif
    /\ flags cif' = flags cif.

(** Calling line_reader_nextline until it returns NULL: the line buffers
    returned (each with its closing NUL) and the reader left by the last
    call; [None] is fuel running out. *)
Fixpoint read_lines (alloc_ok : nat -> bool) (fuel : nat) (this : line_reader)
    : option (list (list ascii) * line_reader) :=
  match fuel with
  | O => None
  | S fuel' =>
      let '(got, this) := line_reader_nextline alloc_ok this in
      if got then
        match read_lines alloc_ok fuel' this with
        | Some (ls, final) => Some (line_buffer this :: ls, final)
        | None => None
        end
      else Some ([], this)
  end.

Definition bytes_ahead (this : line_reader) : list ascii :=
  buffer this ++ unread (stream this).

(** The lines a reader with the given chunk size yields for a stream, as
    the C strings the caller sees. *)
Definition yielded_lines (alloc_ok : nat -> bool) (chunk_size : nat)
    (f : FILE) : option (list cstring) :=
  match line_reader_create alloc_ok (Some f) chunk_size with
  | None => None
  | Some this =>
      match read_lines alloc_ok (S (List.length (bytes_ahead this))) this with
      | Some (ls, _) => Some (map c_str ls)
      | None => None
      end
  end.

(** What cpuinfo_parse_file does with the line buffers it is handed, one
    after the other. *)
Fixpoint parse_yielded (cif : cpuinfo_features) (ls : list (list ascii))
    : outcome :=
  match ls with
  | [] => Returns true cif
  | l :: ls' =>
      let line := c_str (skip isspace
                           (let body := removelast l in
                            let kept := rstrip body in
                            if (List.length kept <? List.length body)%nat
                            then kept ++ [nul] else l)) in
      if Ascii.eqb (deref line) nul then Returns true cif
      else
        match cpuinfo_parse_line cif line with
        | Returns _ cif => parse_yielded cif ls'
        | stuck => stuck
        end
  end.

Definition always (alloc_ok : nat -> bool) : Prop :=
  forall n : nat, alloc_ok n = true.

Definition no_terminator (l : list ascii) : bool :=
  forallb (fun c => negb (is_terminator c)) l.

(** A returned line buffer: its bytes before the closing NUL end in a
    terminator. *)
Definition ends_in_terminator (l : list ascii) : Prop :=
  removelast l <> [] /\ is_terminator (last (removelast l) nul) = true.

(** The lines returned, laid end to end, are an initial part of [pre]. *)
Definition yields_within (pre : list ascii) (lines : list (list ascii))
    : Prop :=
  exists rest : list ascii,
    pre = List.concat (map (@removelast ascii) lines) ++ rest.

(** Where an occurrence [a ++ t ++ b] of [t] is bounded by a delimiter or
    by an end of the string. *)
Definition delimited_left (d a : cstring) : Prop :=
  a = [] \/ exists (a0 : cstring) (c : ascii),
              a = a0 ++ [c] /\ is_delim d c = true.

Definition delimited_right (d b : cstring) : Prop :=
  b = [] \/ exists (c : ascii) (b' : cstring),
              b = c :: b' /\ (is_delim d c = true \/ c = nul).

(** The delimiter set __contains_str works with. *)
Definition effective_delimiter (delimiter : option cstring) : cstring :=
  match delimiter with
  | None | Some [] => [space; tab]
  | Some d => d
  end.

(** The prefixes that mark a feature string as the plugin's own. *)
Definition owned_prefixes (have_pci_detection : bool) : list cstring :=
  map lit ["VENDOR::"; "MODEL::"; "CACHE::"; "ISA::"]%string
  ++ (if have_pci_detection then [lit "PCI::"] else []).

(** The number of characters a length argument lets a comparison look at:
    the whole string when the argument asks for strlen. *)
Definition looked_at (use_strlen : bool) (s : cstring) (len : Z) : nat :=
  if use_strlen then strlen s else Z.to_nat len.

(** A keyword as cpuinfo_parse_line can cut it out of a line: not empty, no
    colon inside, no white space at either end. *)
Definition clean_keyword (key : cstring) : bool :=
  nonempty key && forallb not_colon key
  && negb (isspace (deref key)) && negb (isspace (last key nul)).

(** No NUL among the characters. *)
Definition nul_free (s : list ascii) : bool :=
  forallb (fun c => negb (Ascii.eqb c nul)) s.

(** [line] is [s] without the white space at its two ends. *)
Definition stripped (s line : cstring) : Prop :=
  exists a b : cstring,
    s = a ++ line ++ b
    /\ forallb isspace a = true /\ forallb isspace b = true
    /\ isspace (deref line) = false /\ isspace (last line nul) = false.

(** ** PCI device lookup (HAVE_PCI_DETECTION) *)

Module Pci.

Record pci_device_feature := {
  device_id : Z;
  feature_name : cstring
}.

(** [device_features] are the entries in front of the closing entry with
    device id 0. *)
Record pci_vendor_devices := {
  vendor_id : Z;
  device_features : list pci_device_feature
}.

(** struct pci_device of libpciaccess: its fields vendor_id and
    device_id. *)
Record pci_device := {
  dev_vendor_id : Z;
  dev_device_id : Z
}.

Definition nvidia_gpu_devices : pci_vendor_devices :=
  {| vendor_id := 0x10de;
     device_features :=
       [ {| device_id := 0x15f7; feature_name := lit "PCI::GPU::P100" |};
         {| device_id := 0x1db5; feature_name := lit "PCI::GPU::V100" |};
         {| device_id := 0x1db6; feature_name := lit "PCI::GPU::V100" |};
         {| device_id := 0x1eb8; feature_name := lit "PCI::GPU::T4" |};
         {| device_id := 0x20b5; feature_name := lit "PCI::GPU::A100" |};
         {| device_id := 0x2235; feature_name := lit "PCI::GPU::A40" |} ] |}.

Definition amd_gpu_devices : pci_vendor_devices :=
  {| vendor_id := 0x1002;
     device_features :=
       [ {| device_id := 0x66a1; feature_name := lit "PCI::GPU::MI50" |};
         {| device_id := 0x738c; feature_name := lit "PCI::GPU::MI100" |} ] |}.

Definition pci_known_devices : list pci_vendor_devices :=
  [nvidia_gpu_devices; amd_gpu_devices].

(** [! feature_list || (strstr(feature_list, feature_name) == NULL)] *)
Definition not_listed (feature_list : option cstring) (name : cstring)
    : bool :=
  match feature_list with
  | None => true
  | Some l => match strstr l name with
              | None => true
              | Some _ => false
              end
  end.

Section Lookup.

(** The xstrfmtcat in scope at the call.  The test program defines it, as
    _xstrfmtcat, ahead of this function; the plugin takes Slurm's from
    src/common/xstring.h, which the file includes only further down. *)
Variable fmtcat : option cstring -> cstring -> option cstring.

(** [while ( features->device_id )] for one vendor: the state is
    [feature_list] with [delim]; the boolean is [is_found]. *)
Fixpoint features_loop (features : list pci_device_feature)
    (device : pci_device) (st : option cstring * cstring)
    : (option cstring * cstring) * bool :=
  match features with
  | [] => (st, false)
  | f :: features' =>
      if (device_id f =? dev_device_id device)%Z then
        if not_listed (fst st) (feature_name f) then
          ((fmtcat (fst st) (snd st ++ feature_name f), lit ","), true)
        else features_loop features' device st
      else features_loop features' device st
  end.

(** [while ( ! is_found && *by_vendor )] *)
Fixpoint vendors_loop (by_vendor : list pci_vendor_devices)
    (device : pci_device) (st : option cstring * cstring)
    : option cstring * cstring :=
  match by_vendor with
  | [] => st
  | v :: by_vendor' =>
      if (vendor_id v =? dev_vendor_id device)%Z then
        let '(st, is_found) := features_loop (device_features v) device st in
        if is_found then st else vendors_loop by_vendor' device st
      else vendors_loop by_vendor' device st
  end.

(** pci_device_lookup.  [devices] are the devices the iterator of
    libpciaccess hands out for the class and mask; [out_features] is [None]
    for a NULL pointer; [pci_system_init] is the code that call returns when
    it is made.  The result: the value returned, [is_pci_inited] after the
    call, and what [out_features] then points to. *)
Definition pci_device_lookup (vendor_devices : list pci_vendor_devices)
    (is_pci_inited : bool) (pci_system_init : Z) (devices : list pci_device)
    (out_features : option (option cstring))
    : bool * bool * option (option cstring) :=
  match out_features with
  | None => (false, is_pci_inited, None)
  | Some incoming =>
      if negb is_pci_inited && negb (pci_system_init =? 0)%Z
      then (false, false, out_features)
      else
        let delim := match incoming with
                     | Some _ => lit ","
                     | None => empty
                     end in
        let st :=
          fold_left (fun st device => vendors_loop vendor_devices device st)
            devices (None, delim) in
        (true, true, Some (fst st))
  end.

End Lookup.

End Pci.

(** _xstrfmtcat of the test program (NODE_FEATURE_CPUINFO_TESTING): when
    the formatted text is not empty it is written at the start of the
    string, which has been resized to hold it. *)
Definition _xstrfmtcat (str : option cstring) (text : cstring)
    : option cstring :=
  match text with
  | [] => str
  | _ :: _ => Some text
  end.

(** The feature the tables give for a device. *)
Definition pci_feature_of (device : Pci.pci_device) : option cstring :=
  match find (fun v => (Pci.vendor_id v =? Pci.dev_vendor_id device)%Z)
          Pci.pci_known_devices with
  | Some v =>
      match find (fun f => (Pci.device_id f =? Pci.dev_device_id device)%Z)
              (Pci.device_features v) with
      | Some f => Some (Pci.feature_name f)
      | None => None
      end
  | None => None
  end.

(** The feature names of the tables. *)
Definition pci_feature_names : list cstring :=
  map lit ["PCI::GPU::P100"; "PCI::GPU::V100"; "PCI::GPU::T4";
           "PCI::GPU::A100"; "PCI::GPU::A40"; "PCI::GPU::MI50";
           "PCI::GPU::MI100"]%string.

(** The features the tables give for the devices, one per listed device,
    in the order of the devices. *)
Definition pci_features_of (devices : list Pci.pci_device) : list cstring :=
  flat_map (fun device => match pci_feature_of device with
                          | Some n => [n]
                          | None => []
                          end) devices.


(** A string of the record that can stand in a comma-separated list. *)
Definition comma_free (s : option cstring) : Prop :=
  match s with
  | Some v => forallb (not_delim (lit ",")) v = true
  | None => True
  end.

(** Case analysis on a device against the tables of the file. *)
Ltac pci_table_cases v i :=
  repeat
    (cbn [Pci.vendors_loop Pci.features_loop find Pci.nvidia_gpu_devices
          Pci.amd_gpu_devices Pci.vendor_id Pci.device_features
          Pci.device_id Pci.feature_name Pci.dev_vendor_id
          Pci.dev_device_id];
     match goal with
     | |- context [(?a =? v)%Z] => destruct (Z.eqb_spec a v) as [<-|?]
     | |- context [(?a =? i)%Z] => destruct (Z.eqb_spec a i) as [<-|?]
     | |- context [(?a =? ?b)%Z] =>
         let r := eval compute in (a =? b)%Z in
         match r with
         | true => change (a =? b)%Z with true
         | false => change (a =? b)%Z with false
         end
     | |- context [if Pci.not_listed ?l ?n then _ else _] =>
         destruct (Pci.not_listed l n)
     end).

(** The units of a cache-size line that scale kilobytes by a whole
    number, with their factor; the empty unit stands for a bare number. *)
Definition cache_units : list (cstring * Z) :=
  [ (empty, 1); (lit "K", 1); (lit "KB", 1); (lit "kB", 1);
    (lit "M", 1024); (lit "MB", 1024);
    (lit "G", 1048576); (lit "GB", 1048576) ]%Z.

(** A character that can follow the digits of a plain decimal numeral:
    no digit, no radix point, no exponent marker, no x. *)
Definition ends_numeral (c : ascii) : bool :=
  negb (isdigit c) && negb (Ascii.eqb c ".")
  && negb (Ascii.eqb (tolower c) "e") && negb (Ascii.eqb (tolower c) "x").

(** A double that holds the integer [M]. *)
Definition holds_integer (v : double) (M : Z) : Prop :=
  exists N s t : Z,
    v = DFinite (N * 2 ^ s) (t - s)
    /\ (0 <= N)%Z /\ (0 <= s)%Z /\ (0 <= t)%Z /\ M = (N * 2 ^ t)%Z.

(** * Properties *)

(** ** Rendering (node_features_p_node_state) *)

Lemma fold_append_feature (items : list cstring) (out : option cstring)
    (delim : cstring) :
  items <> [] ->
  fold_left append_feature items (out, delim)
  = (Some (match out with Some s => s | None => [] end
           ++ delim ++ join (lit ",") items), lit ",").
Proof.
  destruct items as [|x xs]; [congruence|intros _].
  cbn [fold_left join].
  unfold append_feature at 2; cbn [fst snd].
  assert (G : forall (l : list cstring) (acc : cstring),
             fold_left append_feature l (Some acc, lit ",")
             = (Some (acc ++ List.concat (map (fun y => lit "," ++ y) l)),
                lit ",")).
  { induction l as [|y l IH]; intros acc; cbn [fold_left map List.concat].
    - now rewrite app_nil_r.
    - unfold append_feature at 2; cbn [fst snd xstrfmtcat].
      rewrite IH. now rewrite <- !app_assoc. }
  destruct out as [s|]; cbn [xstrfmtcat]; rewrite G;
    now rewrite <- ?app_assoc.
Qed.

Lemma fold_append_feature_nil (st : out_state) :
  fold_left append_feature [] st = st.
Proof. reflexivity. Qed.

Lemma fold_append_feature_app (l1 l2 : list cstring) (st : out_state) :
  fold_left append_feature (l1 ++ l2) st
  = fold_left append_feature l2 (fold_left append_feature l1 st).
Proof. apply fold_left_app. Qed.

Lemma land_single_bit (f i : Z) :
  (0 <= i)%Z ->
  Z.land f (2 ^ i) = if Z.testbit f i then (2 ^ i)%Z else 0%Z.
Proof.
  intros Hi. apply Z.bits_inj'. intros n Hn.
  rewrite Z.land_spec, Z.pow2_bits_eqb by assumption.
  destruct (Z.eqb_spec i n) as [->|Hne].
  - destruct (Z.testbit f n) eqn:E.
    + now rewrite Z.pow2_bits_eqb, Z.eqb_refl by assumption.
    + now rewrite Z.bits_0.
  - rewrite andb_false_r. destruct (Z.testbit f i).
    + rewrite Z.pow2_bits_eqb by assumption.
      symmetry. now apply Z.eqb_neq.
    + now rewrite Z.bits_0.
Qed.

Lemma mask_test_is_testbit (f i : Z) :
  (0 <= i)%Z ->
  (Z.land f (2 ^ i) =? 2 ^ i)%Z = Z.testbit f i.
Proof.
  intros Hi. rewrite land_single_bit by assumption.
  assert (0 < 2 ^ i)%Z by (apply Z.pow_pos_nonneg; lia).
  destruct (Z.testbit f i).
  - apply Z.eqb_refl.
  - apply Z.eqb_neq. lia.
Qed.

Lemma isa_loop_features (names : list cstring) (fl : Z) :
  forall (i : Z) (st : out_state),
    (0 <= i)%Z ->
    isa_loop names (2 ^ i) fl st
    = fold_left append_feature (isa_features_from i names fl) st.
Proof.
  induction names as [|name names IH]; intros i st Hi; [reflexivity|].
  cbn [isa_loop isa_features_from].
  rewrite mask_test_is_testbit by assumption.
  rewrite Z.shiftl_mul_pow2 by lia.
  replace (2 ^ i * 2 ^ 1)%Z with (2 ^ (i + 1))%Z
    by (rewrite Z.pow_add_r by lia; reflexivity).
  rewrite IH by lia. rewrite fold_append_feature_app.
  now destruct (Z.testbit fl i).
Qed.

Lemma render_as_fold (pci_features : option cstring)
    (cif : cpuinfo_features) :
  render_add_features pci_features cif
  = fst (fold_left append_feature (rendered_features cif)
           (pci_features,
            if is_empty pci_features then empty else lit ",")).
Proof.
  unfold render_add_features, rendered_features.
  change 1%Z with (2 ^ 0)%Z. rewrite isa_loop_features by lia.
  rewrite !fold_append_feature_app. fold (isa_features cif).
  unfold vendor_feature, model_feature, cache_feature, cache_text.
  destruct (vendor_id cif), (model_name cif); reflexivity.
Qed.

Lemma isa_features_from_prefix (names : list cstring) (fl : Z) (x : cstring) :
  forall i : Z,
    In x (isa_features_from i names fl) ->
    exists name : cstring, x = lit "ISA::" ++ name.
Proof.
  induction names as [|name names IH]; intros i; cbn [isa_features_from].
  - intros [].
  - intros H. apply in_app_or in H. destruct H as [H|H]; [|now apply IH in H].
    destruct (Z.testbit fl i); [|destruct H].
    destruct H as [<-|[]]. now exists name.
Qed.

Lemma cache_gate (cif : cpuinfo_features) :
  In (cache_text cif) (rendered_features cif) <-> model_name cif <> None.
Proof.
  unfold rendered_features, vendor_feature, model_feature, cache_feature,
    isa_features.
  split.
  - intros H. apply in_app_or in H. destruct H as [H|H].
    { destruct (vendor_id cif); [|destruct H].
      destruct H as [H|[]]. discriminate H. }
    apply in_app_or in H. destruct H as [H|H].
    { destruct (model_name cif); [|destruct H].
      destruct H as [H|[]]. discriminate H. }
    apply in_app_or in H. destruct H as [H|H].
    { destruct (model_name cif); [discriminate|destruct H]. }
    apply isa_features_from_prefix in H. destruct H as [name H].
    discriminate H.
  - intros H. apply in_or_app. right. apply in_or_app. right.
    apply in_or_app. left. destruct (model_name cif); [now left|congruence].
Qed.

Lemma summarize_as_join (cif : cpuinfo_features) :
  cpuinfo_features_summarize cif
  = join (lit ",")
      (vendor_feature cif ++ model_feature cif ++ cache_feature_by_size cif
       ++ isa_features cif).
Proof.
  unfold cpuinfo_features_summarize.
  change 1%Z with (2 ^ 0)%Z. rewrite isa_loop_features by lia.
  fold (isa_features cif).
  assert (G : forall items : list cstring,
             match fst (fold_left append_feature items (Some empty, empty))
             with
             | Some s => s
             | None => []
             end = join (lit ",") items).
  { intros [|x xs]; [reflexivity|].
    now rewrite fold_append_feature by discriminate. }
  rewrite <- G, !fold_append_feature_app.
  unfold vendor_feature, model_feature, cache_feature_by_size, cache_text.
  destruct (vendor_id cif), (model_name cif), (cache_kb cif =? 0)%Z;
    reflexivity.
Qed.

(** C7, as the code has it.  The rendering block of
    node_features_p_node_state produces the features of the record joined
    by commas in the fixed order VENDOR (if the vendor is present), MODEL
    (if the model name is present), CACHE, then the ISA flags in
    enumeration order (after the PCI features, when there are any); there
    the CACHE feature is emitted if and only if the model name is present,
    and without a model name the output does not depend on the cache size.
    cpuinfo_features_summarize of the test program prints the features in
    the same order, but with CACHE emitted if and only if the cache size is
    not zero. *)
Theorem render_order_and_cache_gate :
  forall (pci_features : option cstring) (cif : cpuinfo_features),
    render_add_features pci_features cif
    = match leading_item pci_features
            ++ (vendor_feature cif ++ model_feature cif ++ cache_feature cif
                ++ isa_features_from 0 cpuinfo_flags_strings (flags cif))
      with
      | [] => pci_features
      | items => Some (join (lit ",") items)
      end
    /\ (In (cache_text cif) (rendered_features cif)
        <-> model_name cif <> None)
    /\ (model_name cif = None ->
        forall kb : Z,
          render_add_features pci_features (set_cache_kb cif kb)
          = render_add_features pci_features cif)
    /\ cpuinfo_features_summarize cif
       = join (lit ",")
           (vendor_feature cif ++ model_feature cif
            ++ (if (cache_kb cif =? 0)%Z then [] else [cache_text cif])
            ++ isa_features_from 0 cpuinfo_flags_strings (flags cif)).
Proof.
  intros pci_features cif. split; [|split; [|split]].
  - fold (isa_features cif). fold (rendered_features cif).
    rewrite render_as_fold.
    destruct (rendered_features cif) as [|x xs] eqn:E.
    + rewrite app_nil_r. cbn [fold_left fst].
      destruct pci_features as [[|c p]|];
        cbn [leading_item join map List.concat]; now rewrite ?app_nil_r.
    + rewrite fold_append_feature by discriminate. cbn [fst].
      destruct pci_features as [[|c p]|]; cbn [leading_item is_empty app];
        first [ reflexivity
              | cbn [join map List.concat]; now rewrite <- !app_assoc ].
  - apply cache_gate.
  - intros Hm kb. unfold render_add_features, set_cache_kb.
    cbn [vendor_id model_name flags cache_kb]. now rewrite Hm.
  - apply summarize_as_join.
Qed.

Lemma render_order_and_cache_gate_witness :
  render_add_features None
    {| vendor_id := Some (lit "GenuineIntel"); model_name := None;
       cache_kb := 46080; flags := 35 |}
  = Some (lit "VENDOR::GenuineIntel,ISA::sse,ISA::sse2,ISA::avx")
  /\ render_add_features None
       {| vendor_id := Some (lit "GenuineIntel"); model_name := None;
          cache_kb := 512; flags := 35 |}
     = render_add_features None
         {| vendor_id := Some (lit "GenuineIntel"); model_name := None;
            cache_kb := 46080; flags := 35 |}.
Proof.
  pose proof (render_order_and_cache_gate None
                {| vendor_id := Some (lit "GenuineIntel"); model_name := None;
                   cache_kb := 46080; flags := 35 |}) as [E [_ [G _]]].
  split.
  - exact E.
  - exact (G eq_refl 512%Z).
Defined.

(** The claim as worded fails for the test program's renderer: a record
    with a cache size and no model name prints a CACHE feature. *)
Lemma summarize_emits_cache_without_model :
  ~ (model_name
       {| vendor_id := Some (lit "GenuineIntel"); model_name := None;
          cache_kb := 46080; flags := 35 |} = None ->
     ~ In (lit "CACHE::46080KB")
          (tokens (lit ",")
             (cpuinfo_features_summarize
                {| vendor_id := Some (lit "GenuineIntel"); model_name := None;
                   cache_kb := 46080; flags := 35 |}))).
Proof.
  intros H. apply (H eq_refl). vm_compute. right. now left.
Qed.

(** ** Cache size *)

Lemma ends_or_B_deref (rest : cstring) :
  ends_or_B rest
  = (Ascii.eqb (toupper (deref rest)) "B"
     || Ascii.eqb (toupper (deref rest)) nul).
Proof.
  destruct rest as [|b rest]; [reflexivity|]. cbn [ends_or_B deref].
  f_equal. unfold toupper. destruct (islower b) eqn:L; [|reflexivity].
  destruct (Ascii.eqb_spec b nul) as [->|Hb]; [discriminate L|].
  symmetry. apply Ascii.eqb_neq. intros E.
  apply (f_equal N_of_ascii) in E. rewrite N_ascii_embedding in E.
  - unfold islower, in_range, code in L. change (N_of_ascii nul) with 0%N in E.
    apply andb_prop in L. destruct L as [L1 L2].
    apply N.leb_le in L1. unfold code in E. lia.
  - unfold islower, in_range, code in L.
    apply andb_prop in L. destruct L as [L1 L2].
    apply N.leb_le in L2. unfold code. lia.
Qed.

Lemma toupper_nul (u : ascii) :
  Ascii.eqb (toupper u) nul = Ascii.eqb u nul.
Proof. destruct u as [[] [] [] [] [] [] [] []]; reflexivity. Qed.

Lemma stores_kb_set (cif : cpuinfo_features) (kb : Z) :
  stores_kb cif (Returns true (set_cache_kb cif kb)) kb.
Proof. exists (set_cache_kb cif kb). repeat split. Qed.

(** C5.  cpuinfo_parse_cache_size reads a number with strtod and then a
    unit: G scales by 1024 squared, M by 1024, K by 1, each accepted only
    when B or the end of the text follows; a bare B divides by 1024; no unit
    at all keeps the number; any other character rejects the line and
    leaves the record as it was.  On acceptance the function returns true
    with the scaled number, its fraction cut off, in the cache-size field
    and the other fields unchanged.  "46080 KB" stores 46080, "512K" stores
    512, "8 MB" stores 8192; "2047B" stores 1 and "2.7 KB" stores 2, the
    fractions being cut off, not rounded. *)
Theorem cache_size_units :
  (forall (cif : cpuinfo_features) (text : cstring),
      match strtod text with
      | SNone => cpuinfo_parse_cache_size cif text = Returns false cif
      | SValue v endp =>
          match cache_size_kilobytes v endp with
          | None => cpuinfo_parse_cache_size cif text = Returns false cif
          | Some kilobytes =>
              match to_unsigned_int kilobytes with
              | Some kb =>
                  stores_kb cif (cpuinfo_parse_cache_size cif text) kb
              | None =>
                  cpuinfo_parse_cache_size cif text = UndefinedConversion
              end
          end
      end)
  /\ (forall cif : cpuinfo_features,
         stores_kb cif (cpuinfo_parse_cache_size cif (lit "46080 KB")) 46080
         /\ stores_kb cif (cpuinfo_parse_cache_size cif (lit "512K")) 512
         /\ stores_kb cif (cpuinfo_parse_cache_size cif (lit "8 MB")) 8192
         /\ stores_kb cif (cpuinfo_parse_cache_size cif (lit "2047B")) 1
         /\ stores_kb cif (cpuinfo_parse_cache_size cif (lit "2.7 KB")) 2).
Proof.
  split.
  - intros cif text. unfold cpuinfo_parse_cache_size.
    destruct (strtod text) as [|v endp]; [reflexivity|].
    unfold cache_size_kilobytes.
    destruct (skip isspace endp) as [|u rest] eqn:E.
    + cbn [deref]. change (toupper nul) with nul. cbv beta iota zeta.
      change (Ascii.eqb nul "G") with false.
      change (Ascii.eqb nul "M") with false.
      change (Ascii.eqb nul "K") with false.
      change (Ascii.eqb nul "B") with false.
      cbv beta iota. cbn [deref]. change (toupper nul) with nul.
      change (Ascii.eqb nul "B" || Ascii.eqb nul nul) with true.
      cbv beta iota.
      destruct (to_unsigned_int v); [apply stores_kb_set|reflexivity].
    + cbn [deref tl].
      destruct (Ascii.eqb (toupper u) "G") eqn:EG.
      { rewrite ends_or_B_deref. cbv beta iota zeta.
        destruct (_ || _); [|reflexivity].
        destruct (to_unsigned_int _); [apply stores_kb_set|reflexivity]. }
      destruct (Ascii.eqb (toupper u) "M") eqn:EM.
      { rewrite ends_or_B_deref. cbv beta iota zeta.
        destruct (_ || _); [|reflexivity].
        destruct (to_unsigned_int _); [apply stores_kb_set|reflexivity]. }
      destruct (Ascii.eqb (toupper u) "K") eqn:EK.
      { rewrite ends_or_B_deref. cbv beta iota zeta.
        destruct (_ || _); [|reflexivity].
        destruct (to_unsigned_int _); [apply stores_kb_set|reflexivity]. }
      destruct (Ascii.eqb (toupper u) "B") eqn:EB.
      { cbv beta iota zeta. cbn [deref]. rewrite EB. cbn [orb].
        destruct (to_unsigned_int _); [apply stores_kb_set|reflexivity]. }
      cbv beta iota zeta. cbn [deref]. rewrite EB, toupper_nul. cbn [orb].
      destruct (Ascii.eqb u nul); [|reflexivity].
      destruct (to_unsigned_int _); [apply stores_kb_set|reflexivity].
  - intros cif.
    repeat apply conj;
      (eexists; split; [vm_compute; reflexivity|repeat split]).
Qed.

(** ** Tokens and strtok_r *)

Lemma take_skip (f : ascii -> bool) (p : cstring) :
  take f p ++ skip f p = p.
Proof.
  induction p as [|c p IH]; [reflexivity|]. cbn.
  destruct (f c); [cbn; now rewrite IH | reflexivity].
Qed.

Lemma skip_length (f : ascii -> bool) (p : cstring) :
  (strlen (skip f p) <= strlen p)%nat.
Proof.
  unfold strlen. induction p as [|c p IH]; cbn [skip]; [lia|].
  destruct (f c); cbn [List.length]; lia.
Qed.

Lemma take_all (f : ascii -> bool) (p : cstring) :
  forallb f (take f p) = true.
Proof.
  induction p as [|c p IH]; [reflexivity|]. cbn.
  destruct (f c) eqn:E; [cbn; now rewrite E | reflexivity].
Qed.

Lemma pieces_not_nil (d s : cstring) : pieces d s <> [].
Proof.
  destruct s as [|c s]; cbn; [discriminate|].
  destruct (is_delim d c); [discriminate|].
  destruct (pieces d s); discriminate.
Qed.

Lemma pieces_unfold (d s : cstring) :
  pieces d s
  = take (not_delim d) s
    :: match skip (not_delim d) s with
       | [] => []
       | _ :: r => pieces d r
       end.
Proof.
  induction s as [|c s IH]; [reflexivity|].
  cbn [pieces take skip]. unfold not_delim at 1 3.
  destruct (is_delim d c); cbn [negb]; [reflexivity|].
  now rewrite IH.
Qed.

Lemma pieces_app (d a b : cstring) (c : ascii) :
  is_delim d c = true ->
  pieces d (a ++ c :: b) = pieces d a ++ pieces d b.
Proof.
  intros Hc. induction a as [|x a IH]; cbn [app pieces].
  - now rewrite Hc.
  - destruct (is_delim d x); rewrite IH; [reflexivity|].
    pose proof (pieces_not_nil d a).
    destruct (pieces d a); [congruence|reflexivity].
Qed.

Lemma pieces_single (d t : cstring) :
  forallb (not_delim d) t = true -> pieces d t = [t].
Proof.
  induction t as [|c t IH]; [reflexivity|]. cbn [forallb pieces].
  intros H. apply andb_prop in H. destruct H as [Hc Ht].
  unfold not_delim in Hc. apply negb_true_iff in Hc. rewrite Hc.
  now rewrite IH.
Qed.

Lemma tokens_app (d a b : cstring) (c : ascii) :
  is_delim d c = true ->
  tokens d (a ++ c :: b) = tokens d a ++ tokens d b.
Proof.
  intros Hc. unfold tokens. rewrite pieces_app by assumption.
  apply filter_app.
Qed.

Lemma tokens_single (d t : cstring) :
  t <> [] -> forallb (not_delim d) t = true -> tokens d t = [t].
Proof.
  intros Hne Ht. unfold tokens. rewrite pieces_single by assumption.
  destruct t; [congruence|reflexivity].
Qed.

Lemma tokens_skip_delims (d s : cstring) :
  tokens d (skip (is_delim d) s) = tokens d s.
Proof.
  induction s as [|c s IH]; [reflexivity|]. cbn [skip].
  destruct (is_delim d c) eqn:E; [|reflexivity].
  rewrite IH. unfold tokens. cbn [pieces]. now rewrite E.
Qed.

(** A piece holds no delimiter; a token is moreover not empty. *)
Lemma pieces_no_delim (d s t : cstring) :
  In t (pieces d s) -> forallb (not_delim d) t = true.
Proof.
  revert t. induction s as [|c s IH]; intros t; cbn [pieces].
  - intros [<-|[]]. reflexivity.
  - destruct (is_delim d c) eqn:E.
    + intros [<-|H]; [reflexivity|now apply IH].
    + pose proof (pieces_not_nil d s).
      destruct (pieces d s) as [|p ps]; [congruence|].
      intros [<-|H0].
      * cbn [forallb]. unfold not_delim at 1. rewrite E. cbn.
        apply IH. now left.
      * apply IH. now right.
Qed.

Lemma tokens_spec (d s t : cstring) :
  In t (tokens d s) -> t <> [] /\ forallb (not_delim d) t = true.
Proof.
  unfold tokens. rewrite filter_In. intros [H1 H2]. split.
  - destruct t; [discriminate|discriminate].
  - now apply (pieces_no_delim d s).
Qed.

(** What one call of strtok_r does to the token list. *)
Lemma strtok_r_tokens (d : cstring) (b : strtok_buf) :
  match strtok_r d b with
  | (None, _) => tokens d (save_ptr b) = []
  | (Some t, b') =>
      tokens d (save_ptr b) = t :: tokens d (save_ptr b')
      /\ (strlen (save_ptr b') < strlen (save_ptr b))%nat
  end.
Proof.
  unfold strtok_r. rewrite <- (tokens_skip_delims d (save_ptr b)).
  pose proof (skip_length (is_delim d) (save_ptr b)) as Hlen.
  destruct (skip (is_delim d) (save_ptr b)) as [|c s] eqn:E; [reflexivity|].
  assert (Hc : is_delim d c = false).
  { clear Hlen. revert E. induction (save_ptr b) as [|x l IH]; cbn [skip].
    - discriminate.
    - destruct (is_delim d x) eqn:Ex; [exact IH|].
      intros [= -> _]. exact Ex. }
  pose proof (take_skip (not_delim d) (c :: s)) as TS.
  pose proof (skip_length (not_delim d) (c :: s)) as Hlen2.
  pose proof (take_all (not_delim d) (c :: s)) as Hall.
  assert (Hne : take (not_delim d) (c :: s) <> []).
  { cbn [take]. unfold not_delim at 1. rewrite Hc. discriminate. }
  destruct (skip (not_delim d) (c :: s)) as [|x rest] eqn:E2;
    cbn [save_ptr].
  - split; [|unfold strlen in *; cbn [List.length] in *; lia].
    rewrite app_nil_r in TS. rewrite TS in *.
    now apply tokens_single.
  - assert (Hx : is_delim d x = true).
    { revert E2. clear. generalize (c :: s). induction l as [|y l IH];
        cbn [skip]; [discriminate|].
      destruct (not_delim d y) eqn:Ey; [exact IH|].
      intros [= -> _]. unfold not_delim in Ey.
      now apply negb_false_iff in Ey. }
    split.
    + rewrite <- TS at 1. rewrite tokens_app by assumption.
      now rewrite tokens_single.
    + unfold strlen in *. cbn [List.length] in *. lia.
Qed.

(** The strtok_r loop runs its body over the tokens, and the fuel of
    [strtok_while] is never exhausted. *)
Lemma strtok_loop_fold {A : Type} (d : cstring) (body : A -> cstring -> A) :
  forall (fuel : nat) (b : strtok_buf) (acc : A),
    (strlen (save_ptr b) < fuel)%nat ->
    exists b', strtok_loop fuel d body b acc
               = Some (fold_left body (tokens d (save_ptr b)) acc, b').
Proof.
  induction fuel as [|fuel IH]; intros b acc Hf; [lia|].
  cbn [strtok_loop]. pose proof (strtok_r_tokens d b) as H.
  destruct (strtok_r d b) as [[t|] b'].
  - destruct H as [-> Hlt]. cbn [fold_left]. apply IH. lia.
  - rewrite H. now exists b'.
Qed.

Lemma strtok_while_fold {A : Type} (d : cstring) (body : A -> cstring -> A)
    (copy : cstring) (acc : A) :
  fst (strtok_while d body copy acc) = fold_left body (tokens d copy) acc.
Proof.
  unfold strtok_while.
  destruct (strtok_loop_fold d body (S (strlen copy)) (strtok_start copy) acc)
    as [b' ->]; [cbn [strtok_start save_ptr]; lia|reflexivity].
Qed.

(** ** node_features_p_job_xlate *)

Lemma job_xlate_body_fold (pci : bool) (toks : list cstring) :
  forall st : out_state,
    fold_left (job_xlate_body pci) toks st
    = fold_left append_feature
        (filter (node_features_p_changible_feature pci) toks) st.
Proof.
  induction toks as [|t toks IH]; intros st; [reflexivity|].
  cbn [fold_left filter]. rewrite IH.
  unfold job_xlate_body, node_features_p_changible_feature.
  now destruct (cpuinfo_features_is_str_ours pci t (-1)).
Qed.

(** C2, as the code has it.  When at least one token of the
    ampersand-separated expression is owned by the plugin,
    node_features_p_job_xlate returns the owned tokens in their original
    order, joined with commas. *)
Theorem job_xlate_owned_tokens :
  forall (pci : bool) (job_features : cstring),
    filter (node_features_p_changible_feature pci)
      (tokens (lit "&") job_features) <> [] ->
    node_features_p_job_xlate pci (Some job_features)
    = Some (join (lit ",")
              (filter (node_features_p_changible_feature pci)
                 (tokens (lit "&") job_features))).
Proof.
  intros pci s Hne. unfold node_features_p_job_xlate.
  destruct s as [|c s]; [now elim Hne|].
  pose proof (strtok_while_fold (lit "&") (job_xlate_body pci) (c :: s)
                (None, empty)) as F.
  destruct (strtok_while (lit "&") (job_xlate_body pci) (c :: s)
              (None, empty)) as [st copy].
  cbn [fst] in F. rewrite F, job_xlate_body_fold.
  now rewrite fold_append_feature by assumption.
Qed.

Lemma job_xlate_owned_tokens_witness :
  node_features_p_job_xlate false (Some (lit "Gen1&ISA::avx&ISA::avx2"))
  = Some (lit "ISA::avx,ISA::avx2").
Proof.
  apply (job_xlate_owned_tokens false (lit "Gen1&ISA::avx&ISA::avx2")).
  vm_compute. discriminate.
Defined.

(** The claim as worded fails on two owned tokens: the result is not their
    join with ampersands. *)
Lemma job_xlate_not_ampersand_joined :
  node_features_p_job_xlate false (Some (lit "ISA::avx&ISA::avx2"))
  <> Some (join (lit "&")
             (filter (node_features_p_changible_feature false)
                (tokens (lit "&") (lit "ISA::avx&ISA::avx2")))).
Proof. vm_compute. discriminate. Qed.

(** With no owned token the function hands back its private copy, in which
    strtok_r has already overwritten the first separator. *)
Lemma job_xlate_returns_truncated_copy :
  node_features_p_job_xlate false (Some (lit "Gen1&Gen2")) = Some (lit "Gen1").
Proof. reflexivity. Qed.

(** ** node_features_p_node_xlate *)

Lemma node_xlate_body_fold (pci : bool) (toks : list cstring) :
  forall out : cstring,
  exists added : list cstring,
    fold_left (node_xlate_body pci) toks (Some out, lit ",")
    = (Some (out ++ List.concat (map (fun t => lit "," ++ t) added)), lit ",")
    /\ (forall t, In t added ->
          In t toks /\ node_features_p_changible_feature pci t = false).
Proof.
  induction toks as [|t toks IH]; intros out.
  - exists []. cbn. rewrite app_nil_r. split; [reflexivity|intros t []].
  - cbn [fold_left]. unfold node_xlate_body at 2.
    fold (node_features_p_changible_feature pci t).
    destruct (node_features_p_changible_feature pci t) eqn:Ours; cbn [negb].
    + destruct (IH out) as [added [E H]]. exists added. split; [exact E|].
      intros u Hu. destruct (H u Hu). split; [now right|assumption].
    + cbn [fst]. destruct (contains_str (Some out) t (Some (lit ",")));
        cbn [negb].
      * destruct (IH out) as [added [E H]]. exists added. split; [exact E|].
        intros u Hu. destruct (H u Hu). split; [now right|assumption].
      * unfold append_feature. cbn [fst snd xstrfmtcat].
        destruct (IH (out ++ lit "," ++ t)) as [added [E H]].
        exists (t :: added). split.
        -- refine (eq_trans E _). cbn [map List.concat].
           now rewrite <- !app_assoc.
        -- intros u [<-|Hu]; [split; [now left|assumption]|].
           destruct (H u Hu). split; [now right|assumption].
Qed.

Lemma tokens_of_appended (d : cstring) (c : ascii) (added : list cstring) :
  is_delim d c = true ->
  (forall t, In t added -> t <> [] /\ forallb (not_delim d) t = true) ->
  forall out : cstring,
    tokens d (out ++ List.concat (map (fun t => [c] ++ t) added))
    = tokens d out ++ added.
Proof.
  intros Hc. induction added as [|t added IH]; intros H out.
  - cbn. now rewrite !app_nil_r.
  - cbn [map List.concat].
    replace (out ++ ([c] ++ t) ++ List.concat (map (fun t => [c] ++ t) added))
      with ((out ++ c :: t) ++ List.concat (map (fun t => [c] ++ t) added))
      by now rewrite <- !app_assoc.
    rewrite IH by (intros u Hu; apply H; now right).
    rewrite tokens_app by assumption.
    destruct (H t (or_introl eq_refl)) as [Hne Ht].
    rewrite (tokens_single d t) by assumption. now rewrite <- app_assoc.
Qed.

(** The tokens of the merged list: those of [new_features], then some
    tokens of [orig_features] that the plugin does not own. *)
Lemma node_xlate_tokens (pci : bool) (new_features : cstring)
    (orig_features avail_features : option cstring) :
  new_features <> [] ->
  exists added : list cstring,
    feature_tokens
      (node_features_p_node_xlate pci (Some new_features) orig_features
         avail_features)
    = feature_tokens (Some new_features) ++ added
    /\ (forall t, In t added ->
          In t (feature_tokens orig_features)
          /\ node_features_p_changible_feature pci t = false).
Proof.
  intros Hnew. unfold node_features_p_node_xlate.
  destruct new_features as [|c new_features]; [congruence|].
  cbn [is_empty].
  destruct orig_features as [[|o orig]|]; cbn [is_empty xstrdup].
  - exists []. rewrite app_nil_r. split; [reflexivity|intros t []].
  - rewrite strtok_while_fold.
    destruct (node_xlate_body_fold pci (tokens (lit ",") (o :: orig))
                (c :: new_features)) as [added [E H]].
    exists added. split; [|exact H].
    unfold xstrdup.
    refine (eq_trans (f_equal (fun st => feature_tokens (fst st)) E) _).
    cbn [fst feature_tokens].
    apply (tokens_of_appended (lit ",") ","%char).
    + reflexivity.
    + intros t Ht. apply (tokens_spec (lit ",") (o :: orig)). now apply H.
  - exists []. rewrite app_nil_r. split; [reflexivity|intros t []].
Qed.

(** C3, as the code has it.  For non-empty [new_features] the merged list
    contains every token of [new_features] and no token of [orig_features]
    that the plugin owns and that is absent from [new_features]; for empty
    or absent [new_features] the result is [orig_features] as given, owned
    tokens included. *)
Theorem node_xlate_reconciler_law :
  forall (pci : bool) (new_features : cstring)
         (orig_features avail_features : option cstring),
    new_features <> [] ->
    let merged :=
      node_features_p_node_xlate pci (Some new_features) orig_features
        avail_features in
    (forall t, In t (feature_tokens (Some new_features)) ->
               In t (feature_tokens merged))
    /\ (forall t, In t (feature_tokens orig_features) ->
                  node_features_p_changible_feature pci t = true ->
                  ~ In t (feature_tokens (Some new_features)) ->
                  ~ In t (feature_tokens merged))
    /\ node_features_p_node_xlate pci None orig_features avail_features
       = orig_features
    /\ node_features_p_node_xlate pci (Some []) orig_features avail_features
       = orig_features.
Proof.
  intros pci new_features orig_features avail_features Hnew merged.
  destruct (node_xlate_tokens pci new_features orig_features avail_features
              Hnew) as [added [E H]].
  fold merged in E. repeat split.
  - intros t Ht. rewrite E. apply in_or_app. now left.
  - intros t _ Ours Hnot Hin. rewrite E in Hin.
    apply in_app_or in Hin. destruct Hin as [Hin|Hin]; [now apply Hnot|].
    destruct (H t Hin) as [_ Hf]. congruence.
Qed.

Lemma node_xlate_reconciler_law_witness :
  (forall t, In t (feature_tokens (Some (lit "ISA::avx2"))) ->
             In t (feature_tokens
                     (node_features_p_node_xlate false (Some (lit "ISA::avx2"))
                        (Some (lit "Gen1,ISA::sse")) None)))
  /\ (forall t, In t (feature_tokens (Some (lit "Gen1,ISA::sse"))) ->
                node_features_p_changible_feature false t = true ->
                ~ In t (feature_tokens (Some (lit "ISA::avx2"))) ->
                ~ In t (feature_tokens
                          (node_features_p_node_xlate false
                             (Some (lit "ISA::avx2"))
                             (Some (lit "Gen1,ISA::sse")) None)))
  /\ node_features_p_node_xlate false None (Some (lit "Gen1,ISA::sse")) None
     = Some (lit "Gen1,ISA::sse")
  /\ node_features_p_node_xlate false (Some []) (Some (lit "Gen1,ISA::sse"))
       None
     = Some (lit "Gen1,ISA::sse").
Proof.
  apply (node_xlate_reconciler_law false (lit "ISA::avx2")
           (Some (lit "Gen1,ISA::sse")) None).
  discriminate.
Defined.

(** The law as worded fails for empty [new_features]: the owned token of
    [orig_features] survives. *)
Lemma node_xlate_keeps_owned_when_new_empty :
  ~ (forall t, In t (feature_tokens (Some (lit "ISA::sse"))) ->
               node_features_p_changible_feature false t = true ->
               ~ In t (feature_tokens (Some (empty))) ->
               ~ In t (feature_tokens
                         (node_features_p_node_xlate false (Some (empty))
                            (Some (lit "ISA::sse")) None))).
Proof.
  intros H. apply (H (lit "ISA::sse")).
  - now left.
  - reflexivity.
  - intros [].
  - now left.
Qed.

(** C1 at new_features = "ISA::avx2", orig_features = "avx2,Gen1".  The
    token "avx2" is not owned and is no token of the result so far, yet
    __contains_str finds it at the end of "ISA::avx2" and it is not
    appended. *)
Theorem node_xlate_drops_foreign_suffix :
  node_features_p_node_xlate false (Some (lit "ISA::avx2"))
    (Some (lit "avx2,Gen1")) None
  = Some (lit "ISA::avx2,Gen1")
  /\ node_features_p_changible_feature false (lit "avx2") = false
  /\ ~ In (lit "avx2") (feature_tokens (Some (lit "ISA::avx2")))
  /\ contains_str (Some (lit "ISA::avx2")) (lit "avx2") (Some (lit ","))
     = true.
Proof.
  repeat split; try reflexivity.
  cbv. intros [H|[]]. discriminate H.
Qed.

(** ** __contains_str and cpuinfo_parse_flags *)

Lemma strstr_found (needle : cstring) :
  forall haystack found : cstring,
    strstr haystack needle = Some found ->
    starts_with needle found = true
    /\ (strlen found <= strlen haystack)%nat.
Proof.
  unfold strlen.
  induction haystack as [|c h IH]; intros found; cbn [strstr].
  - destruct (starts_with needle []) eqn:E; [|discriminate].
    intros [= <-]. split; [assumption|lia].
  - destruct (starts_with needle (c :: h)) eqn:E.
    + intros [= <-]. split; [assumption|lia].
    + intros H. destruct (IH _ H). split; [assumption|].
      cbn [List.length]. lia.
Qed.

Lemma starts_with_length (needle p : cstring) :
  starts_with needle p = true -> (strlen needle <= strlen p)%nat.
Proof.
  unfold strlen. revert p.
  induction needle as [|n needle IH]; intros p; cbn [starts_with List.length].
  - lia.
  - destruct p as [|c p]; [discriminate|].
    intros H. apply andb_prop in H. destruct H as [_ H].
    apply IH in H. cbn [List.length]. lia.
Qed.

(** With a non-empty needle every round of the loop shortens [p]: fuel
    beyond the length of [p] changes nothing, so [contains_str] never runs
    out. *)
Lemma contains_str_loop_fuel (needle d : cstring) :
  needle <> [] ->
  forall (fuel1 fuel2 : nat) (p : cstring),
    (strlen p < fuel1)%nat -> (strlen p < fuel2)%nat ->
    contains_str_loop fuel1 p needle d = contains_str_loop fuel2 p needle d.
Proof.
  intros Hne. induction fuel1 as [|fuel1 IH]; intros fuel2 p H1 H2; [lia|].
  destruct fuel2 as [|fuel2]; [lia|]. cbn [contains_str_loop].
  destruct p as [|c p]; [reflexivity|].
  destruct (strstr (c :: p) needle) as [found|] eqn:E; [|reflexivity].
  destruct (_ || _); [reflexivity|].
  destruct (strstr_found _ _ _ E) as [Hs Hl].
  pose proof (starts_with_length _ _ Hs) as Hn.
  assert (0 < strlen needle)%nat
    by (destruct needle; [congruence|unfold strlen; cbn; lia]).
  assert (strlen (skipn (strlen needle) found) < strlen (c :: p))%nat.
  { unfold strlen in *. rewrite length_skipn. lia. }
  apply IH; lia.
Qed.

Lemma starts_with_eq (n p : cstring) :
  starts_with n p = true -> p = n ++ skipn (strlen n) p.
Proof.
  unfold strlen. revert p.
  induction n as [|x n IH]; intros p; [reflexivity|].
  destruct p as [|c p]; cbn [starts_with]; [discriminate|].
  intros H. apply andb_prop in H. destruct H as [Hx Hn].
  apply Ascii.eqb_eq in Hx. subst c. cbn [List.length skipn app].
  f_equal. now apply IH.
Qed.

Lemma starts_with_app (n b : cstring) : starts_with n (n ++ b) = true.
Proof.
  induction n as [|x n IH]; [reflexivity|]. cbn [app starts_with].
  now rewrite Ascii.eqb_refl, IH.
Qed.

(** strstr returns the leftmost occurrence. *)
Lemma strstr_first (n : cstring) :
  forall h found : cstring,
    strstr h n = Some found ->
    exists a1 : cstring,
      h = a1 ++ found
      /\ forall a2 rest : cstring,
           h = a2 ++ rest -> starts_with n rest = true ->
           (List.length a1 <= List.length a2)%nat.
Proof.
  induction h as [|c h IH]; intros found; cbn [strstr].
  - destruct (starts_with n []); [|discriminate]. intros [= <-].
    exists []. split; [reflexivity|]. intros; cbn; lia.
  - destruct (starts_with n (c :: h)) eqn:E.
    + intros [= <-]. exists []. split; [reflexivity|]. intros; cbn; lia.
    + intros H. destruct (IH _ H) as [a1 [E1 Hmin]].
      exists (c :: a1). split; [now rewrite E1|].
      intros a2 rest E2 Hs. destruct a2 as [|x a2].
      * cbn in E2. subst rest. congruence.
      * cbn in E2. injection E2 as -> E2. cbn [List.length].
        apply le_n_S. now apply (Hmin a2 rest).
Qed.

Lemma strstr_none (n : cstring) :
  forall h : cstring,
    strstr h n = None ->
    forall a2 rest : cstring, h = a2 ++ rest -> starts_with n rest = false.
Proof.
  induction h as [|c h IH]; cbn [strstr].
  - destruct (starts_with n []) eqn:E; [discriminate|]. intros _ a2 rest E2.
    symmetry in E2. apply app_eq_nil in E2. destruct E2 as [_ ->]. exact E.
  - destruct (starts_with n (c :: h)) eqn:E; [discriminate|].
    intros H a2 rest E2. destruct a2 as [|x a2].
    + cbn in E2. now subst rest.
    + cbn in E2. injection E2 as _ E2. now apply (IH H a2).
Qed.

Lemma strchr_delim (d : cstring) (c : ascii) :
  strchr d c = (Ascii.eqb c nul || is_delim d c).
Proof. reflexivity. Qed.

(** What a positive answer of the loop means: the needle occurs, and the
    character after it is a delimiter or the end of the string. *)
Lemma contains_str_loop_sound (n d : cstring) :
  forall (fuel : nat) (p : cstring),
    contains_str_loop fuel p n d = true ->
    exists a b : cstring, p = a ++ n ++ b /\ delimited_right d b.
Proof.
  induction fuel as [|fuel IH]; intros p; cbn [contains_str_loop];
    [discriminate|].
  destruct p as [|c p]; [discriminate|].
  destruct (strstr (c :: p) n) as [found|] eqn:E; [|discriminate].
  destruct (strstr_first _ _ _ E) as [a1 [E1 _]].
  destruct (strstr_found _ _ _ E) as [Hs _].
  apply starts_with_eq in Hs. set (r := skipn (strlen n) found) in *.
  destruct (Ascii.eqb (deref r) nul || strchr d (deref r)) eqn:T.
  - intros _. exists a1, r. split; [now rewrite E1, Hs at 1|].
    destruct r as [|x r]; [now left|]. right. exists x, r.
    split; [reflexivity|]. cbn [deref] in T. rewrite strchr_delim in T.
    destruct (Ascii.eqb_spec x nul) as [->|_]; [now right|]. now left.
  - intros H. destruct (IH _ H) as [a [b [E2 Hb]]].
    exists (a1 ++ n ++ a), b. split; [|exact Hb].
    rewrite E1, Hs at 1. rewrite E2. now rewrite <- !app_assoc.
Qed.

(** A delimiter that comes after the start of a delimiter-free needle comes
    after its end. *)
Lemma needle_before_delimiter (d n : cstring) (c : ascii) :
  forallb (not_delim d) n = true ->
  is_delim d c = true ->
  forall x0 r b : cstring,
    n ++ r = x0 ++ c :: b ->
    exists y : cstring, x0 = n ++ y /\ r = y ++ c :: b.
Proof.
  intros Hn Hc. induction n as [|x n IH]; intros x0 r b E.
  - exists x0. now split.
  - cbn [forallb] in Hn. apply andb_prop in Hn. destruct Hn as [Hx Hn].
    destruct x0 as [|z x0].
    + cbn in E. injection E as -> _. unfold not_delim in Hx.
      rewrite Hc in Hx. discriminate.
    + cbn in E. injection E as -> E.
      destruct (IH Hn x0 r b E) as [y [-> ->]]. now exists y.
Qed.

(** A whole token is always found: the loop cannot step over an occurrence
    that follows a delimiter, because the needle holds no delimiter. *)
Lemma contains_str_loop_whole_token (n d b : cstring) :
  n <> [] ->
  forallb (not_delim d) n = true ->
  b = [] \/ (exists (c : ascii) (b' : cstring),
               b = c :: b' /\ is_delim d c = true) ->
  forall (fuel : nat) (a : cstring),
    delimited_left d a ->
    (strlen (a ++ n ++ b) < fuel)%nat ->
    contains_str_loop fuel (a ++ n ++ b) n d = true.
Proof.
  intros Hne Hn Hb. induction fuel as [|fuel IH]; intros a Ha Hf; [lia|].
  cbn [contains_str_loop].
  destruct (a ++ n ++ b) as [|c0 p0] eqn:P.
  { apply app_eq_nil in P. destruct P as [_ P].
    apply app_eq_nil in P. destruct P. congruence. }
  rewrite <- P in *. clear c0 p0 P.
  destruct (strstr (a ++ n ++ b) n) as [found|] eqn:E.
  2:{ pose proof (strstr_none _ _ E a (n ++ b) eq_refl) as N.
      now rewrite starts_with_app in N. }
  destruct (strstr_first _ _ _ E) as [a1 [E1 Hmin]].
  destruct (strstr_found _ _ _ E) as [Hs _].
  apply starts_with_eq in Hs.
  remember (skipn (strlen n) found) as r eqn:Hr. clear Hr.
  specialize (Hmin a (n ++ b) eq_refl (starts_with_app n b)).
  rewrite Hs in E1.
  destruct (Ascii.eqb (deref r) nul || strchr d (deref r)) eqn:T;
    [reflexivity|].
  apply app_eq_app in E1. destruct E1 as [x [[E2 E3]|[E2 E3]]].
  - (* a = a1 ++ x *)
    destruct x as [|z x].
    + rewrite app_nil_r in E2. cbn in E3. apply app_inv_head in E3.
      subst r. exfalso. destruct Hb as [->|[c [b' [-> Hc]]]].
      * cbn in T. discriminate.
      * cbn [deref] in T. rewrite strchr_delim, Hc, !orb_true_r in T.
        discriminate.
    + destruct Ha as [->|[a0 [c [Ea Hc]]]];
        [now destruct a1|].
      assert (X : exists x0, z :: x = x0 ++ [c]).
      { rewrite Ea in E2. clear -E2.
        apply app_eq_app in E2. destruct E2 as [l [[_ E]|[_ E]]].
        - now exists l.
        - destruct l as [|y l].
          + cbn in E. injection E as -> <-. now exists [].
          + cbn in E. injection E as _ E.
            apply app_cons_not_nil in E. destruct E. }
      destruct X as [x0 X]. rewrite X in E3.
      rewrite <- app_assoc in E3. cbn [app] in E3.
      destruct (needle_before_delimiter d n c Hn Hc x0 r (n ++ b) E3)
        as [y [-> Er]].
      replace r with ((y ++ [c]) ++ n ++ b) in *
        by (rewrite Er; now rewrite <- app_assoc).
      apply IH.
      * right. now exists y, c.
      * rewrite E2, X in Hf. unfold strlen in *.
        repeat (rewrite ?length_app in *; cbn [List.length] in * ).
        destruct n; [congruence|]. cbn [List.length] in *. lia.
  - (* a1 = a ++ x, so x is empty by minimality *)
    destruct x as [|z x].
    + cbn in E3. rewrite app_nil_r in E2. subst a1.
      apply app_inv_head in E3. subst r. exfalso.
      destruct Hb as [->|[c [b' [-> Hc]]]].
      * cbn in T. discriminate.
      * cbn [deref] in T. rewrite strchr_delim, Hc, !orb_true_r in T.
        discriminate.
    + rewrite E2, length_app in Hmin. cbn in Hmin. lia.
Qed.

Lemma skip_head (f : ascii -> bool) (p r : cstring) (c : ascii) :
  skip f p = c :: r -> f c = false.
Proof.
  induction p as [|x p IH]; cbn [skip]; [discriminate|].
  destruct (f x) eqn:E; [exact IH|]. now intros [= <- _].
Qed.

(** A token stands between delimiters or the ends of the list. *)
Lemma tokens_delimited (d t : cstring) :
  forall (k : nat) (s : cstring),
    (strlen s <= k)%nat ->
    In t (tokens d s) ->
    exists a b : cstring,
      s = a ++ t ++ b
      /\ delimited_left d a
      /\ (b = [] \/ exists (c : ascii) (b' : cstring),
                      b = c :: b' /\ is_delim d c = true).
Proof.
  induction k as [|k IH]; intros s Hk.
  - destruct s; [|unfold strlen in Hk; cbn in Hk; lia].
    unfold tokens. cbn. intros [].
  - unfold tokens. rewrite pieces_unfold. cbn [filter].
    pose proof (take_skip (not_delim d) s) as TS.
    pose proof (skip_length (not_delim d) s) as SL.
    assert (Hrest :
              In t match skip (not_delim d) s with
                   | [] => []
                   | _ :: r => tokens d r
                   end ->
              exists a b : cstring,
                s = a ++ t ++ b /\ delimited_left d a
                /\ (b = [] \/ exists (c : ascii) (b' : cstring),
                                b = c :: b' /\ is_delim d c = true)).
    { destruct (skip (not_delim d) s) as [|c r] eqn:E; [intros []|].
      assert (Hc : is_delim d c = true).
      { apply skip_head in E. unfold not_delim in E.
        now apply negb_false_iff in E. }
      intros H. destruct (IH r) as [a [b [Er [Ha Hb]]]];
        [unfold strlen in *; cbn [List.length] in *; lia|exact H|].
      exists (take (not_delim d) s ++ c :: a), b. split; [|split].
      - rewrite <- TS at 1. rewrite Er. now rewrite <- app_assoc.
      - right. destruct Ha as [->|[a0 [c' [-> Hc']]]].
        + now exists (take (not_delim d) s), c.
        + exists (take (not_delim d) s ++ c :: a0), c'.
          split; [now rewrite <- app_assoc|exact Hc'].
      - exact Hb. }
    destruct (nonempty (take (not_delim d) s)) eqn:NE.
    + intros [<-|H]; [|fold (tokens d) in H; revert H].
      * exists [], (skip (not_delim d) s). split; [now rewrite TS|].
        split; [now left|].
        destruct (skip (not_delim d) s) as [|c r] eqn:E; [now left|].
        right. exists c, r. split; [reflexivity|].
        apply skip_head in E. unfold not_delim in E.
        now apply negb_false_iff in E.
      * destruct (skip (not_delim d) s) as [|c r] eqn:E; [intros []|].
        intros H. apply Hrest. exact H.
    + destruct (skip (not_delim d) s) as [|c r] eqn:E; [intros []|].
      intros H. apply Hrest. exact H.
Qed.

(** A whole token of the haystack is always reported. *)
Lemma contains_str_whole_token (h t : cstring) (delimiter : option cstring) :
  In t (tokens (effective_delimiter delimiter) h) ->
  contains_str (Some h) t delimiter = true.
Proof.
  intros H. set (d := effective_delimiter delimiter) in *.
  destruct (tokens_spec _ _ _ H) as [Hne Hn].
  destruct (tokens_delimited d t (strlen h) h (le_n _) H)
    as [a [b [E [Ha Hb]]]].
  unfold contains_str. destruct h as [|c h].
  { symmetry in E. apply app_eq_nil in E. destruct E as [_ E].
    apply app_eq_nil in E. destruct E. congruence. }
  fold (effective_delimiter delimiter). fold d. rewrite E.
  apply contains_str_loop_whole_token; try assumption.
  unfold strlen. lia.
Qed.

(** A positive answer means the needle occurs followed by a delimiter or by
    the end of the string; nothing is asked of the character before it. *)
Lemma contains_str_sound (h n : cstring) (delimiter : option cstring) :
  contains_str (Some h) n delimiter = true ->
  exists a b : cstring,
    h = a ++ n ++ b /\ delimited_right (effective_delimiter delimiter) b.
Proof.
  unfold contains_str. destruct h as [|c h]; [discriminate|].
  fold (effective_delimiter delimiter). apply contains_str_loop_sound.
Qed.

Lemma parse_flags_loop_low_bits (text : cstring) (names : list cstring) :
  forall (k acc j : Z),
    (0 <= j < k)%Z ->
    Z.testbit (parse_flags_loop names (2 ^ k) acc text) j = Z.testbit acc j.
Proof.
  induction names as [|name names IH]; intros k acc j Hj; [reflexivity|].
  cbn [parse_flags_loop]. rewrite Z.shiftl_mul_pow2 by lia.
  replace (2 ^ k * 2 ^ 1)%Z with (2 ^ (k + 1))%Z
    by (rewrite Z.pow_add_r by lia; reflexivity).
  rewrite IH by lia.
  destruct (contains_str (Some text) name None); [|reflexivity].
  rewrite Z.lor_spec, Z.pow2_bits_eqb by lia.
  replace (k =? j)%Z with false by (symmetry; apply Z.eqb_neq; lia).
  apply orb_false_r.
Qed.

(** Bit [k + i] of the bitmap is the answer of __contains_str for the
    [i]-th name still to test. *)
Lemma parse_flags_loop_bit (text : cstring) (names : list cstring) :
  forall (k acc : Z) (i : nat) (name : cstring),
    (0 <= k)%Z ->
    (forall j, (k <= j)%Z -> Z.testbit acc j = false) ->
    nth_error names i = Some name ->
    Z.testbit (parse_flags_loop names (2 ^ k) acc text) (k + Z.of_nat i)
    = contains_str (Some text) name None.
Proof.
  induction names as [|n names IH]; intros k acc i name Hk Hacc Hi.
  - destruct i; discriminate.
  - cbn [parse_flags_loop]. rewrite Z.shiftl_mul_pow2 by lia.
    replace (2 ^ k * 2 ^ 1)%Z with (2 ^ (k + 1))%Z
      by (rewrite Z.pow_add_r by lia; reflexivity).
    destruct i as [|i].
    + cbn in Hi. injection Hi as ->. rewrite Z.add_0_r.
      rewrite parse_flags_loop_low_bits by lia.
      destruct (contains_str (Some text) name None).
      * rewrite Z.lor_spec, Z.pow2_bits_eqb, Z.eqb_refl by lia.
        apply orb_true_r.
      * apply Hacc. lia.
    + cbn in Hi.
      replace (k + Z.of_nat (S i))%Z with (k + 1 + Z.of_nat i)%Z by lia.
      apply IH; [lia| |exact Hi].
      intros j Hj. destruct (contains_str (Some text) n None).
      * rewrite Z.lor_spec, Z.pow2_bits_eqb, Hacc by lia.
        cbn [orb]. apply Z.eqb_neq. lia.
      * apply Hacc. lia.
Qed.

(** The bit of a flag is set exactly when __contains_str finds its name. *)
Lemma parse_flags_bit (cif : cpuinfo_features) (text : cstring) (i : nat)
    (name : cstring) :
  nth_error cpuinfo_flags_strings i = Some name ->
  Z.testbit (flags (snd (cpuinfo_parse_flags cif text))) (Z.of_nat i)
  = contains_str (Some text) name None.
Proof.
  intros Hi. unfold cpuinfo_parse_flags. cbn [snd set_flags flags].
  change 1%Z with (2 ^ 0)%Z.
  rewrite <- (parse_flags_loop_bit text cpuinfo_flags_strings 0 0 i name);
    [reflexivity|lia| |exact Hi].
  intros j _. apply Z.bits_0.
Qed.

(** A flag that stands as a whole token always has its bit set; and a bit
    is set only when the name occurs followed by a space, a tab or the end
    of the text. *)
Lemma parse_flags_whole_token (cif : cpuinfo_features) (text : cstring)
    (i : nat) (name : cstring) :
  nth_error cpuinfo_flags_strings i = Some name ->
  In name (tokens [space; tab] text) ->
  Z.testbit (flags (snd (cpuinfo_parse_flags cif text))) (Z.of_nat i) = true.
Proof.
  intros Hi Hin. rewrite (parse_flags_bit cif text i name Hi).
  now apply contains_str_whole_token.
Qed.

Lemma parse_flags_bit_occurrence (cif : cpuinfo_features) (text : cstring)
    (i : nat) (name : cstring) :
  nth_error cpuinfo_flags_strings i = Some name ->
  Z.testbit (flags (snd (cpuinfo_parse_flags cif text))) (Z.of_nat i) = true ->
  exists a b : cstring,
    text = a ++ name ++ b /\ delimited_right [space; tab] b.
Proof.
  intros Hi Hb. rewrite (parse_flags_bit cif text i name Hi) in Hb.
  now apply contains_str_sound in Hb.
Qed.

(** C4 at the flags text "fpu vme misalignsse 3dnowprefetch".  No token of
    the text is "sse", yet the sse bit (bit 0) is set: __contains_str
    accepts the occurrence at the end of "misalignsse", since it looks only
    at the character after a match. *)
Theorem parse_flags_matches_token_suffix :
  forall cif : cpuinfo_features,
    flags (snd (cpuinfo_parse_flags cif
                  (lit "fpu vme misalignsse 3dnowprefetch"))) = 1%Z
    /\ ~ In (lit "sse")
           (tokens [space; tab] (lit "fpu vme misalignsse 3dnowprefetch")).
Proof.
  intros cif. split; [reflexivity|].
  cbv. intros H. repeat (destruct H as [H|H]; [discriminate H|]). exact H.
Qed.

(** The two examples of the flags specification hold. *)
Lemma parse_flags_examples (cif : cpuinfo_features) :
  flags (snd (cpuinfo_parse_flags cif
                (lit "sse sse2 ssse3 sse4_1 sse4_2 avx avx2"))) = 127%Z
  /\ flags (snd (cpuinfo_parse_flags cif (lit "sse4_2xyz"))) = 0%Z.
Proof. split; reflexivity. Qed.

(** ** cpuinfo_parse_model_name *)

Lemma skip_to_alnum_found (s s1 : cstring) :
  skip_to_alnum s = Some s1 ->
  s1 <> [] /\ (strlen s1 <= strlen s)%nat.
Proof.
  unfold strlen. revert s1.
  induction s as [|c s IH]; intros s1; cbn [skip_to_alnum]; [discriminate|].
  destruct (isalnum c).
  - intros [= <-]. split; [discriminate|lia].
  - intros H. destruct (IH _ H). split; [assumption|].
    cbn [List.length]. lia.
Qed.

(** The generic scan never runs out of the fuel it is given. *)
Lemma model_scan_total (cif : cpuinfo_features) :
  forall (fuel : nat) (s : cstring),
    (strlen s < fuel)%nat -> model_scan fuel cif s <> None.
Proof.
  induction fuel as [|fuel IH]; intros s Hf; [lia|]. cbn [model_scan].
  destruct s as [|c s]; [discriminate|].
  destruct (skip_to_alnum (c :: s)) as [s1|] eqn:E; [|discriminate].
  destruct (match_model s1); [discriminate|].
  destruct (skip_to_alnum_found _ _ E) as [Hne Hl]. apply IH.
  destruct s1 as [|x s1]; [congruence|].
  unfold strlen in *. cbn [tl List.length] in *. lia.
Qed.

(** A failed scan leaves the record as it was. *)
Lemma model_scan_false (cif cif' : cpuinfo_features) :
  forall (fuel : nat) (s : cstring),
    model_scan fuel cif s = Some (Returns false cif') -> cif' = cif.
Proof.
  induction fuel as [|fuel IH]; intros s; cbn [model_scan]; [discriminate|].
  destruct s as [|c s]; [now intros [= <-]|].
  destruct (skip_to_alnum (c :: s)) as [s1|]; [|discriminate].
  destruct (match_model s1); [discriminate|]. apply IH.
Qed.

Lemma cpuinfo_parse_model_name_false (cif cif' : cpuinfo_features)
    (text : cstring) :
  cpuinfo_parse_model_name cif text = Returns false cif' -> cif' = cif.
Proof.
  unfold cpuinfo_parse_model_name.
  assert (G : match model_scan (S (strlen text)) cif text with
              | Some o => o
              | None => Returns false cif
              end = Returns false cif' -> cif' = cif).
  { destruct (model_scan (S (strlen text)) cif text) as [o|] eqn:E.
    - intros ->. now apply model_scan_false in E.
    - now intros [= <-]. }
  destruct (find_leadin text) as [prefix|]; [|exact G].
  destruct (isalnum (deref (skipn 5 prefix))); [|exact G].
  destruct (match_model (skipn 5 prefix)); [discriminate|exact G].
Qed.

(** The two examples of the model-name specification hold. *)
Lemma parse_model_name_examples (cif : cpuinfo_features) :
  cpuinfo_parse_model_name cif
    (lit "Intel(R) Xeon(R) CPU E5-2695 v4 @ 2.10GHz")
  = Returns true (set_string_field ModelNameField cif (Some (lit "E5-2695_v4")))
  /\ cpuinfo_parse_model_name cif (lit "AMD EPYC 7502 32-Core Processor")
     = Returns true
         (set_string_field ModelNameField cif (Some (lit "EPYC_7502"))).
Proof. split; reflexivity. Qed.

(** C6 at the model name "QEMU Virtual CPU version 2.5+".  Nothing in the
    text matches, and the text ends in a character that is not
    alphanumeric: the inner loop of the generic scan steps over the
    terminating NUL instead of the call returning false. *)
Theorem parse_model_name_overruns :
  forall cif : cpuinfo_features,
    cpuinfo_parse_model_name cif (lit "QEMU Virtual CPU version 2.5+")
    = ReadsPastEnd.
Proof. intros cif. reflexivity. Qed.

(** ** The line reader *)

Section ReaderFacts.

Variable alloc_ok : nat -> bool.
Hypothesis heap : always alloc_ok.

Lemma grow_granted (this : line_reader) :
  exists cap : nat,
    grow alloc_ok this = Some (with_line this (line_buffer this) cap)
    /\ ((used this <= capacity this)%nat -> (used this < cap)%nat).
Proof.
  unfold grow. destruct (Nat.eqb_spec (used this) (capacity this)) as [E|E].
  - rewrite heap. eexists. split; [reflexivity|]. intros _.
    destruct (Nat.eqb_spec (capacity this) 0); lia.
  - exists (capacity this). split; [now destruct this|lia].
Qed.

(** The inner loop moves a segment [seg] of the chunk buffer to the line
    buffer; when it reports [is_done] the segment ends in a terminator, and
    otherwise the chunk buffer is used up. *)
Lemma copy_chunk_spec :
  forall (buf : list ascii) (this : line_reader),
  exists (this' : line_reader) (done : bool) (seg : list ascii),
    copy_chunk alloc_ok buf this = Copied this' done
    /\ stream this' = stream this
    /\ err_code this' = err_code this
    /\ chunk_size this' = chunk_size this
    /\ line_buffer this' = line_buffer this ++ seg
    /\ seg ++ buffer this' = buf
    /\ ((used this <= capacity this)%nat ->
        (used this' <= capacity this')%nat)
    /\ (done = true -> seg <> [] /\ is_terminator (last seg nul) = true)
    /\ (done = false -> buffer this' = []).
Proof.
  induction buf as [|c buf IH]; intros this.
  - exists (with_buffer this []), false, []. cbn.
    rewrite app_nil_r. repeat apply conj; try reflexivity; try discriminate.
    now destruct this.
  - cbn [copy_chunk]. destruct (grow_granted this) as [cap [-> Hcap]].
    set (this2 := with_buffer _ buf).
    assert (Hused : (used this <= capacity this)%nat ->
                    (used this2 <= capacity this2)%nat).
    { intros H. specialize (Hcap H). unfold used in *. subst this2.
      cbn. rewrite length_app. cbn. lia. }
    destruct (is_terminator c) eqn:T.
    + exists this2, true, [c]. subst this2. cbn in *.
      repeat apply conj; try reflexivity; try assumption; try discriminate.
      intros _. split; [discriminate|exact T].
    + destruct (IH this2) as [this' [done [seg H]]].
      destruct H as (E & H1 & H2 & H3 & H4 & H5 & H6 & H7 & H8).
      exists this', done, (c :: seg). rewrite E. subst this2. cbn in *.
      repeat apply conj; try assumption; try reflexivity.
      * rewrite H4. now rewrite <- app_assoc.
      * now rewrite H5.
      * intros H. apply H6. now apply Hused.
      * intros ->. destruct (H7 eq_refl) as [Hne Hl].
        split; [discriminate|]. destruct seg; [congruence|exact Hl].
Qed.

Lemma firstn_nil_positive {A : Type} (n : nat) (l : list A) :
  (0 < n)%nat -> firstn n l = [] -> l = [].
Proof.
  destruct n; [lia|]. destruct l; [reflexivity|discriminate].
Qed.

Lemma last_app_nonempty {A : Type} (l1 l2 : list A) (d : A) :
  l2 <> [] -> last (l1 ++ l2) d = last l2 d.
Proof.
  intros H. induction l1 as [|x l1 IH]; [reflexivity|].
  cbn [app last]. destruct (l1 ++ l2) eqn:E; [|exact IH].
  apply app_eq_nil in E. destruct E. congruence.
Qed.

(** The outer loop: with fuel beyond the unread bytes it returns; a line is
    returned with the consumed segment [seg], which ends in a terminator,
    followed by NUL; NULL is returned only when every byte ahead has been
    consumed, with the error code that tells a read error from the end of
    the stream. *)
Lemma nextline_loop_spec :
  forall (fuel : nat) (this : line_reader),
    (List.length (unread (stream this)) < fuel)%nat ->
    (0 < chunk_size this)%nat ->
    exists (got : bool) (this' : line_reader) (seg : list ascii),
      nextline_loop alloc_ok fuel this = Some (got, this')
      /\ read_error (stream this') = read_error (stream this)
      /\ chunk_size this' = chunk_size this
      /\ ((used this <= capacity this)%nat ->
          (used this' <= capacity this')%nat)
      /\ (got = true ->
          seg ++ bytes_ahead this' = bytes_ahead this
          /\ line_buffer this' = line_buffer this ++ seg ++ [nul]
          /\ seg <> [] /\ is_terminator (last seg nul) = true
          /\ err_code this' = err_code this)
      /\ (got = false ->
          seg = bytes_ahead this
          /\ unread (stream this') = []
          /\ line_buffer this' = line_buffer this ++ seg
          /\ err_code this'
             = (if read_error (stream this) then -1 else 0)%Z).
Proof.
  induction fuel as [|fuel IH]; intros this Hf Hc; [lia|].
  cbn [nextline_loop].
  destruct (copy_chunk_spec (buffer this) this) as [this1 [done [seg1 H]]].
  destruct H as (E & H1 & H2 & H3 & H4 & H5 & H6 & H7 & H8). rewrite E.
  destruct (buffer this1) as [|x xs] eqn:B.
  - rewrite app_nil_r in H5. unfold fread. rewrite H1, H3.
    destruct (firstn (chunk_size this) (unread (stream this)))
      as [|b bs] eqn:F.
    + apply firstn_nil_positive in F; [|assumption].
      eexists false, _, seg1. split; [reflexivity|].
      unfold bytes_ahead. cbn. rewrite F, H5.
      rewrite skipn_nil, !app_nil_r.
      repeat apply conj; try reflexivity; try discriminate; try assumption.
      intros _. repeat apply conj; try reflexivity. now rewrite <- H5.
    + set (this2 := with_stream this1 _ (b :: bs)).
      assert (Hlen : (List.length (unread (stream this2)) < fuel)%nat).
      { subst this2. cbn. rewrite length_skipn.
        assert (List.length (firstn (chunk_size this)
                               (unread (stream this))) <> 0)%nat
          by (rewrite F; discriminate).
        rewrite length_firstn in H. lia. }
      destruct (IH this2 Hlen) as [got [this' [seg2 G]]].
      { subst this2. cbn. lia. }
      destruct G as (G0 & G2 & G3 & G4 & G5 & G6).
      exists got, this', (seg1 ++ seg2). split; [exact G0|].
      assert (A2 : bytes_ahead this2 = unread (stream this)).
      { unfold bytes_ahead. subst this2.
        cbn [with_stream buffer stream unread]. rewrite <- F.
        apply firstn_skipn. }
      repeat apply conj.
      * rewrite G2. subst this2. reflexivity.
      * rewrite G3. subst this2. cbn. exact H3.
      * intros H. apply G4. subst this2. cbn. apply H6 in H. exact H.
      * intros H. destruct (G5 H) as (G1 & L & Hne & Hl & He).
        repeat apply conj.
        -- rewrite <- app_assoc, G1, A2. unfold bytes_ahead.
           now rewrite H5.
        -- rewrite L. subst this2. cbn. rewrite H4.
           now rewrite <- !app_assoc.
        -- intros N. apply app_eq_nil in N. destruct N. congruence.
        -- now rewrite last_app_nonempty.
        -- rewrite He. subst this2. cbn. exact H2.
      * intros H. destruct (G6 H) as (A & U & Lb & He).
        repeat apply conj.
        -- rewrite A, A2. unfold bytes_ahead. now rewrite H5.
        -- exact U.
        -- rewrite Lb. subst this2. cbn. rewrite H4.
           now rewrite <- app_assoc.
        -- rewrite He. subst this2. reflexivity.
  - destruct done; [|now specialize (H8 eq_refl)].
    destruct (grow_granted this1) as [cap [-> Hcap]].
    destruct (H7 eq_refl) as [Hne Hl].
    eexists true, _, seg1. split; [reflexivity|].
    unfold bytes_ahead. cbn. rewrite H1, B.
    repeat apply conj; try discriminate; try assumption.
    + reflexivity.
    + intros H. apply H6 in H. specialize (Hcap H). unfold used in *.
      rewrite length_app. cbn. lia.
    + intros _. repeat apply conj; try assumption.
      * rewrite <- H5. now rewrite <- app_assoc.
      * rewrite H4. now rewrite <- app_assoc.
Qed.

(** line_reader_nextline is total, and what it returns. *)
Lemma line_reader_nextline_spec (this : line_reader) :
  (0 < chunk_size this)%nat ->
  exists (got : bool) (this' : line_reader) (seg : list ascii),
    line_reader_nextline alloc_ok this = (got, this')
    /\ read_error (stream this') = read_error (stream this)
    /\ chunk_size this' = chunk_size this
    /\ (got = true ->
        seg ++ bytes_ahead this' = bytes_ahead this
        /\ line_buffer this' = seg ++ [nul]
        /\ seg <> [] /\ is_terminator (last seg nul) = true
        /\ err_code this' = err_code this
        /\ (0 < capacity this')%nat)
    /\ (got = false ->
        seg = bytes_ahead this
        /\ unread (stream this') = []
        /\ line_buffer this' = seg
        /\ err_code this' = (if read_error (stream this) then -1 else 0)%Z).
Proof.
  intros Hc. unfold line_reader_nextline.
  set (this0 := with_line this [] (capacity this)).
  destruct (nextline_loop_spec (S (List.length (unread (stream this0)))) this0)
    as [got [this' [seg G]]]; [lia|exact Hc|].
  destruct G as (G0 & G2 & G3 & G4 & G5 & G6). rewrite G0.
  exists got, this', seg.
  repeat apply conj; try assumption; try reflexivity.
  intros H. destruct (G5 H) as (G1 & L & Hne & Hl & He).
  repeat apply conj; try assumption.
  assert (U : (used this' <= capacity this')%nat)
    by (apply G4; unfold used; cbn; lia).
  unfold used in U. rewrite L in U. cbn in U.
  rewrite !length_app in U. cbn in U. lia.
Qed.

(** Reading all lines: the segments returned, laid end to end, are an
    initial part of the bytes ahead, each ends in a terminator, and the
    final NULL carries the stream's end status. *)
Lemma read_lines_spec :
  forall (fuel : nat) (this : line_reader),
    (List.length (bytes_ahead this) < fuel)%nat ->
    (0 < chunk_size this)%nat ->
    exists (lines : list (list ascii)) (final : line_reader),
      read_lines alloc_ok fuel this = Some (lines, final)
      /\ List.concat (map (@removelast ascii) lines) ++ line_buffer final
         = bytes_ahead this
      /\ Forall ends_in_terminator lines
      /\ err_code final = (if read_error (stream this) then -1 else 0)%Z.
Proof.
  induction fuel as [|fuel IH]; intros this Hf Hc; [lia|].
  cbn [read_lines].
  destruct (line_reader_nextline_spec this Hc) as [got [this1 [seg G]]].
  destruct G as (G0 & G2 & G3 & G5 & G6). rewrite G0.
  destruct got.
  - destruct (G5 eq_refl) as (G1 & L & Hne & Hl & He & Hcap).
    assert (Hlen : (List.length (bytes_ahead this1) < fuel)%nat).
    { rewrite <- G1 in Hf. rewrite length_app in Hf.
      destruct seg; [congruence|cbn in Hf; lia]. }
    destruct (IH this1 Hlen) as [lines [final R]]; [lia|].
    destruct R as (R0 & R1 & R2 & R3). rewrite R0.
    exists (line_buffer this1 :: lines), final.
    split; [reflexivity|]. cbn [map List.concat].
    rewrite L, removelast_last. repeat apply conj.
    + now rewrite <- app_assoc, R1.
    + constructor; [|exact R2]. unfold ends_in_terminator.
      now rewrite removelast_last.
    + now rewrite R3, G2.
  - destruct (G6 eq_refl) as (A & U & Lb & He).
    exists [], this1. split; [reflexivity|].
    repeat apply conj; [|constructor|exact He].
    cbn [map List.concat app]. now rewrite Lb, A.
Qed.

Lemma nextline_after_trim (this : line_reader) :
  line_reader_nextline alloc_ok (line_reader_trim this)
  = line_reader_nextline alloc_ok this.
Proof.
  unfold line_reader_trim.
  destruct ((capacity this =? 0)%nat || (used this =? 0)%nat);
    reflexivity.
Qed.

Lemma read_lines_after_trim (fuel : nat) (this : line_reader) :
  read_lines alloc_ok fuel (line_reader_trim this)
  = read_lines alloc_ok fuel this.
Proof.
  destruct fuel; [reflexivity|]. cbn [read_lines].
  now rewrite nextline_after_trim.
Qed.

(** cpuinfo_parse_file sees the stream only through the lines returned by
    line_reader_nextline. *)
Lemma parse_file_loop_yielded :
  forall (fuel : nat) (this : line_reader) (cif : cpuinfo_features)
         (lines : list (list ascii)) (final : line_reader),
    (0 < chunk_size this)%nat ->
    read_lines alloc_ok fuel this = Some (lines, final) ->
    parse_file_loop alloc_ok fuel cif this = Some (parse_yielded cif lines).
Proof.
  induction fuel as [|fuel IH]; intros this cif lines final Hc;
    [discriminate|].
  cbn [read_lines parse_file_loop].
  destruct (line_reader_nextline_spec this Hc) as [got [this1 [seg G]]].
  destruct G as (G0 & G2 & G3 & G5 & G6). rewrite G0.
  destruct got; [|now intros [= <- _]].
  destruct (G5 eq_refl) as (G1 & L & Hne & Hl & He & Hcap).
  destruct (read_lines alloc_ok fuel this1) as [[ls fin]|] eqn:R;
    [|discriminate].
  intros [= <- _]. cbn [parse_yielded].
  assert (T : line_buffer (line_reader_trim this1)
              = skip isspace
                  (let body := removelast (line_buffer this1) in
                   let kept := rstrip body in
                   if (List.length kept <? List.length body)%nat
                   then kept ++ [nul] else line_buffer this1)).
  { unfold line_reader_trim.
    destruct (Nat.eqb_spec (capacity this1) 0) as [E|_]; [lia|].
    destruct (Nat.eqb_spec (used this1) 0) as [E|_]; [|reflexivity].
    unfold used in E. rewrite L, length_app in E. cbn in E. lia. }
  rewrite T.
  destruct (Ascii.eqb _ nul); [reflexivity|].
  destruct (cpuinfo_parse_line cif _) as [ok cif'| |]; try reflexivity.
  apply (IH _ _ _ fin).
  - unfold line_reader_trim.
    destruct (_ || _); cbn; lia.
  - now rewrite read_lines_after_trim.
Qed.

End ReaderFacts.

Lemma concat_ends_in_terminator (segs : list (list ascii)) :
  Forall (fun seg => seg <> [] /\ is_terminator (last seg nul) = true) segs ->
  segs <> [] ->
  List.concat segs <> []
  /\ is_terminator (last (List.concat segs) nul) = true.
Proof.
  induction 1 as [|seg segs [Hne Hl] _ IH]; [congruence|]. intros _.
  cbn [List.concat]. destruct segs as [|seg' segs].
  - cbn [List.concat]. rewrite app_nil_r. now split.
  - destruct IH as [IH1 IH2]; [discriminate|]. split.
    + intros N. apply app_eq_nil in N. destruct N. congruence.
    + now rewrite last_app_nonempty.
Qed.

Lemma forallb_last (f : ascii -> bool) (l : list ascii) (d : ascii) :
  forallb f l = true -> l <> [] -> f (last l d) = true.
Proof.
  induction l as [|x l IH]; [congruence|]. cbn [forallb]. intros H _.
  apply andb_prop in H. destruct H as [Hx Hl].
  destruct l as [|y l]; [exact Hx|]. apply IH; [exact Hl|discriminate].
Qed.

(** Lines that end in terminators and lie at the head of [pre ++ tail]
    stop within [pre] when [tail] holds no terminator. *)
Lemma lines_stop_before_tail (lines : list (list ascii))
    (left pre tail : list ascii) :
  Forall ends_in_terminator lines ->
  no_terminator tail = true ->
  List.concat (map (@removelast ascii) lines) ++ left = pre ++ tail ->
  exists rest : list ascii,
    pre = List.concat (map (@removelast ascii) lines) ++ rest
    /\ left = rest ++ tail.
Proof.
  intros Hends Htail E.
  apply app_eq_app in E. destruct E as [l [[E1 E2]|[E1 E2]]].
  - destruct l as [|x l].
    + exists []. rewrite app_nil_r in *. cbn in E2. now subst.
    + exfalso.
      assert (Hl : is_terminator (last (x :: l) nul) = true).
      { destruct lines as [|ln lines]; [now destruct pre|].
        destruct (concat_ends_in_terminator
                    (map (@removelast ascii) (ln :: lines))) as [_ Ht].
        - apply Forall_map. exact Hends.
        - discriminate.
        - rewrite E1, last_app_nonempty in Ht by discriminate. exact Ht. }
      rewrite E2 in Htail. unfold no_terminator in Htail.
      rewrite forallb_app in Htail. apply andb_prop in Htail.
      destruct Htail as [Htail _].
      apply (forallb_last _ _ nul) in Htail; [|discriminate].
      cbn beta in Htail. rewrite Hl in Htail. discriminate.
  - exists l. now split.
Qed.

(** C10.  When the stream ends in bytes [tail] that hold no newline and no
    NUL (an unterminated final line), reading with any chunk size ends with
    line_reader_nextline returning NULL with error code 0 while those bytes
    sit unreturned in the line buffer; the lines returned before lie within
    the bytes [pre] in front of [tail]; and cpuinfo_parse_file parses
    returned lines only, so it never parses [tail]. *)
Theorem unterminated_final_line_dropped :
  forall (alloc_ok : nat -> bool) (pre tail : list ascii)
         (cif : cpuinfo_features),
    always alloc_ok ->
    tail <> [] ->
    no_terminator tail = true ->
    let f := {| unread := pre ++ tail; read_error := false |} in
    (forall size : nat,
        exists (this : line_reader) (lines : list (list ascii))
               (final : line_reader) (rest : list ascii),
          line_reader_create alloc_ok (Some f) size = Some this
          /\ read_lines alloc_ok (S (List.length (bytes_ahead this))) this
             = Some (lines, final)
          /\ err_code final = 0%Z
          /\ pre = List.concat (map (@removelast ascii) lines) ++ rest
          /\ line_buffer final = rest ++ tail)
    /\ (exists lines : list (list ascii),
           yields_within pre lines
           /\ cpuinfo_parse_file alloc_ok cif (Some f)
              = parse_yielded cif lines).
Proof.
  intros alloc_ok pre tail cif heap _ Htail f.
  assert (R : forall size : nat,
             exists (this : line_reader) (lines : list (list ascii))
                    (final : line_reader) (rest : list ascii),
               line_reader_create alloc_ok (Some f) size = Some this
               /\ (0 < chunk_size this)%nat
               /\ bytes_ahead this = pre ++ tail
               /\ read_lines alloc_ok (S (List.length (bytes_ahead this))) this
                  = Some (lines, final)
               /\ err_code final = 0%Z
               /\ pre = List.concat (map (@removelast ascii) lines) ++ rest
               /\ line_buffer final = rest ++ tail).
  { intros size. unfold line_reader_create. rewrite heap.
    set (this := {| stream := f |}).
    assert (Hc : (0 < chunk_size this)%nat).
    { subst this. cbn [chunk_size].
      destruct (Nat.ltb_spec size 128); lia. }
    destruct (read_lines_spec alloc_ok heap
                (S (List.length (bytes_ahead this))) this)
      as [lines [final (R0 & R1 & R2 & R3)]]; [lia|exact Hc|].
    destruct (lines_stop_before_tail lines (line_buffer final) pre tail
                R2 Htail R1) as [rest [P1 P2]].
    exists this, lines, final, rest.
    repeat apply conj; try assumption; reflexivity. }
  split.
  - intros size.
    destruct (R size) as (this & lines & final & rest & H).
    exists this, lines, final, rest. tauto.
  - destruct (R 0%nat) as (this & lines & final & rest & H).
    destruct H as (H0 & Hc & Hb & H1 & _ & H3 & _).
    exists lines. split; [now exists rest|].
    unfold cpuinfo_parse_file. rewrite H0.
    assert (Hs : unread (stream this) = bytes_ahead this).
    { unfold line_reader_create in H0. rewrite heap in H0.
      injection H0 as <-. reflexivity. }
    rewrite Hs.
    now rewrite (parse_file_loop_yielded alloc_ok heap _ _ cif _ _ Hc H1).
Qed.

Lemma unterminated_final_line_dropped_witness :
  exists lines : list (list ascii),
    yields_within (lit "vendor_id : GenuineIntel" ++ [newline]) lines
    /\ cpuinfo_parse_file (fun _ => true) cpuinfo_features_init
         (Some {| unread := (lit "vendor_id : GenuineIntel" ++ [newline])
                            ++ lit "flags : sse";
                  read_error := false |})
       = parse_yielded cpuinfo_features_init lines.
Proof.
  refine (proj2 (unterminated_final_line_dropped (fun _ => true)
                   (lit "vendor_id : GenuineIntel" ++ [newline])
                   (lit "flags : sse") cpuinfo_features_init _ _ _)).
  - intros n. reflexivity.
  - discriminate.
  - reflexivity.
Defined.

(** ** cpuinfo_parse_file and failures *)

(** Once the file is open, no line and no read failure makes
    cpuinfo_parse_file return false. *)
Lemma parse_file_loop_true (alloc_ok : nat -> bool) :
  forall (fuel : nat) (cif cif' : cpuinfo_features) (this : line_reader)
         (ok : bool),
    parse_file_loop alloc_ok fuel cif this = Some (Returns ok cif') ->
    ok = true.
Proof.
  induction fuel as [|fuel IH]; intros cif cif' this ok; [discriminate|].
  cbn [parse_file_loop].
  destruct (line_reader_nextline alloc_ok this) as [got this1].
  destruct got; [|now intros [= <- _]].
  destruct (Ascii.eqb _ nul); [now intros [= <- _]|].
  destruct (cpuinfo_parse_line cif _) as [ok1 cif1| |];
    [apply IH|discriminate|discriminate].
Qed.

Lemma parse_file_true_once_open (alloc_ok : nat -> bool)
    (cif cif' : cpuinfo_features) (f : FILE) (ok : bool) :
  line_reader_create alloc_ok (Some f) 0 <> None ->
  cpuinfo_parse_file alloc_ok cif (Some f) = Returns ok cif' ->
  ok = true.
Proof.
  unfold cpuinfo_parse_file.
  destruct (line_reader_create alloc_ok (Some f) 0) as [this|];
    [intros _|congruence].
  destruct (parse_file_loop alloc_ok _ cif this) as [o|] eqn:E.
  - intros ->. now apply parse_file_loop_true in E.
  - now intros [= <- _].
Qed.

(** C8 on a stream that opens, delivers one full line and the start of a
    second, and then fails to read.  line_reader_nextline signals the read
    error (NULL with error code -1) on its second call, but
    cpuinfo_parse_file never looks at the error code and returns true, with
    the record filled from the first line only. *)
Theorem parse_file_true_on_read_error :
  let alloc_ok := fun _ : nat => true in
  let f := {| unread := lit "vendor_id : GenuineIntel" ++ [newline]
                          ++ lit "flags : sse";
              read_error := true |} in
  cpuinfo_parse_file alloc_ok cpuinfo_features_init (Some f)
  = Returns true
      (set_string_field VendorIdField cpuinfo_features_init
         (Some (lit "GenuineIntel")))
  /\ (exists (this final : line_reader) (lines : list (list ascii)),
         line_reader_create alloc_ok (Some f) 0 = Some this
         /\ read_lines alloc_ok (S (List.length (bytes_ahead this))) this
            = Some (lines, final)
         /\ err_code final = (-1)%Z).
Proof.
  split; [reflexivity|]. eexists _, _, _.
  split; [reflexivity|]. split; [vm_compute; reflexivity|reflexivity].
Qed.

(** ** Chunk size and the lines returned *)

(** C9 on the stream of 127 letters a, a newline, then "b" and "c" each
    followed by a newline.  With chunks of 128 bytes the first newline is
    the last byte of a chunk: the reader refills, clears [is_done] and
    keeps copying, so the first line returned is the first two lines of the
    stream glued together.  With chunks of 256 bytes the same stream gives
    the two lines apart.  (The final line "c" is lost with both sizes, its
    newline being the last byte read.) *)
Theorem lines_depend_on_chunk_size :
  let alloc_ok := fun _ : nat => true in
  let f := {| unread := repeat "a"%char 127 ++ [newline] ++ lit "b"
                          ++ [newline] ++ lit "c" ++ [newline];
              read_error := false |} in
  yielded_lines alloc_ok 128 f
  = Some [repeat "a"%char 127 ++ [newline] ++ lit "b" ++ [newline]]
  /\ yielded_lines alloc_ok 256 f
     = Some [repeat "a"%char 127 ++ [newline]; lit "b" ++ [newline]]
  /\ yielded_lines alloc_ok 128 f <> yielded_lines alloc_ok 256 f.
Proof.
  repeat apply conj; try (vm_compute; reflexivity).
  vm_compute. discriminate.
Qed.

(** * Further properties of the code *)

(** ** str_startswith and ownership *)

Lemma str_startswith_loop_spec (prefix : cstring) :
  forall (string : cstring) (n : nat),
    str_startswith_loop string prefix n = true
    <-> exists rest : cstring, firstn n string = prefix ++ rest.
Proof.
  induction prefix as [|p prefix IH]; intros string n.
  - split; [intros _; now exists (firstn n string)|intros _].
    destruct n, string; reflexivity.
  - destruct n as [|n]; [|destruct string as [|c string]].
    + destruct string; cbn; (split; [discriminate|]);
        intros [rest H]; discriminate H.
    + cbn. split; [discriminate|]. intros [rest H]. discriminate H.
    + cbn [str_startswith_loop firstn].
      destruct (Ascii.eqb_spec c p) as [->|N].
      * rewrite IH. split; intros [rest H]; exists rest.
        -- cbn. now rewrite H.
        -- cbn in H. now injection H.
      * split; [discriminate|]. intros [rest H]. cbn in H. congruence.
Qed.

(** X1.  str_startswith answers true exactly when [prefix] is an initial
    part of the characters it may look at: the whole string for a negative
    [string_len], the first [string_len] characters otherwise.  So an empty
    prefix always matches, and a limit shorter than the prefix never
    does. *)
Theorem str_startswith_prefix :
  forall (string prefix : cstring) (string_len : Z),
    str_startswith string prefix string_len = true
    <-> exists rest : cstring,
          firstn (looked_at (string_len <? 0)%Z string string_len) string
          = prefix ++ rest.
Proof.
  intros string prefix string_len. unfold str_startswith, looked_at.
  rewrite str_startswith_loop_spec.
  destruct (string_len <? 0)%Z; [|reflexivity].
  now rewrite Nat2Z.id.
Qed.

(** X2.  cpuinfo_features_is_str_ours answers true exactly when the
    characters it may look at start with one of "VENDOR::", "MODEL::",
    "CACHE::", "ISA::", or "PCI::" when PCI detection is compiled in.  A
    length of zero or less means the whole string, so no length argument
    makes it look at nothing. *)
Theorem is_str_ours_prefixes :
  forall (have_pci_detection : bool) (feature_str : cstring)
         (feature_str_len : Z),
    cpuinfo_features_is_str_ours have_pci_detection feature_str
      feature_str_len = true
    <-> exists prefix rest : cstring,
          In prefix (owned_prefixes have_pci_detection)
          /\ firstn (looked_at (feature_str_len <=? 0)%Z feature_str
                       feature_str_len) feature_str
             = prefix ++ rest.
Proof.
  intros pci s len. unfold cpuinfo_features_is_str_ours.
  set (n := looked_at (len <=? 0)%Z s len).
  assert (E : forall prefix : cstring,
             str_startswith s prefix
               (if (len <=? 0)%Z then Z.of_nat (strlen s) else len) = true
             <-> exists rest : cstring, firstn n s = prefix ++ rest).
  { intros prefix. unfold str_startswith. rewrite str_startswith_loop_spec.
    subst n. unfold looked_at.
    destruct (Z.leb_spec len 0) as [L|L].
    - destruct (Z.ltb_spec (Z.of_nat (strlen s)) 0); [lia|].
      now rewrite Nat2Z.id.
    - destruct (Z.ltb_spec len 0); [lia|reflexivity]. }
  assert (B : forall prefix : cstring,
             str_startswith s prefix
               (if (len <=? 0)%Z then Z.of_nat (strlen s) else len) = false ->
             forall rest : cstring, firstn n s <> prefix ++ rest).
  { intros prefix F rest H.
    assert (T : str_startswith s prefix
                  (if (len <=? 0)%Z then Z.of_nat (strlen s) else len) = true)
      by (apply E; now exists rest).
    congruence. }
  unfold owned_prefixes.
  destruct (str_startswith s (lit "VENDOR::") _) eqn:V.
  { split; [intros _|reflexivity]. apply E in V. destruct V as [rest V].
    exists (lit "VENDOR::"), rest. split; [|exact V]. cbn. tauto. }
  destruct (str_startswith s (lit "MODEL::") _) eqn:M.
  { split; [intros _|reflexivity]. apply E in M. destruct M as [rest M].
    exists (lit "MODEL::"), rest. split; [|exact M]. cbn. tauto. }
  destruct (str_startswith s (lit "CACHE::") _) eqn:C.
  { split; [intros _|reflexivity]. apply E in C. destruct C as [rest C].
    exists (lit "CACHE::"), rest. split; [|exact C]. cbn. tauto. }
  destruct (str_startswith s (lit "ISA::") _) eqn:I.
  { split; [intros _|reflexivity]. apply E in I. destruct I as [rest I].
    exists (lit "ISA::"), rest. split; [|exact I]. cbn. tauto. }
  destruct (pci && str_startswith s (lit "PCI::") _) eqn:P.
  { split; [intros _|reflexivity]. apply andb_prop in P.
    destruct P as [-> P]. apply E in P. destruct P as [rest P].
    exists (lit "PCI::"), rest. split; [|exact P]. cbn. tauto. }
  split; [discriminate|]. intros [prefix [rest [Hin H]]]. exfalso.
  apply in_app_or in Hin. destruct Hin as [Hin|Hin].
  - cbn in Hin.
    destruct Hin as [<-|[<-|[<-|[<-|[]]]]];
      [now apply (B _ V rest)|now apply (B _ M rest)
      |now apply (B _ C rest)|now apply (B _ I rest)].
  - destruct pci; [|destruct Hin]. destruct Hin as [<-|[]].
    cbn [andb] in P. now apply (B _ P rest).
Qed.

(** ** __contains_str and the flag bitmap *)

(** X3.  __contains_str answers false for a NULL or empty haystack; it
    answers true for every needle that stands in the haystack as a whole
    token (between delimiters or the ends); and whenever it answers true the
    needle occurs in the haystack with a delimiter or the end of the string
    right after it.  The delimiters are those given, or space and tab when
    none are given. *)
Theorem contains_str_meaning :
  forall (haystack needle : cstring) (delimiter : option cstring),
    contains_str None needle delimiter = false
    /\ contains_str (Some empty) needle delimiter = false
    /\ (In needle (tokens (effective_delimiter delimiter) haystack) ->
        contains_str (Some haystack) needle delimiter = true)
    /\ (contains_str (Some haystack) needle delimiter = true ->
        exists a b : cstring,
          haystack = a ++ needle ++ b
          /\ delimited_right (effective_delimiter delimiter) b).
Proof.
  intros haystack needle delimiter.
  split; [reflexivity|]. split; [reflexivity|]. split.
  - apply contains_str_whole_token.
  - apply contains_str_sound.
Qed.

Lemma contains_str_meaning_witness :
  contains_str (Some (lit "ISA::avx2,Gen1")) (lit "Gen1") (Some (lit ","))
  = true
  /\ exists a b : cstring,
       lit "ISA::avx2,Gen1" = a ++ lit "Gen1" ++ b
       /\ delimited_right (lit ",") b.
Proof.
  pose proof (contains_str_meaning (lit "ISA::avx2,Gen1") (lit "Gen1")
                (Some (lit ","))) as (_ & _ & W & S).
  assert (T : contains_str (Some (lit "ISA::avx2,Gen1")) (lit "Gen1")
                (Some (lit ",")) = true).
  { apply W. vm_compute. right. now left. }
  split; [exact T|exact (S T)].
Defined.

Lemma parse_flags_loop_bounds (text : cstring) (names : list cstring) :
  forall (k acc : Z),
    (0 <= k)%Z -> (0 <= acc < 2 ^ k)%Z ->
    (0 <= parse_flags_loop names (2 ^ k) acc text
     < 2 ^ (k + Z.of_nat (List.length names)))%Z.
Proof.
  induction names as [|name names IH]; intros k acc Hk Hacc.
  - cbn. now rewrite Z.add_0_r.
  - cbn [parse_flags_loop List.length]. rewrite Z.shiftl_mul_pow2 by lia.
    replace (2 ^ k * 2 ^ 1)%Z with (2 ^ (k + 1))%Z
      by (rewrite Z.pow_add_r by lia; reflexivity).
    replace (k + Z.of_nat (S (List.length names)))%Z
      with (k + 1 + Z.of_nat (List.length names))%Z by lia.
    apply IH; [lia|].
    assert (P : (0 < 2 ^ k)%Z) by (apply Z.pow_pos_nonneg; lia).
    assert (Q : (2 ^ (k + 1) = 2 * 2 ^ k)%Z)
      by (rewrite Z.pow_add_r by lia; lia).
    destruct (contains_str (Some text) name None); [|lia].
    split; [apply Z.lor_nonneg; lia|].
    destruct (Z.eq_dec acc 0) as [->|N]; [rewrite Z.lor_0_l; lia|].
    apply Z.log2_lt_pow2; [|].
    + assert (0 <= Z.lor acc (2 ^ k))%Z by (apply Z.lor_nonneg; lia).
      assert (Z.lor acc (2 ^ k) <> 0)%Z.
      { intros E. apply Z.lor_eq_0_iff in E. lia. }
      lia.
    + rewrite Z.log2_lor by lia. rewrite Z.log2_pow2 by lia.
      assert (Z.log2 acc < k)%Z by (apply Z.log2_lt_pow2; lia). lia.
Qed.

(** X4.  cpuinfo_parse_flags always returns true and rebuilds the bitmap
    from the text alone: bit [i] is the answer of __contains_str for the
    [i]-th flag name, no bit from 13 on is ever set, the flags the record
    had before do not matter, and the other fields are left alone. *)
Theorem parse_flags_bitmap :
  forall (cif : cpuinfo_features) (text : cstring),
    fst (cpuinfo_parse_flags cif text) = true
    /\ (forall (i : nat) (name : cstring),
           nth_error cpuinfo_flags_strings i = Some name ->
           Z.testbit (flags (snd (cpuinfo_parse_flags cif text))) (Z.of_nat i)
           = contains_str (Some text) name None)
    /\ (0 <= flags (snd (cpuinfo_parse_flags cif text)) < 2 ^ 13)%Z
    /\ (forall cif2 : cpuinfo_features,
           flags (snd (cpuinfo_parse_flags cif2 text))
           = flags (snd (cpuinfo_parse_flags cif text)))
    /\ vendor_id (snd (cpuinfo_parse_flags cif text)) = vendor_id cif
    /\ model_name (snd (cpuinfo_parse_flags cif text)) = model_name cif
    /\ cache_kb (snd (cpuinfo_parse_flags cif text)) = cache_kb cif.
Proof.
  intros cif text. repeat apply conj; try reflexivity.
  - intros i name Hi. now apply parse_flags_bit.
  - apply (parse_flags_loop_bounds text cpuinfo_flags_strings 0 0); lia.
  - apply (parse_flags_loop_bounds text cpuinfo_flags_strings 0 0); lia.
Qed.

Lemma parse_flags_bitmap_witness :
  Z.testbit (flags (snd (cpuinfo_parse_flags cpuinfo_features_init
                           (lit "fpu sse avx"))))
    (Z.of_nat 5)
  = contains_str (Some (lit "fpu sse avx")) (lit "avx") None.
Proof.
  exact (proj1 (proj2 (parse_flags_bitmap cpuinfo_features_init
                         (lit "fpu sse avx"))) 5%nat (lit "avx") eq_refl).
Defined.

(** X5.  For each of the thirteen flag names: when the name stands in the
    flags text as a token between spaces, tabs or the ends, its bit is set;
    and when its bit is set, the name occurs in the text with a space, a
    tab or the end of the text right after it. *)
Theorem parse_flags_token_and_bit :
  forall (cif : cpuinfo_features) (text : cstring) (i : nat)
         (name : cstring),
    nth_error cpuinfo_flags_strings i = Some name ->
    (In name (tokens [space; tab] text) ->
     Z.testbit (flags (snd (cpuinfo_parse_flags cif text))) (Z.of_nat i)
     = true)
    /\ (Z.testbit (flags (snd (cpuinfo_parse_flags cif text))) (Z.of_nat i)
        = true ->
        exists a b : cstring,
          text = a ++ name ++ b /\ delimited_right [space; tab] b).
Proof.
  intros cif text i name Hi. split.
  - now apply parse_flags_whole_token.
  - now apply parse_flags_bit_occurrence.
Qed.

Lemma parse_flags_token_and_bit_witness :
  Z.testbit (flags (snd (cpuinfo_parse_flags cpuinfo_features_init
                           (lit "fpu sse4_1 avx2"))))
    (Z.of_nat 3)
  = true.
Proof.
  apply (parse_flags_token_and_bit cpuinfo_features_init
           (lit "fpu sse4_1 avx2") 3%nat (lit "sse4_1") eq_refl).
  vm_compute. right. now left.
Defined.

(** ** The parser registry and cpuinfo_parse_line *)

Lemma strncasecmp_eq_spec :
  forall (n : nat) (a b : cstring),
    strncasecmp_eq a b n = true
    <-> map tolower (firstn n a) = map tolower (firstn n b).
Proof.
  induction n as [|n IH]; intros a b; [destruct a; split; reflexivity|].
  destruct a as [|x a], b as [|y b]; cbn [strncasecmp_eq firstn map].
  - split; reflexivity.
  - split; discriminate.
  - split; discriminate.
  - rewrite andb_true_iff, Ascii.eqb_eq, IH. split.
    + intros [-> ->]. reflexivity.
    + intros [= -> ->]. now split.
Qed.

Lemma firstn_exact (a b : cstring) : firstn (strlen a) (a ++ b) = a.
Proof.
  unfold strlen. rewrite firstn_app, Nat.sub_diag, firstn_all. cbn.
  apply app_nil_r.
Qed.

Lemma parsers_lookup_from_found (parsers : list cpuinfo_feature_parser)
    (ptr : cstring) (len : nat) (parser : cpuinfo_feature_parser) :
  parsers_lookup_from parsers ptr len = Some parser ->
  In parser parsers
  /\ strlen (feature_str parser) = len
  /\ map tolower (firstn len ptr) = map tolower (feature_str parser).
Proof.
  induction parsers as [|q parsers IH]; cbn [parsers_lookup_from];
    [discriminate|].
  destruct (Nat.eqb_spec (strlen (feature_str q)) len) as [L|L]; cbn [andb].
  - destruct (strncasecmp_eq (feature_str q) ptr len) eqn:E.
    + intros [= <-]. split; [now left|]. split; [exact L|].
      apply strncasecmp_eq_spec in E. rewrite <- E.
      unfold strlen in L. now rewrite <- L, firstn_all.
    + intros H. destruct (IH H) as (H1 & H2 & H3). split; [now right|].
      now split.
  - intros H. destruct (IH H) as (H1 & H2 & H3). split; [now right|].
    now split.
Qed.

Lemma parsers_lookup_from_complete (parsers : list cpuinfo_feature_parser) :
  NoDup (map (fun q => map tolower (feature_str q)) parsers) ->
  forall (parser : cpuinfo_feature_parser) (key rest : cstring),
    In parser parsers ->
    map tolower key = map tolower (feature_str parser) ->
    parsers_lookup_from parsers (key ++ rest) (strlen key) = Some parser.
Proof.
  induction parsers as [|q parsers IH]; intros ND parser key rest Hin Hk;
    [destruct Hin|].
  cbn [map] in ND. apply NoDup_cons_iff in ND. destruct ND as [Hq ND].
  assert (Hlen : strlen (feature_str parser) = strlen key).
  { unfold strlen. apply (f_equal (@List.length ascii)) in Hk.
    now rewrite !length_map in Hk. }
  cbn [parsers_lookup_from].
  destruct ((strlen (feature_str q) =? strlen key)%nat
            && strncasecmp_eq (feature_str q) (key ++ rest) (strlen key))
    eqn:E.
  - apply andb_prop in E. destruct E as [L E]. apply Nat.eqb_eq in L.
    apply strncasecmp_eq_spec in E. rewrite firstn_exact in E.
    rewrite <- L in E. unfold strlen in E. rewrite firstn_all in E.
    destruct Hin as [->|Hin]; [reflexivity|]. exfalso. apply Hq.
    rewrite E, Hk. apply (in_map (fun q => map tolower (feature_str q))).
    exact Hin.
  - destruct Hin as [->|Hin]; [|now apply IH]. exfalso.
    apply andb_false_iff in E. destruct E as [E|E].
    + apply Nat.eqb_neq in E. congruence.
    + assert (T : strncasecmp_eq (feature_str parser) (key ++ rest)
                    (strlen key) = true).
      { apply strncasecmp_eq_spec. rewrite firstn_exact.
        rewrite <- Hlen. unfold strlen. now rewrite firstn_all. }
      congruence.
Qed.

Lemma parsers_keys_distinct :
  NoDup (map (fun q => map tolower (feature_str q)) cpuinfo_feature_parsers).
Proof.
  repeat constructor; cbv; intuition discriminate.
Qed.

(** X6.  cpuinfo_feature_parsers_lookup matches the keyword without regard
    to letter case and only at its exact length: a registration it returns
    has a keyword of [feature_str_len] characters equal, letter case
    aside, to the first [feature_str_len] characters of the buffer; and
    every spelling of a registered keyword, whatever follows it in the
    buffer, finds that registration. *)
Theorem parsers_lookup_exact_caseless :
  forall (feature_str_ptr : cstring) (feature_str_len : nat)
         (parser : cpuinfo_feature_parser),
    (cpuinfo_feature_parsers_lookup feature_str_ptr feature_str_len
     = Some parser ->
     In parser cpuinfo_feature_parsers
     /\ strlen (feature_str parser) = feature_str_len
     /\ map tolower (firstn feature_str_len feature_str_ptr)
        = map tolower (feature_str parser))
    /\ (forall key rest : cstring,
           In parser cpuinfo_feature_parsers ->
           map tolower key = map tolower (feature_str parser) ->
           cpuinfo_feature_parsers_lookup (key ++ rest) (strlen key)
           = Some parser).
Proof.
  intros ptr len parser. split.
  - apply parsers_lookup_from_found.
  - intros key rest. apply parsers_lookup_from_complete.
    apply parsers_keys_distinct.
Qed.

Lemma parsers_lookup_exact_caseless_witness :
  exists parser : cpuinfo_feature_parser,
    cpuinfo_feature_parsers_lookup (lit "Model Name	: EPYC") 10
    = Some parser
    /\ feature_str parser = lit "model name".
Proof.
  eexists. split.
  - apply (proj2 (parsers_lookup_exact_caseless [] 0
                    {| feature_str := lit "model name";
                       parse_callback := cb_model_name;
                       arg_offset := VendorIdField |})
             (lit "Model Name") (lit "	: EPYC")).
    + cbn. tauto.
    + reflexivity.
  - reflexivity.
Defined.

Lemma skip_all (f : ascii -> bool) (a b : cstring) :
  forallb f a = true -> skip f (a ++ b) = skip f b.
Proof.
  induction a as [|c a IH]; [reflexivity|]. cbn [forallb app skip].
  intros H. apply andb_prop in H. destruct H as [-> H]. now apply IH.
Qed.

Lemma skip_stays (f : ascii -> bool) (b : cstring) :
  f (deref b) = false -> skip f b = b.
Proof.
  destruct b as [|c b]; [reflexivity|]. cbn [deref skip]. now intros ->.
Qed.

Lemma forallb_rev (f : ascii -> bool) (l : cstring) :
  forallb f (rev l) = forallb f l.
Proof.
  induction l as [|c l IH]; [reflexivity|]. cbn [rev forallb].
  rewrite forallb_app, IH. cbn. rewrite andb_true_r. apply andb_comm.
Qed.

Lemma isspace_tolower (c : ascii) : isspace (tolower c) = isspace c.
Proof. destruct c as [[] [] [] [] [] [] [] []]; reflexivity. Qed.

Lemma not_colon_tolower (c : ascii) : not_colon (tolower c) = not_colon c.
Proof. destruct c as [[] [] [] [] [] [] [] []]; reflexivity. Qed.

Lemma isspace_not_colon (c : ascii) : isspace c = true -> not_colon c = true.
Proof. destruct c as [[] [] [] [] [] [] [] []]; cbv; congruence. Qed.

Lemma clean_keyword_tolower (key : cstring) :
  clean_keyword (map tolower key) = clean_keyword key.
Proof.
  unfold clean_keyword. f_equal; [f_equal; [f_equal|]|].
  - now destruct key.
  - induction key as [|c key IH]; [reflexivity|]. cbn [map forallb].
    now rewrite not_colon_tolower, IH.
  - destruct key as [|c key]; [reflexivity|]. cbn [map deref].
    now rewrite isspace_tolower.
  - f_equal. induction key as [|c key IH]; [reflexivity|].
    cbn [map]. destruct key as [|d key].
    + cbn. apply isspace_tolower.
    + cbn [map last] in *. exact IH.
Qed.

Lemma registered_keywords_clean (parser : cpuinfo_feature_parser) :
  In parser cpuinfo_feature_parsers ->
  clean_keyword (map tolower (feature_str parser)) = true.
Proof.
  intros [<-|[<-|[<-|[<-|[]]]]]; reflexivity.
Qed.

Lemma cache_size_false (cif cif' : cpuinfo_features) (text : cstring) :
  cpuinfo_parse_cache_size cif text = Returns false cif' -> cif' = cif.
Proof.
  unfold cpuinfo_parse_cache_size.
  destruct (strtod text) as [|v endp]; [now intros [= <-]|].
  destruct (Ascii.eqb (toupper (deref (skip isspace endp))) "G").
  { cbv zeta. destruct (_ || _); [|now intros [= <-]].
    destruct (to_unsigned_int _); discriminate. }
  destruct (Ascii.eqb (toupper (deref (skip isspace endp))) "M").
  { cbv zeta. destruct (_ || _); [|now intros [= <-]].
    destruct (to_unsigned_int _); discriminate. }
  destruct (Ascii.eqb (toupper (deref (skip isspace endp))) "K").
  { cbv zeta. destruct (_ || _); [|now intros [= <-]].
    destruct (to_unsigned_int _); discriminate. }
  destruct (Ascii.eqb (toupper (deref (skip isspace endp))) "B").
  { cbv zeta. destruct (_ || _); [|now intros [= <-]].
    destruct (to_unsigned_int _); discriminate. }
  cbv zeta. destruct (_ || _); [|now intros [= <-]].
  destruct (to_unsigned_int _); discriminate.
Qed.

Lemma run_parser_false (parser : cpuinfo_feature_parser)
    (cif cif' : cpuinfo_features) (text : cstring) :
  run_parser parser cif text = Returns false cif' -> cif' = cif.
Proof.
  unfold run_parser. destruct (parse_callback parser).
  - apply cache_size_false.
  - cbn. discriminate.
  - apply cpuinfo_parse_model_name_false.
  - cbn. discriminate.
Qed.

Lemma skip_keeps_forallb (f g : ascii -> bool) (l : cstring) :
  forallb f l = true -> forallb f (skip g l) = true.
Proof.
  induction l as [|c l IH]; [reflexivity|]. cbn [forallb skip].
  intros H. destruct (g c); [|exact H].
  apply andb_prop in H. now apply IH.
Qed.

Lemma skip_everything (f : ascii -> bool) (l : cstring) :
  forallb f l = true -> skip f l = [].
Proof.
  intros H. rewrite <- (app_nil_r l). now rewrite skip_all.
Qed.

(** X7.  A line cpuinfo_parse_line rejects leaves the record exactly as it
    was; and every line without a colon is rejected, the empty line and
    the line of white space included. *)
Theorem parse_line_rejected_unchanged :
  forall (cif : cpuinfo_features) (line : cstring),
    (forall cif' : cpuinfo_features,
        cpuinfo_parse_line cif line = Returns false cif' -> cif' = cif)
    /\ (forallb not_colon line = true ->
        cpuinfo_parse_line cif line = Returns false cif).
Proof.
  intros cif line. split.
  - intros cif'. unfold cpuinfo_parse_line.
    destruct (skip isspace line) as [|c l]; [now intros [= <-]|].
    destruct (skip not_colon (c :: l)) as [|x after]; [now intros [= <-]|].
    destruct (cpuinfo_feature_parsers_lookup _ _) as [parser|];
      [|now intros [= <-]].
    apply run_parser_false.
  - intros H. unfold cpuinfo_parse_line.
    pose proof (skip_keeps_forallb not_colon isspace line H) as H1.
    destruct (skip isspace line) as [|c l]; [reflexivity|].
    now rewrite (skip_everything not_colon (c :: l) H1).
Qed.

Lemma parse_line_rejected_unchanged_witness :
  cpuinfo_parse_line cpuinfo_features_init (lit "power management")
  = Returns false cpuinfo_features_init.
Proof.
  apply (proj2 (parse_line_rejected_unchanged cpuinfo_features_init
                  (lit "power management"))).
  reflexivity.
Defined.

(** X8.  cpuinfo_parse_line finds a registered keyword in any letter case,
    with any white space before the keyword, between keyword and colon, and
    after the colon; the parser of that keyword is then run on the text
    that starts at the first character after the colon that is not white
    space. *)
Theorem parse_line_dispatch :
  forall (cif : cpuinfo_features) (parser : cpuinfo_feature_parser)
         (key ws0 ws1 ws2 value : cstring),
    In parser cpuinfo_feature_parsers ->
    map tolower key = map tolower (feature_str parser) ->
    forallb isspace ws0 = true ->
    forallb isspace ws1 = true ->
    forallb isspace ws2 = true ->
    isspace (deref value) = false ->
    cpuinfo_parse_line cif (ws0 ++ key ++ ws1 ++ ":"%char :: ws2 ++ value)
    = run_parser parser cif value.
Proof.
  intros cif parser key ws0 ws1 ws2 value Hin Hk H0 H1 H2 Hv.
  assert (C : clean_keyword key = true).
  { rewrite <- clean_keyword_tolower, Hk.
    now apply registered_keywords_clean. }
  unfold clean_keyword in C.
  apply andb_prop in C. destruct C as [C Clast].
  apply andb_prop in C. destruct C as [C Cfirst].
  apply andb_prop in C. destruct C as [Cne Ccolon].
  apply negb_true_iff in Cfirst. apply negb_true_iff in Clast.
  destruct key as [|k key]; [discriminate|]. clear Cne.
  unfold cpuinfo_parse_line.
  rewrite (skip_all isspace ws0 _ H0).
  rewrite (skip_stays isspace ((k :: key) ++ _)) by exact Cfirst.
  cbn [app].
  set (rest := ":"%char :: ws2 ++ value).
  assert (S1 : skip not_colon (k :: key ++ ws1 ++ rest) = rest).
  { change (k :: key ++ ws1 ++ rest) with ((k :: key) ++ ws1 ++ rest).
    rewrite skip_all by exact Ccolon. rewrite skip_all; [reflexivity|].
    apply forallb_forall. intros x Hx. apply isspace_not_colon.
    rewrite forallb_forall in H1. now apply H1. }
  rewrite S1. subst rest.
  assert (B : between (k :: key ++ ws1 ++ ":"%char :: ws2 ++ value)
                (":"%char :: ws2 ++ value) = (k :: key) ++ ws1).
  { unfold between, strlen.
    replace (k :: key ++ ws1 ++ ":"%char :: ws2 ++ value)
      with (((k :: key) ++ ws1) ++ ":"%char :: ws2 ++ value)
      by (cbn; now rewrite <- app_assoc).
    rewrite length_app, Nat.add_sub. apply firstn_exact. }
  rewrite B.
  assert (L : backtrack_spaces ((k :: key) ++ ws1) = strlen (k :: key)).
  { unfold backtrack_spaces, strlen. rewrite length_rev, rev_app_distr.
    rewrite skip_all by (now rewrite forallb_rev).
    rewrite skip_stays; [apply length_rev|].
    destruct (exists_last (l := k :: key)) as [front [z E]];
      [discriminate|].
    rewrite E, rev_app_distr. cbn [rev app deref].
    rewrite E, last_last in Clast. exact Clast. }
  rewrite L.
  replace (k :: key ++ ws1 ++ ":"%char :: ws2 ++ value)
    with ((k :: key) ++ ws1 ++ ":"%char :: ws2 ++ value) by reflexivity.
  unfold cpuinfo_feature_parsers_lookup.
  rewrite (parsers_lookup_from_complete _ parsers_keys_distinct parser
             (k :: key) _ Hin Hk).
  rewrite (skip_all isspace ws2 _ H2). now rewrite skip_stays.
Qed.

Lemma parse_line_dispatch_witness :
  cpuinfo_parse_line cpuinfo_features_init
    (lit "  " ++ lit "Vendor_ID" ++ lit " 	" ++ ":"%char :: lit " "
     ++ lit "AuthenticAMD")
  = Returns true
      (set_string_field VendorIdField cpuinfo_features_init
         (Some (lit "AuthenticAMD"))).
Proof.
  apply (parse_line_dispatch cpuinfo_features_init
           {| feature_str := lit "vendor_id"; parse_callback := cb_strdup;
              arg_offset := VendorIdField |}
           (lit "Vendor_ID") (lit "  ") (lit " 	") (lit " ")
           (lit "AuthenticAMD")); try reflexivity.
  cbn. tauto.
Defined.

(** ** cpuinfo_parse_model_name *)

Lemma match_model_shorter (s e : cstring) :
  match_model s = Some e -> (strlen e <= strlen (tl s))%nat.
Proof.
  unfold match_model. destruct (isdigit (deref _)); [|discriminate].
  intros [= <-].
  pose proof (skip_length is_alnum_dash (tl (skip is_alpha_dash (tl s)))).
  pose proof (skip_length is_alpha_dash (tl s)).
  assert (T : forall l : cstring, (strlen (tl l) <= strlen l)%nat)
    by (intros [|x l]; unfold strlen; cbn; lia).
  pose proof (T (skip is_alpha_dash (tl s))). lia.
Qed.

Lemma match_version_shorter (e : cstring) :
  (strlen (match_version e) <= strlen e)%nat.
Proof.
  unfold match_version. destruct (_ && _); [|lia].
  pose proof (skip_length isdigit (tl (tl e))).
  assert (T : forall l : cstring, (strlen (tl l) <= strlen l)%nat)
    by (intros [|x l]; unfold strlen; cbn; lia).
  pose proof (T e). pose proof (T (tl e)). lia.
Qed.

Lemma underscore_spaces_no_space (p : cstring) :
  ~ In " "%char (underscore_spaces p).
Proof.
  unfold underscore_spaces. rewrite in_map_iff. intros [c [H _]].
  destruct (Ascii.eqb c " ") eqn:E; [discriminate H|].
  subst c. now rewrite Ascii.eqb_refl in E.
Qed.

Lemma store_model_fields (cif : cpuinfo_features) (from e : cstring) :
  (strlen e < strlen from)%nat ->
  vendor_id (store_model cif from e) = vendor_id cif
  /\ cache_kb (store_model cif from e) = cache_kb cif
  /\ flags (store_model cif from e) = flags cif
  /\ exists m : cstring,
       model_name (store_model cif from e) = Some m
       /\ m <> [] /\ ~ In " "%char m.
Proof.
  intros H. repeat apply conj; try reflexivity.
  exists (underscore_spaces (between from e)). split; [reflexivity|].
  split; [|apply underscore_spaces_no_space].
  unfold between. destruct from as [|c from];
    [unfold strlen in H; cbn in H; lia|].
  unfold strlen in *. cbn [List.length] in *.
  destruct (S (List.length from) - List.length e)%nat eqn:E; [lia|].
  cbn. discriminate.
Qed.

Lemma model_scan_true (cif cif' : cpuinfo_features) :
  forall (fuel : nat) (s : cstring),
    model_scan fuel cif s = Some (Returns true cif') ->
    exists from e : cstring,
      cif' = store_model cif from e /\ (strlen e < strlen from)%nat.
Proof.
  induction fuel as [|fuel IH]; intros s; cbn [model_scan]; [discriminate|].
  destruct s as [|c s]; [discriminate|].
  destruct (skip_to_alnum (c :: s)) as [s1|] eqn:E; [|discriminate].
  destruct (match_model s1) as [e|] eqn:M; [|apply IH].
  intros [= <-]. exists s1, (match_version e). split; [reflexivity|].
  destruct (skip_to_alnum_found _ _ E) as [Hne _].
  pose proof (match_model_shorter _ _ M).
  pose proof (match_version_shorter e).
  destruct s1; [congruence|]. unfold strlen in *. cbn [tl List.length] in *.
  lia.
Qed.

(** X9.  When cpuinfo_parse_model_name returns, vendor, cache size and
    flags are as they were; on false the model name is untouched too; on
    true the record holds a model name that is not empty and contains no
    space (every space of the matched text has become an underscore). *)
Theorem parse_model_name_result :
  forall (cif cif' : cpuinfo_features) (text : cstring) (ok : bool),
    cpuinfo_parse_model_name cif text = Returns ok cif' ->
    vendor_id cif' = vendor_id cif
    /\ cache_kb cif' = cache_kb cif
    /\ flags cif' = flags cif
    /\ (ok = false -> cif' = cif)
    /\ (ok = true ->
        exists m : cstring,
          model_name cif' = Some m /\ m <> [] /\ ~ In " "%char m).
Proof.
  intros cif cif' text ok H.
  destruct ok.
  - assert (S : exists from e : cstring,
               cif' = store_model cif from e
               /\ (strlen e < strlen from)%nat).
    { revert H. unfold cpuinfo_parse_model_name.
      assert (G : match model_scan (S (strlen text)) cif text with
                  | Some o => o
                  | None => Returns false cif
                  end = Returns true cif' ->
                  exists from e : cstring,
                    cif' = store_model cif from e
                    /\ (strlen e < strlen from)%nat).
      { destruct (model_scan (S (strlen text)) cif text) as [o|] eqn:E;
          [|discriminate].
        intros ->. now apply model_scan_true in E. }
      destruct (find_leadin text) as [prefix|]; [|exact G].
      destruct (isalnum (deref (skipn 5 prefix))) eqn:A; [|exact G].
      destruct (match_model (skipn 5 prefix)) as [e|] eqn:M; [|exact G].
      intros [= <-]. exists prefix, e. split; [reflexivity|].
      pose proof (match_model_shorter _ _ M) as L.
      destruct (skipn 5 prefix) as [|x r] eqn:K; [discriminate A|].
      assert (strlen (skipn 5 prefix) <= strlen prefix)%nat
        by (unfold strlen; rewrite length_skipn; lia).
      rewrite K in *. unfold strlen in *. cbn [tl List.length] in *. lia. }
    destruct S as [from [e [-> L]]].
    destruct (store_model_fields cif from e L) as (V & C & F & M).
    repeat apply conj; try assumption; [discriminate|]. intros _. exact M.
  - apply cpuinfo_parse_model_name_false in H. subst cif'.
    repeat apply conj; try reflexivity. discriminate.
Qed.

Lemma parse_model_name_result_witness :
  exists m : cstring,
    model_name (set_string_field ModelNameField cpuinfo_features_init
                  (Some (lit "Gold_6230")))
    = Some m /\ m <> [] /\ ~ In " "%char m.
Proof.
  refine (proj2 (proj2 (proj2 (proj2
            (parse_model_name_result cpuinfo_features_init _
               (lit "Intel(R) Xeon(R) Gold 6230 CPU @ 2.10GHz") true _))))
            eq_refl).
  reflexivity.
Defined.

Lemma skip_to_alnum_none (s : cstring) :
  skip_to_alnum s = None ->
  s <> [] -> isalnum (last s nul) = false.
Proof.
  induction s as [|c s IH]; [congruence|]. cbn [skip_to_alnum].
  destruct (isalnum c) eqn:A; [discriminate|]. intros H _.
  destruct s as [|d s]; [exact A|]. cbn [last]. apply IH; [exact H|].
  discriminate.
Qed.

Lemma skip_to_alnum_suffix (s s1 : cstring) :
  skip_to_alnum s = Some s1 -> exists a : cstring, s = a ++ s1.
Proof.
  revert s1. induction s as [|c s IH]; intros s1; cbn [skip_to_alnum];
    [discriminate|].
  destruct (isalnum c).
  - intros [= <-]. now exists [].
  - intros H. destruct (IH _ H) as [a ->]. now exists (c :: a).
Qed.

Lemma model_scan_overrun (cif : cpuinfo_features) :
  forall (fuel : nat) (s : cstring),
    model_scan fuel cif s = Some ReadsPastEnd ->
    s <> [] /\ isalnum (last s nul) = false.
Proof.
  induction fuel as [|fuel IH]; intros s; cbn [model_scan]; [discriminate|].
  destruct s as [|c s]; [discriminate|].
  destruct (skip_to_alnum (c :: s)) as [s1|] eqn:E.
  - destruct (match_model s1); [discriminate|]. intros H.
    destruct (IH _ H) as [Hne Hl]. split; [discriminate|].
    destruct (skip_to_alnum_suffix _ _ E) as [a Ea]. rewrite Ea.
    destruct s1 as [|x s1]; [now elim Hne|]. cbn [tl] in *.
    rewrite last_app_nonempty by discriminate.
    destruct s1; [now elim Hne|exact Hl].
  - intros _. split; [discriminate|].
    apply skip_to_alnum_none; [exact E|discriminate].
Qed.

(** X10.  cpuinfo_parse_model_name stays inside its text whenever the text
    is empty or ends in an alphanumeric character: it then returns true or
    false.  Stepping over the terminator needs a text whose last character
    is not alphanumeric. *)
Theorem parse_model_name_stays_inside :
  forall (cif : cpuinfo_features) (text : cstring),
    text = [] \/ isalnum (last text nul) = true ->
    exists (ok : bool) (cif' : cpuinfo_features),
      cpuinfo_parse_model_name cif text = Returns ok cif'.
Proof.
  intros cif text H.
  assert (G : exists (ok : bool) (cif' : cpuinfo_features),
             match model_scan (S (strlen text)) cif text with
             | Some o => o
             | None => Returns false cif
             end = Returns ok cif').
  { destruct (model_scan (S (strlen text)) cif text) as [o|] eqn:E;
      [|now exists false, cif].
    destruct o as [ok cif'| |].
    - now exists ok, cif'.
    - apply model_scan_overrun in E. destruct E as [Hne Hl].
      destruct H as [->|H]; congruence.
    - exfalso. revert E. generalize (S (strlen text)). clear.
      intros fuel. revert text.
      induction fuel as [|fuel IH]; intros s; cbn [model_scan];
        [discriminate|].
      destruct s as [|c s]; [discriminate|].
      destruct (skip_to_alnum (c :: s)) as [s1|]; [|discriminate].
      destruct (match_model s1); [discriminate|apply IH]. }
  unfold cpuinfo_parse_model_name.
  destruct (find_leadin text) as [prefix|]; [|exact G].
  destruct (isalnum (deref (skipn 5 prefix))); [|exact G].
  destruct (match_model (skipn 5 prefix)) as [e|]; [|exact G].
  now eexists true, _.
Qed.

Lemma parse_model_name_stays_inside_witness :
  exists (ok : bool) (cif' : cpuinfo_features),
    cpuinfo_parse_model_name cpuinfo_features_init
      (lit "Common KVM processor")
    = Returns ok cif'.
Proof.
  apply (parse_model_name_stays_inside cpuinfo_features_init
           (lit "Common KVM processor")).
  right. reflexivity.
Defined.

(** ** The line reader: trimming *)

Lemma c_str_app_nul (x y : list ascii) :
  nul_free x = true -> c_str (x ++ nul :: y) = x.
Proof.
  induction x as [|c x IH]; [reflexivity|]. cbn [nul_free forallb app c_str].
  intros H. apply andb_prop in H. destruct H as [Hc Hx].
  destruct (Ascii.eqb c nul); [discriminate|]. f_equal. now apply IH.
Qed.

Lemma skip_app_false (f : ascii -> bool) (c : ascii) (y : list ascii) :
  f c = false ->
  forall k : list ascii, skip f (k ++ c :: y) = skip f k ++ c :: y.
Proof.
  intros Hc. induction k as [|x k IH]; cbn [app skip]; [now rewrite Hc|].
  now destruct (f x).
Qed.

Lemma rstrip_split (s : list ascii) :
  s = rstrip s ++ rev (take isspace (rev s))
  /\ forallb isspace (rev (take isspace (rev s))) = true
  /\ isspace (last (rstrip s) nul) = false.
Proof.
  unfold rstrip. repeat apply conj.
  - rewrite <- rev_app_distr, take_skip. now rewrite rev_involutive.
  - rewrite forallb_rev. apply take_all.
  - destruct (skip isspace (rev s)) as [|c r] eqn:E; [reflexivity|].
    cbn [rev]. rewrite last_last. exact (skip_head _ _ _ _ E).
Qed.

Lemma strip_is_stripped (s : cstring) : stripped s (skip isspace (rstrip s)).
Proof.
  destruct (rstrip_split s) as (E & B & L).
  exists (take isspace (rstrip s)), (rev (take isspace (rev s))).
  repeat apply conj.
  - now rewrite app_assoc, take_skip.
  - apply take_all.
  - exact B.
  - destruct (skip isspace (rstrip s)) as [|c r] eqn:K; [reflexivity|].
    exact (skip_head _ _ _ _ K).
  - destruct (skip isspace (rstrip s)) as [|c r] eqn:K; [reflexivity|].
    rewrite <- (take_skip isspace (rstrip s)), K in L.
    rewrite last_app_nonempty in L by discriminate. exact L.
Qed.

Lemma rstrip_newline (s : list ascii) : rstrip (s ++ [newline]) = rstrip s.
Proof. unfold rstrip. now rewrite rev_app_distr. Qed.

Lemma rstrip_length (s : list ascii) :
  (List.length (rstrip s) <= List.length s)%nat.
Proof.
  unfold rstrip. rewrite length_rev.
  pose proof (skip_length isspace (rev s)) as H. unfold strlen in H.
  now rewrite length_rev in H.
Qed.

Lemma rstrip_nul_free (s : list ascii) :
  nul_free s = true -> nul_free (rstrip s) = true.
Proof.
  unfold nul_free, rstrip. intros H. rewrite forallb_rev.
  apply skip_keeps_forallb. now rewrite forallb_rev.
Qed.

(** X11.  line_reader_trim on a line as line_reader_nextline returns it,
    the bytes [s] (no NUL among them) followed by the terminator and the
    closing NUL.  When the terminator is a newline the line buffer then
    holds [s] without the white space at its two ends.  When the terminator
    is a NUL only the leading white space goes: the white space at the end
    of [s] stays. *)
Theorem trim_returned_line :
  forall (this : line_reader) (s : list ascii) (t : ascii),
    (0 < capacity this)%nat ->
    nul_free s = true ->
    line_buffer this = s ++ [t; nul] ->
    let line := c_str (line_buffer (line_reader_trim this)) in
    (t = newline -> line = skip isspace (rstrip s) /\ stripped s line)
    /\ (t = nul -> line = skip isspace s).
Proof.
  intros this s t Hcap Hs Hl line.
  assert (E : line_buffer (line_reader_trim this)
              = skip isspace
                  (if (List.length (rstrip (s ++ [t]))
                       <? List.length (s ++ [t]))%nat
                   then rstrip (s ++ [t]) ++ [nul]
                   else s ++ [t; nul])).
  { unfold line_reader_trim.
    destruct (Nat.eqb_spec (capacity this) 0) as [C|_]; [lia|].
    destruct (Nat.eqb_spec (used this) 0) as [U|_].
    - unfold used in U. rewrite Hl, length_app in U. cbn in U. lia.
    - cbn [orb with_line line_buffer]. rewrite Hl.
      replace (s ++ [t; nul]) with ((s ++ [t]) ++ [nul])
        by now rewrite <- app_assoc.
      now rewrite removelast_last. }
  subst line. rewrite E. split; intros ->.
  - rewrite rstrip_newline.
    destruct (Nat.ltb_spec (List.length (rstrip s))
                (List.length (s ++ [newline]))) as [_|H].
    + rewrite skip_app_false by reflexivity. split.
      * apply c_str_app_nul. unfold nul_free. apply skip_keeps_forallb.
        now apply rstrip_nul_free.
      * rewrite c_str_app_nul; [apply strip_is_stripped|].
        unfold nul_free. apply skip_keeps_forallb. now apply rstrip_nul_free.
    + pose proof (rstrip_length s). rewrite length_app in H. cbn in H. lia.
  - assert (R : rstrip (s ++ [nul]) = s ++ [nul]).
    { unfold rstrip. rewrite rev_app_distr. cbn [rev app skip].
      change (isspace nul) with false. cbn iota.
      change (nul :: rev s) with (rev [nul] ++ rev s).
      now rewrite <- rev_app_distr, rev_involutive. }
    rewrite R, Nat.ltb_irrefl.
    rewrite skip_app_false by reflexivity.
    apply c_str_app_nul. unfold nul_free. now apply skip_keeps_forallb.
Qed.

Lemma trim_returned_line_witness :
  c_str (line_buffer
           (line_reader_trim
              {| stream := {| unread := []; read_error := false |};
                 err_code := 0;
                 line_buffer := lit "  cache size : 512 KB  " ++ [newline; nul];
                 capacity := 128; chunk_size := 128; chunk := [];
                 buffer := [] |}))
  = lit "cache size : 512 KB"
  /\ c_str (line_buffer
              (line_reader_trim
                 {| stream := {| unread := []; read_error := false |};
                    err_code := 0;
                    line_buffer := lit "  cache size : 512 KB  " ++ [nul; nul];
                    capacity := 128; chunk_size := 128; chunk := [];
                    buffer := [] |}))
     = lit "cache size : 512 KB  ".
Proof.
  split.
  - refine (proj1 (proj1 (trim_returned_line _
                            (lit "  cache size : 512 KB  ") newline
                            _ _ _) eq_refl)).
    + cbn. lia.
    + reflexivity.
    + reflexivity.
  - refine (proj2 (trim_returned_line _
                     (lit "  cache size : 512 KB  ") nul _ _ _) eq_refl).
    + cbn. lia.
    + reflexivity.
    + reflexivity.
Defined.

(** ** The line reader: what is returned and what is withheld *)

(** A line is returned only while bytes of the current chunk are still
    ahead. *)
Lemma nextline_loop_true_buffer (alloc_ok : nat -> bool) :
  forall (fuel : nat) (this this' : line_reader),
    nextline_loop alloc_ok fuel this = Some (true, this') ->
    buffer this' <> [].
Proof.
  induction fuel as [|fuel IH]; intros this this'; cbn [nextline_loop];
    [discriminate|].
  destruct (copy_chunk alloc_ok (buffer this) this) as [this1 done|this1];
    [|discriminate].
  destruct (buffer this1) as [|x xs] eqn:B.
  - unfold fread.
    destruct (firstn (chunk_size this1) (unread (stream this1)));
      [discriminate|apply IH].
  - destruct done; [|apply IH]. unfold grow.
    destruct (used this1 =? capacity this1)%nat.
    + destruct (alloc_ok _); [|discriminate].
      intros [= <-]. cbn. rewrite B. discriminate.
    + intros [= <-]. cbn. rewrite B. discriminate.
Qed.

Lemma nextline_true_buffer (alloc_ok : nat -> bool)
    (this this' : line_reader) :
  line_reader_nextline alloc_ok this = (true, this') -> buffer this' <> [].
Proof.
  unfold line_reader_nextline.
  destruct (nextline_loop alloc_ok _ _) as [[got r]|] eqn:E; [|discriminate].
  intros [= -> ->]. exact (nextline_loop_true_buffer _ _ _ _ E).
Qed.

Lemma read_lines_withholds (alloc_ok : nat -> bool) (heap : always alloc_ok) :
  forall (fuel : nat) (this final : line_reader) (lines : list (list ascii)),
    (0 < chunk_size this)%nat ->
    read_lines alloc_ok fuel this = Some (lines, final) ->
    bytes_ahead this <> [] ->
    line_buffer final <> [].
Proof.
  induction fuel as [|fuel IH]; intros this final lines Hc; [discriminate|].
  cbn [read_lines].
  destruct (line_reader_nextline_spec alloc_ok heap this Hc)
    as [got [this1 [seg G]]].
  destruct G as (G0 & G2 & G3 & G5 & G6). rewrite G0.
  destruct got.
  - destruct (read_lines alloc_ok fuel this1) as [[ls fin]|] eqn:R;
      [|discriminate].
    intros [= _ <-] _. apply (IH this1 fin ls); [lia|exact R|].
    pose proof (nextline_true_buffer _ _ _ G0) as B.
    unfold bytes_ahead. intros N. apply app_eq_nil in N. now destruct N.
  - intros [= _ <-] A. destruct (G6 eq_refl) as (S1 & _ & Lb & _).
    congruence.
Qed.

Lemma read_lines_closed (alloc_ok : nat -> bool) (heap : always alloc_ok) :
  forall (fuel : nat) (this final : line_reader) (lines : list (list ascii)),
    (0 < chunk_size this)%nat ->
    read_lines alloc_ok fuel this = Some (lines, final) ->
    Forall (fun l => last l space = nul) lines.
Proof.
  induction fuel as [|fuel IH]; intros this final lines Hc; [discriminate|].
  cbn [read_lines].
  destruct (line_reader_nextline_spec alloc_ok heap this Hc)
    as [got [this1 [seg G]]].
  destruct G as (G0 & G2 & G3 & G5 & G6). rewrite G0.
  destruct got; [|intros [= <- _]; constructor].
  destruct (read_lines alloc_ok fuel this1) as [[ls fin]|] eqn:R;
    [|discriminate].
  intros [= <- _]. constructor.
  - destruct (G5 eq_refl) as (_ & L & _). rewrite L. apply last_last.
  - apply (IH this1 fin); [lia|exact R].
Qed.

(** X12.  Reading a stream to the end with an allocator that never refuses,
    for any chunk size: the calls of line_reader_nextline end; every line
    returned ends in a newline or NUL followed by the closing NUL; the lines
    returned, laid end to end, followed by the bytes left in the line buffer
    by the last call, are the stream; the last call leaves error code -1
    after a read error and 0 at the end of the stream; and a stream that is
    not empty always leaves bytes in the line buffer that no call returned:
    its last line is never handed out. *)
Theorem reader_conserves_stream :
  forall (alloc_ok : nat -> bool) (f : FILE) (size : nat),
    always alloc_ok ->
    exists (this final : line_reader) (lines : list (list ascii)),
      line_reader_create alloc_ok (Some f) size = Some this
      /\ read_lines alloc_ok (S (List.length (unread f))) this
         = Some (lines, final)
      /\ List.concat (map (@removelast ascii) lines) ++ line_buffer final
         = unread f
      /\ Forall ends_in_terminator lines
      /\ Forall (fun l => last l space = nul) lines
      /\ err_code final = (if read_error f then -1 else 0)%Z
      /\ (unread f <> [] -> line_buffer final <> []).
Proof.
  intros alloc_ok f size heap.
  unfold line_reader_create. rewrite heap.
  set (this := {| stream := f |}).
  assert (Hc : (0 < chunk_size this)%nat).
  { subst this. cbn [chunk_size]. destruct (Nat.ltb_spec size 128); lia. }
  assert (Hb : bytes_ahead this = unread f) by reflexivity.
  destruct (read_lines_spec alloc_ok heap (S (List.length (unread f))) this)
    as [lines [final (R0 & R1 & R2 & R3)]]; [rewrite Hb; lia|exact Hc|].
  exists this, final, lines.
  repeat apply conj; try assumption; try reflexivity.
  - exact (read_lines_closed alloc_ok heap _ _ _ _ Hc R0).
  - intros Hne. apply (read_lines_withholds alloc_ok heap _ _ _ _ Hc R0).
    now rewrite Hb.
Qed.

Lemma reader_conserves_stream_witness :
  exists (this final : line_reader) (lines : list (list ascii)),
    line_reader_create (fun _ => true)
      (Some {| unread := lit "a" ++ [newline] ++ lit "b" ++ [newline];
               read_error := false |}) 0
    = Some this
    /\ read_lines (fun _ => true) 5 this = Some (lines, final)
    /\ List.concat (map (@removelast ascii) lines) ++ line_buffer final
       = lit "a" ++ [newline] ++ lit "b" ++ [newline]
    /\ Forall ends_in_terminator lines
    /\ Forall (fun l => last l space = nul) lines
    /\ err_code final = 0%Z
    /\ (lit "a" ++ [newline] ++ lit "b" ++ [newline] <> [] ->
        line_buffer final <> []).
Proof.
  apply (reader_conserves_stream (fun _ => true)
           {| unread := lit "a" ++ [newline] ++ lit "b" ++ [newline];
              read_error := false |} 0).
  intros n. reflexivity.
Defined.

(** ** cpuinfo_parse_file: the result *)

(** X13.  Whenever cpuinfo_parse_file returns, it returns false exactly
    when no reader could be created (the file did not open or the reader was
    not allocated), and then the record is untouched.  Once the reader
    exists the result is true, whatever ends the reading. *)
Theorem parse_file_false_only_unopened :
  forall (alloc_ok : nat -> bool) (cif cif' : cpuinfo_features)
         (proc_cpuinfo : option FILE) (ok : bool),
    cpuinfo_parse_file alloc_ok cif proc_cpuinfo = Returns ok cif' ->
    (ok = false <-> line_reader_create alloc_ok proc_cpuinfo 0 = None)
    /\ (ok = false -> cif' = cif).
Proof.
  intros alloc_ok cif cif' fo ok. unfold cpuinfo_parse_file.
  destruct (line_reader_create alloc_ok fo 0) as [this|] eqn:C.
  - destruct (parse_file_loop alloc_ok _ cif this) as [o|] eqn:P.
    + intros ->. apply parse_file_loop_true in P. subst ok.
      split; [split|]; discriminate.
    + intros [= <- <-]. split; [split|]; discriminate.
  - intros [= <- <-]. split; [split|]; reflexivity.
Qed.

Lemma parse_file_false_only_unopened_witness :
  (false = false
   <-> line_reader_create (fun _ => true) None 0 = None)
  /\ (false = false -> cpuinfo_features_init = cpuinfo_features_init).
Proof.
  apply (parse_file_false_only_unopened (fun _ => true)
           cpuinfo_features_init cpuinfo_features_init None false).
  reflexivity.
Defined.

(** X14.  When the allocator grants the reader but refuses the line
    buffer, the first line_reader_nextline of a stream that is not empty
    returns NULL with error code ENOMEM, and cpuinfo_parse_file returns true
    with the record as it was. *)
Theorem parse_file_out_of_memory :
  forall (alloc_ok : nat -> bool) (cif : cpuinfo_features) (f : FILE),
    alloc_ok (sizeof_line_reader + 128)%nat = true ->
    alloc_ok 128%nat = false ->
    unread f <> [] ->
    cpuinfo_parse_file alloc_ok cif (Some f) = Returns true cif
    /\ exists this this' : line_reader,
         line_reader_create alloc_ok (Some f) 0 = Some this
         /\ line_reader_nextline alloc_ok this = (false, this')
         /\ err_code this' = ENOMEM.
Proof.
  intros alloc_ok cif f Hr Hl Hne.
  assert (N : exists this',
             line_reader_nextline alloc_ok
               {| stream := f; err_code := 0; line_buffer := [];
                  capacity := 0; chunk_size := 128; chunk := [];
                  buffer := [] |} = (false, this')
             /\ err_code this' = ENOMEM).
  { unfold line_reader_nextline.
    cbn [with_line stream capacity err_code chunk_size chunk buffer].
    destruct f as [bytes e]. cbn [unread] in *.
    destruct bytes as [|b bytes]; [congruence|].
    cbn [List.length nextline_loop buffer copy_chunk with_buffer with_line
         stream chunk_size fread unread firstn with_stream].
    unfold grow, used.
    cbn [line_buffer List.length capacity Nat.eqb with_stream with_buffer
         with_line].
    rewrite Hl. eexists. split; reflexivity. }
  destruct N as [this' [N1 N2]].
  unfold cpuinfo_parse_file, line_reader_create.
  cbn [Nat.ltb Nat.leb]. rewrite Hr. split.
  - cbn [parse_file_loop]. now rewrite N1.
  - eexists _, this'. repeat apply conj; [reflexivity|exact N1|exact N2].
Qed.

Lemma parse_file_out_of_memory_witness :
  cpuinfo_parse_file (fun n => negb (n =? 128)%nat) cpuinfo_features_init
    (Some {| unread := lit "flags : sse" ++ [newline; newline];
             read_error := false |})
  = Returns true cpuinfo_features_init.
Proof.
  refine (proj1 (parse_file_out_of_memory (fun n => negb (n =? 128)%nat)
                   cpuinfo_features_init
                   {| unread := lit "flags : sse" ++ [newline; newline];
                      read_error := false |} _ _ _)).
  - reflexivity.
  - reflexivity.
  - discriminate.
Defined.

(** ** node_features_p_node_xlate: what is appended *)

Lemma node_xlate_body_fold_fresh (pci : bool) (toks : list cstring) :
  (forall t, In t toks ->
             t <> [] /\ forallb (not_delim (lit ",")) t = true) ->
  forall out : cstring,
  exists added : list cstring,
    fold_left (node_xlate_body pci) toks (Some out, lit ",")
    = (Some (out ++ List.concat (map (fun t => lit "," ++ t) added)), lit ",")
    /\ NoDup added
    /\ (forall t, In t added ->
          In t toks
          /\ node_features_p_changible_feature pci t = false
          /\ ~ In t (tokens (lit ",") out))
    /\ ((forall t, In t toks ->
                   node_features_p_changible_feature pci t = false ->
                   In t (tokens (lit ",") out)) ->
        added = []).
Proof.
  induction toks as [|t toks IH]; intros Hv out.
  - exists []. cbn. rewrite app_nil_r.
    repeat apply conj; try reflexivity; [constructor|intros t []].
  - assert (Hv' : forall u, In u toks ->
                    u <> [] /\ forallb (not_delim (lit ",")) u = true)
      by (intros u Hu; apply Hv; now right).
    specialize (IH Hv').
    cbn [fold_left]. unfold node_xlate_body at 2.
    fold (node_features_p_changible_feature pci t).
    destruct (node_features_p_changible_feature pci t) eqn:Ours; cbn [negb].
    + destruct (IH out) as (added & E & N & H & Z). exists added.
      repeat apply conj; try assumption.
      * intros u Hu. destruct (H u Hu) as (H1 & H2 & H3).
        repeat apply conj; [now right|assumption|assumption].
      * intros K. apply Z. intros u Hu. apply K. now right.
    + cbn [fst].
      destruct (contains_str (Some out) t (Some (lit ","))) eqn:C;
        cbn [negb].
      * destruct (IH out) as (added & E & N & H & Z). exists added.
        repeat apply conj; try assumption.
        -- intros u Hu. destruct (H u Hu) as (H1 & H2 & H3).
           repeat apply conj; [now right|assumption|assumption].
        -- intros K. apply Z. intros u Hu. apply K. now right.
      * assert (Ht : ~ In t (tokens (lit ",") out)).
        { intros I.
          apply (contains_str_whole_token out t (Some (lit ","))) in I.
          congruence. }
        destruct (Hv t (or_introl eq_refl)) as [Hne Hnd].
        assert (T : tokens (lit ",") (out ++ lit "," ++ t)
                    = tokens (lit ",") out ++ [t]).
        { change (out ++ lit "," ++ t) with (out ++ ","%char :: t).
          rewrite tokens_app by reflexivity.
          now rewrite (tokens_single (lit ",") t). }
        unfold append_feature. cbn [fst snd xstrfmtcat].
        destruct (IH (out ++ lit "," ++ t)) as (added & E & N & H & Z).
        exists (t :: added). repeat apply conj.
        -- refine (eq_trans E _). cbn [map List.concat].
           now rewrite <- !app_assoc.
        -- constructor; [|exact N]. intros I.
           destruct (H t I) as (_ & _ & H3). apply H3. rewrite T.
           apply in_or_app. right. now left.
        -- intros u [<-|Hu]; [repeat apply conj; [now left|assumption|]|].
           ++ exact Ht.
           ++ destruct (H u Hu) as (H1 & H2 & H3).
              repeat apply conj; [now right|assumption|].
              intros I. apply H3. rewrite T. apply in_or_app. now left.
        -- intros K. exfalso. apply Ht. apply K; [now left|exact Ours].
Qed.

(** X15.  What node_features_p_node_xlate appends to a new list that is not
    empty: tokens of the original list that the plugin does not own and that
    are not tokens of the new list, each of them once.  So a new list
    without repeated features gives a merged list without repeated
    features. *)
Theorem node_xlate_adds_each_once :
  forall (pci : bool) (new_features : cstring)
         (orig_features avail_features : option cstring),
    new_features <> [] ->
    exists added : list cstring,
      feature_tokens
        (node_features_p_node_xlate pci (Some new_features) orig_features
           avail_features)
      = feature_tokens (Some new_features) ++ added
      /\ NoDup added
      /\ (forall t, In t added ->
            In t (feature_tokens orig_features)
            /\ node_features_p_changible_feature pci t = false
            /\ ~ In t (feature_tokens (Some new_features)))
      /\ (NoDup (feature_tokens (Some new_features)) ->
          NoDup (feature_tokens
                   (node_features_p_node_xlate pci (Some new_features)
                      orig_features avail_features))).
Proof.
  intros pci new orig avail Hnew.
  assert (G : exists added : list cstring,
             feature_tokens
               (node_features_p_node_xlate pci (Some new) orig avail)
             = feature_tokens (Some new) ++ added
             /\ NoDup added
             /\ (forall t, In t added ->
                   In t (feature_tokens orig)
                   /\ node_features_p_changible_feature pci t = false
                   /\ ~ In t (feature_tokens (Some new)))).
  { unfold node_features_p_node_xlate.
    destruct new as [|c new]; [congruence|]. cbn [is_empty].
    destruct orig as [[|o orig]|]; cbn [is_empty xstrdup].
    - exists []. rewrite app_nil_r.
      repeat apply conj; [reflexivity|constructor|intros t []].
    - rewrite strtok_while_fold.
      destruct (node_xlate_body_fold_fresh pci (tokens (lit ",") (o :: orig))
                  (fun t Ht => tokens_spec _ _ _ Ht) (c :: new))
        as (added & E & N & H & _).
      exists added. repeat apply conj; [|exact N|exact H].
      unfold xstrdup.
      refine (eq_trans (f_equal (fun st => feature_tokens (fst st)) E) _).
      cbn [fst feature_tokens].
      apply (tokens_of_appended (lit ",") ","%char); [reflexivity|].
      intros t Ht. destruct (H t Ht) as (H1 & _).
      exact (tokens_spec _ _ _ H1).
    - exists []. rewrite app_nil_r.
      repeat apply conj; [reflexivity|constructor|intros t []]. }
  destruct G as (added & E & N & H). exists added.
  repeat apply conj; try assumption.
  intros Nn. rewrite E. clear E.
  remember (feature_tokens (Some new)) as l eqn:Hl0. clear Hl0.
  revert H Nn. induction l as [|x l IH]; intros H Nl; [exact N|].
  cbn [app]. inversion Nl as [|? ? Hx Hl]; subst.
  constructor.
  - intros I. apply in_app_or in I. destruct I as [I|I]; [now apply Hx|].
    destruct (H x I) as (_ & _ & H3). apply H3. now left.
  - apply IH; [|exact Hl]. intros t Ht.
    destruct (H t Ht) as (H1 & H2 & H3). repeat apply conj; try assumption.
    intros I. apply H3. now right.
Qed.

Lemma node_xlate_adds_each_once_witness :
  exists added : list cstring,
    feature_tokens
      (node_features_p_node_xlate false (Some (lit "ISA::avx2,Gen1"))
         (Some (lit "Gen1,ISA::sse,rack7,Gen1,rack7")) None)
    = feature_tokens (Some (lit "ISA::avx2,Gen1")) ++ added
    /\ NoDup added
    /\ (forall t, In t added ->
          In t (feature_tokens (Some (lit "Gen1,ISA::sse,rack7,Gen1,rack7")))
          /\ node_features_p_changible_feature false t = false
          /\ ~ In t (feature_tokens (Some (lit "ISA::avx2,Gen1"))))
    /\ (NoDup (feature_tokens (Some (lit "ISA::avx2,Gen1"))) ->
        NoDup (feature_tokens
                 (node_features_p_node_xlate false
                    (Some (lit "ISA::avx2,Gen1"))
                    (Some (lit "Gen1,ISA::sse,rack7,Gen1,rack7")) None))).
Proof.
  apply (node_xlate_adds_each_once false (lit "ISA::avx2,Gen1")
           (Some (lit "Gen1,ISA::sse,rack7,Gen1,rack7")) None).
  discriminate.
Defined.

(** X16.  When every token of the original list that the plugin does not
    own is already a token of the new list, node_features_p_node_xlate
    returns the new list as it is.  In particular merging a list with
    itself gives that list. *)
Theorem node_xlate_nothing_to_add :
  forall (pci : bool) (new_features : cstring)
         (orig_features avail_features : option cstring),
    new_features <> [] ->
    (forall t, In t (feature_tokens orig_features) ->
               node_features_p_changible_feature pci t = false ->
               In t (feature_tokens (Some new_features))) ->
    node_features_p_node_xlate pci (Some new_features) orig_features
      avail_features
    = Some new_features.
Proof.
  intros pci new orig avail Hnew K.
  unfold node_features_p_node_xlate.
  destruct new as [|c new]; [congruence|]. cbn [is_empty].
  destruct orig as [[|o orig]|]; cbn [is_empty xstrdup]; try reflexivity.
  rewrite strtok_while_fold.
  destruct (node_xlate_body_fold_fresh pci (tokens (lit ",") (o :: orig))
              (fun t Ht => tokens_spec _ _ _ Ht) (c :: new))
    as (added & E & _ & _ & Z).
  rewrite (Z K) in E. unfold xstrdup.
  refine (eq_trans (f_equal fst E) _). cbn [fst map List.concat].
  now rewrite app_nil_r.
Qed.

Lemma node_xlate_nothing_to_add_witness :
  node_features_p_node_xlate false (Some (lit "Gen1,ISA::avx2,rack7"))
    (Some (lit "Gen1,ISA::avx2,rack7")) None
  = Some (lit "Gen1,ISA::avx2,rack7").
Proof.
  apply (node_xlate_nothing_to_add false (lit "Gen1,ISA::avx2,rack7")
           (Some (lit "Gen1,ISA::avx2,rack7")) None).
  - discriminate.
  - intros t Ht _. exact Ht.
Defined.

(** ** node_features_p_job_xlate: no owned token *)

Lemma c_str_cut (x y : list ascii) : c_str (x ++ nul :: y) = c_str x.
Proof.
  induction x as [|c x IH]; [reflexivity|]. cbn [app c_str].
  destruct (Ascii.eqb c nul); [reflexivity|now rewrite IH].
Qed.

Lemma c_str_nul_free (x : list ascii) : nul_free x = true -> c_str x = x.
Proof.
  induction x as [|c x IH]; [reflexivity|]. cbn [nul_free forallb c_str].
  intros H. apply andb_prop in H. destruct H as [Hc Hx].
  destruct (Ascii.eqb c nul); [discriminate|]. f_equal. now apply IH.
Qed.

Lemma take_keeps_forallb (f g : ascii -> bool) (l : cstring) :
  forallb f l = true -> forallb f (take g l) = true.
Proof.
  induction l as [|c l IH]; [reflexivity|]. cbn [forallb take].
  intros H. apply andb_prop in H. destruct H as [Hc Hl].
  destruct (g c); [|reflexivity]. cbn [forallb]. now rewrite Hc, IH.
Qed.

(** The buffer a strtok_r loop leaves behind: what was scanned at the
    start, then more; nothing more when nothing was ahead. *)
Lemma strtok_loop_buffer {A : Type} (d : cstring) (body : A -> cstring -> A) :
  forall (fuel : nat) (b b' : strtok_buf) (acc r : A),
    strtok_loop fuel d body b acc = Some (r, b') ->
    exists more : list ascii,
      scanned b' ++ save_ptr b' = scanned b ++ more
      /\ (save_ptr b = [] -> more = []).
Proof.
  induction fuel as [|fuel IH]; intros b b' acc r; cbn [strtok_loop];
    [discriminate|].
  unfold strtok_r.
  destruct (skip (is_delim d) (save_ptr b)) as [|x s] eqn:E.
  - intros [= _ <-]. cbn [scanned save_ptr].
    exists (take (is_delim d) (save_ptr b)). split.
    + now rewrite app_nil_r.
    + now intros ->.
  - assert (Hs : save_ptr b <> []) by (intros N; now rewrite N in E).
    destruct (skip (not_delim d) (x :: s)) as [|y rest]; intros H;
      apply IH in H; destruct H as (more & H1 & H2);
      cbn [scanned save_ptr] in H1, H2.
    + rewrite (H2 eq_refl), app_nil_r in H1. rewrite H1.
      eexists. split; [reflexivity|]. intros N. now elim Hs.
    + rewrite H1. rewrite <- !app_assoc.
      eexists. split; [reflexivity|]. intros N. now elim Hs.
Qed.

(** X17.  When no token of a job's feature expression is owned by the
    plugin, node_features_p_job_xlate does not return NULL: it returns its
    private copy, cut by strtok_r at the first separator after the first
    token, that is the leading ampersands and the first token of the
    expression. *)
Theorem job_xlate_without_owned_token :
  forall (pci : bool) (job_features : cstring),
    job_features <> [] ->
    nul_free job_features = true ->
    filter (node_features_p_changible_feature pci)
      (tokens (lit "&") job_features) = [] ->
    node_features_p_job_xlate pci (Some job_features)
    = Some (take (is_delim (lit "&")) job_features
            ++ take (not_delim (lit "&"))
                 (skip (is_delim (lit "&")) job_features)).
Proof.
  intros pci s Hne Hnul Hown. unfold node_features_p_job_xlate.
  destruct s as [|c s]; [now elim Hne|].
  pose proof (strtok_while_fold (lit "&") (job_xlate_body pci) (c :: s)
                (None, empty)) as F.
  rewrite job_xlate_body_fold, Hown in F. cbn [fold_left] in F.
  assert (B : buf_str (snd (strtok_while (lit "&") (job_xlate_body pci)
                              (c :: s) (None, empty)))
              = c_str (take (is_delim (lit "&")) (c :: s)
                       ++ take (not_delim (lit "&"))
                            (skip (is_delim (lit "&")) (c :: s)))).
  { unfold strtok_while, buf_str.
    destruct (strtok_loop_fold (lit "&") (job_xlate_body pci)
                (S (strlen (c :: s))) (strtok_start (c :: s)) (None, empty))
      as [b' L]; [cbn [strtok_start save_ptr]; lia|].
    rewrite L. cbn [snd].
    revert L. generalize (strlen (c :: s)) as n. intros n.
    cbn [strtok_loop]. unfold strtok_r.
    cbn [strtok_start save_ptr scanned app].
    set (s0 := c :: s).
    destruct (skip (is_delim (lit "&")) s0) as [|x s1] eqn:E.
    - intros [= _ <-]. cbn [scanned save_ptr take]. reflexivity.
    - destruct (skip (not_delim (lit "&")) (x :: s1)) as [|y rest];
        intros L; apply strtok_loop_buffer in L;
        destruct L as (more & L1 & L2); cbn [scanned save_ptr] in L1, L2;
        rewrite L1.
      + now rewrite (L2 eq_refl), app_nil_r.
      + rewrite <- !app_assoc. rewrite !app_assoc.
        rewrite <- (app_assoc _ [nul] more). cbn [app].
        apply c_str_cut. }
  destruct (strtok_while (lit "&") (job_xlate_body pci) (c :: s)
              (None, empty)) as [st copy].
  cbn [fst snd] in F, B. rewrite F. cbn [fst]. rewrite B.
  f_equal. apply c_str_nul_free. unfold nul_free in *.
  rewrite forallb_app. apply andb_true_intro. split.
  - now apply take_keeps_forallb.
  - apply take_keeps_forallb. now apply skip_keeps_forallb.
Qed.

Lemma job_xlate_without_owned_token_witness :
  node_features_p_job_xlate false (Some (lit "&&Gen1&rack7&Gen2"))
  = Some (lit "&&Gen1").
Proof.
  apply (job_xlate_without_owned_token false (lit "&&Gen1&rack7&Gen2")).
  - discriminate.
  - reflexivity.
  - reflexivity.
Defined.

(** ** Rendered features are the plugin's own *)

Lemma str_startswith_own (prefix rest : cstring) :
  str_startswith (prefix ++ rest) prefix
    (Z.of_nat (strlen (prefix ++ rest))) = true.
Proof.
  unfold str_startswith.
  destruct (Z.ltb_spec (Z.of_nat (strlen (prefix ++ rest))) 0) as [H|_];
    [lia|].
  rewrite Nat2Z.id. apply str_startswith_loop_spec.
  exists rest. apply firstn_all.
Qed.

Lemma is_str_ours_own (pci : bool) (prefix rest : cstring) :
  In prefix (map lit ["VENDOR::"; "MODEL::"; "CACHE::"; "ISA::"]%string) ->
  cpuinfo_features_is_str_ours pci (prefix ++ rest) (-1) = true.
Proof.
  intros H. unfold cpuinfo_features_is_str_ours.
  change (-1 <=? 0)%Z with true. cbn iota.
  cbn [map In] in H.
  destruct H as [<-|[<-|[<-|[<-|[]]]]];
    repeat match goal with
    | |- context [str_startswith (?p ++ rest) ?p ?n] =>
        rewrite (str_startswith_own p rest)
    | |- (if ?b then true else _) = true => destruct b; [reflexivity|]
    end; reflexivity.
Qed.

(** Each feature rendered from the record starts with one of the plugin's
    prefixes. *)
Lemma rendered_features_ours (pci : bool) (cif : cpuinfo_features)
    (x : cstring) :
  In x (rendered_features cif) ->
  node_features_p_changible_feature pci x = true.
Proof.
  intros H. unfold node_features_p_changible_feature.
  unfold rendered_features in H.
  apply in_app_or in H. destruct H as [H|H];
    [|apply in_app_or in H; destruct H as [H|H];
      [|apply in_app_or in H; destruct H as [H|H]]].
  - unfold vendor_feature in H. destruct (vendor_id cif); [|destruct H].
    destruct H as [<-|[]]. apply is_str_ours_own. cbn. tauto.
  - unfold model_feature in H. destruct (model_name cif); [|destruct H].
    destruct H as [<-|[]]. apply is_str_ours_own. cbn. tauto.
  - unfold cache_feature in H. destruct (model_name cif); [|destruct H].
    destruct H as [<-|[]]. unfold cache_text.
    apply is_str_ours_own. cbn. tauto.
  - unfold isa_features in H. apply isa_features_from_prefix in H.
    destruct H as [name ->]. apply is_str_ours_own. cbn. tauto.
Qed.

(** ** pci_device_lookup *)

(** With the tables of the file the two inner loops look the device up and
    append its feature unless strstr finds it in the list. *)
Lemma vendors_loop_known
    (fmtcat : option cstring -> cstring -> option cstring)
    (device : Pci.pci_device) (st : option cstring * cstring) :
  Pci.vendors_loop fmtcat Pci.pci_known_devices device st
  = match pci_feature_of device with
    | None => st
    | Some n =>
        if Pci.not_listed (fst st) n
        then (fmtcat (fst st) (snd st ++ n), lit ",")
        else st
    end.
Proof.
  destruct device as [v i]. unfold pci_feature_of, Pci.pci_known_devices.
  pci_table_cases v i; reflexivity.
Qed.

Lemma pci_feature_of_names (device : Pci.pci_device) (n : cstring) :
  pci_feature_of device = Some n -> In n pci_feature_names.
Proof.
  destruct device as [v i]. unfold pci_feature_of, Pci.pci_known_devices.
  pci_table_cases v i; intros [= <-]; cbn; tauto.
Qed.

Lemma strstr_at_start (n h : cstring) :
  starts_with n h = true -> strstr h n = Some h.
Proof. intros H. destruct h; cbn [strstr]; now rewrite H. Qed.

(** No feature name of the tables occurs inside another one, nor across a
    comma that follows one. *)
Lemma pci_names_apart (t n : cstring) :
  In t pci_feature_names -> In n pci_feature_names -> t <> n ->
  strstr t n = None
  /\ forall rest : cstring, strstr (t ++ ","%char :: rest) n = strstr rest n.
Proof.
  unfold pci_feature_names. cbn [map In]. intros Ht Hn Hd.
  repeat match goal with
         | H : _ \/ _ |- _ => destruct H as [H|H]
         | H : False |- _ => destruct H
         end;
    subst; try congruence; split; reflexivity.
Qed.

(** A comma in front does not hide a feature name of the tables, nor make
    another one appear. *)
Lemma pci_names_after_comma (t n : cstring) :
  In t pci_feature_names -> In n pci_feature_names ->
  strstr (","%char :: t) n = strstr t n.
Proof.
  unfold pci_feature_names. cbn [map In]. intros Ht Hn.
  repeat match goal with
         | H : _ \/ _ |- _ => destruct H as [H|H]
         | H : False |- _ => destruct H
         end;
    subst; reflexivity.
Qed.

Lemma pci_names_self (n : cstring) :
  In n pci_feature_names -> strstr n n = Some n /\ exists c r, n = c :: r.
Proof.
  unfold pci_feature_names. cbn [map In]. intros Hn.
  repeat match goal with
         | H : _ \/ _ |- _ => destruct H as [H|H]
         | H : False |- _ => destruct H
         end;
    subst; (split; [reflexivity|eexists _, _; reflexivity]).
Qed.

Lemma pci_features_of_names (devices : list Pci.pci_device) (n : cstring) :
  In n (pci_features_of devices) -> In n pci_feature_names.
Proof.
  unfold pci_features_of. rewrite in_flat_map. intros (d & _ & H).
  destruct (pci_feature_of d) as [m|] eqn:F; [|destruct H].
  destruct H as [<-|[]]. exact (pci_feature_of_names d m F).
Qed.

(** The device loop of the test program: after each device the list holds
    the feature met last, behind a comma once a second feature has been
    written. *)
Lemma pci_devices_fold_test_build (devices : list Pci.pci_device) :
  let st := fold_left
              (fun st device =>
                 Pci.vendors_loop _xstrfmtcat Pci.pci_known_devices device st)
              devices (None, empty) in
  match rev (pci_features_of devices) with
  | [] => st = (None, empty)
  | n :: _ =>
      snd st = lit ","
      /\ (fst st = Some n \/ fst st = Some (lit "," ++ n))
      /\ ((forall x, In x (pci_features_of devices) -> x = n) ->
          fst st = Some n)
      /\ ((exists x, In x (pci_features_of devices) /\ x <> n) ->
          fst st = Some (lit "," ++ n))
  end.
Proof.
  induction devices as [|d devices IH] using rev_ind; [reflexivity|].
  cbv zeta in *. rewrite fold_left_app. cbn [fold_left].
  unfold pci_features_of in *. rewrite flat_map_app. cbn [flat_map].
  rewrite app_nil_r, vendors_loop_known.
  fold (pci_features_of devices) in *.
  destruct (pci_feature_of d) as [m|] eqn:F;
    [|rewrite app_nil_r; exact IH].
  pose proof (pci_feature_of_names d m F) as Hm.
  destruct (pci_names_self m Hm) as (Sm & c & r & Em).
  rewrite rev_app_distr. cbn [rev app].
  remember (fold_left
              (fun st device =>
                 Pci.vendors_loop _xstrfmtcat Pci.pci_known_devices device st)
              devices (None, empty)) as st eqn:Est. clear Est.
  destruct (rev (pci_features_of devices)) as [|n l] eqn:R.
  - subst st. cbn [fst snd Pci.not_listed app _xstrfmtcat].
    assert (E : pci_features_of devices = []).
    { rewrite <- (rev_involutive (pci_features_of devices)), R.
      reflexivity. }
    rewrite E. cbn [app].
    assert (W : _xstrfmtcat None (empty ++ m) = Some m)
      by (now rewrite Em).
    rewrite W. cbn [fst snd].
    repeat apply conj; [reflexivity|now left|reflexivity|].
    intros (x & [<-|[]] & D). congruence.
  - destruct IH as (I1 & I2 & I3 & I4).
    assert (Hn : In n (pci_features_of devices)).
    { apply in_rev. rewrite R. now left. }
    pose proof (pci_features_of_names devices n Hn) as Nn.
    destruct st as [fl dl]. cbn [fst snd] in *. subst dl.
    destruct (list_eq_dec ascii_dec n m) as [->|D].
    + assert (L : Pci.not_listed fl m = false).
      { destruct I2 as [->| ->]; cbn [Pci.not_listed app].
        - now rewrite Sm.
        - change (lit "," ++ m) with (","%char :: m).
          now rewrite (pci_names_after_comma m m Hm Hm), Sm. }
      rewrite L. cbn [fst snd].
      repeat apply conj; [reflexivity|exact I2| |].
      * intros A. apply I3. intros x Hx. apply A.
        apply in_or_app. now left.
      * intros (x & Hx & Dx). apply I4. exists x. split; [|exact Dx].
        apply in_app_or in Hx. destruct Hx as [Hx|[<-|[]]];
          [exact Hx|congruence].
    + assert (L : Pci.not_listed fl m = true).
      { destruct (pci_names_apart n m Nn Hm D) as [A _].
        destruct I2 as [->| ->]; cbn [Pci.not_listed app].
        - now rewrite A.
        - change (lit "," ++ n) with (","%char :: n).
          now rewrite (pci_names_after_comma n m Nn Hm), A. }
      rewrite L. cbn [fst snd].
      assert (W : _xstrfmtcat fl (lit "," ++ m) = Some (lit "," ++ m))
        by reflexivity.
      rewrite W.
      repeat apply conj; [reflexivity|now right| |reflexivity].
      intros A. elim D. apply A. apply in_or_app. now left.
Qed.

(** X19.  pci_device_lookup in the test program, the one build of the file
    in which the xstrfmtcat it calls is declared before the call (it is the
    file's own _xstrfmtcat there), with the tables of the file and the
    output string NULL as main passes it.  When initialising PCI access
    fails it returns false and stores nothing.  Otherwise it returns true,
    marks PCI access as initialised and stores: NULL when no device is
    listed in the tables; else the feature of the last listed device, and
    only that one, with a comma in front exactly when some listed device
    has another feature than the last one. *)
Theorem pci_device_lookup_known_devices :
  forall (is_pci_inited : bool) (pci_system_init : Z)
         (devices : list Pci.pci_device),
    (is_pci_inited = false -> pci_system_init <> 0%Z ->
     Pci.pci_device_lookup _xstrfmtcat Pci.pci_known_devices is_pci_inited
       pci_system_init devices (Some None)
     = (false, false, Some None))
    /\ (is_pci_inited = true \/ pci_system_init = 0%Z ->
        exists features : option cstring,
          Pci.pci_device_lookup _xstrfmtcat Pci.pci_known_devices
            is_pci_inited pci_system_init devices (Some None)
          = (true, true, Some features)
          /\ match rev (pci_features_of devices) with
             | [] => features = None
             | n :: _ =>
                 ((forall x, In x (pci_features_of devices) -> x = n) ->
                  features = Some n)
                 /\ ((exists x, In x (pci_features_of devices) /\ x <> n) ->
                     features = Some (lit "," ++ n))
             end).
Proof.
  intros inited rc devices. split.
  - intros -> H. unfold Pci.pci_device_lookup.
    apply Z.eqb_neq in H. now rewrite H.
  - intros H. unfold Pci.pci_device_lookup.
    assert (G : negb inited && negb (rc =? 0)%Z = false).
    { destruct H as [->| ->]; [reflexivity|].
      now rewrite Z.eqb_refl, andb_false_r. }
    rewrite G. eexists. split; [reflexivity|].
    pose proof (pci_devices_fold_test_build devices) as P.
    cbv zeta in P.
    destruct (rev (pci_features_of devices)) as [|n l].
    + now rewrite P.
    + destruct P as (_ & _ & P3 & P4). split; assumption.
Qed.

Lemma pci_device_lookup_known_devices_witness :
  Pci.pci_device_lookup _xstrfmtcat Pci.pci_known_devices false 0
    [ {| Pci.dev_vendor_id := 0x10de; Pci.dev_device_id := 0x1db5 |};
      {| Pci.dev_vendor_id := 0x8086; Pci.dev_device_id := 0x1db5 |};
      {| Pci.dev_vendor_id := 0x10de; Pci.dev_device_id := 0x1db6 |};
      {| Pci.dev_vendor_id := 0x1002; Pci.dev_device_id := 0x738c |} ]
    (Some None)
  = (true, true, Some (Some (lit ",PCI::GPU::MI100")))
  /\ Pci.pci_device_lookup _xstrfmtcat Pci.pci_known_devices false 5
       [ {| Pci.dev_vendor_id := 0x10de; Pci.dev_device_id := 0x1db5 |} ]
       (Some None)
     = (false, false, Some None).
Proof.
  split.
  - destruct (proj2 (pci_device_lookup_known_devices false 0
                       [ {| Pci.dev_vendor_id := 0x10de;
                            Pci.dev_device_id := 0x1db5 |};
                         {| Pci.dev_vendor_id := 0x8086;
                            Pci.dev_device_id := 0x1db5 |};
                         {| Pci.dev_vendor_id := 0x10de;
                            Pci.dev_device_id := 0x1db6 |};
                         {| Pci.dev_vendor_id := 0x1002;
                            Pci.dev_device_id := 0x738c |} ])
                    (or_intror eq_refl)) as (features & E & M).
    cbn in M. destruct M as [_ M]. rewrite E, M; [reflexivity|].
    exists (lit "PCI::GPU::V100"). split; [now left|discriminate].
  - apply (proj1 (pci_device_lookup_known_devices false 5 _)).
    + reflexivity.
    + discriminate.
Defined.

(** X20.  The same lookup in the test program, where xstrfmtcat is the
    file's own _xstrfmtcat: that one writes over the string instead of
    adding to it, so the lookup never reports more than one feature, however
    many listed devices are found. *)
Theorem pci_device_lookup_test_build :
  forall (is_pci_inited : bool) (pci_system_init : Z)
         (devices : list Pci.pci_device),
    is_pci_inited = true \/ pci_system_init = 0%Z ->
    exists features : option cstring,
      Pci.pci_device_lookup _xstrfmtcat Pci.pci_known_devices is_pci_inited
        pci_system_init devices (Some None)
      = (true, true, Some features)
      /\ (List.length (feature_tokens features) <= 1)%nat.
Proof.
  intros inited rc devices H. unfold Pci.pci_device_lookup.
  assert (G : negb inited && negb (rc =? 0)%Z = false).
  { destruct H as [->| ->]; [reflexivity|].
    now rewrite Z.eqb_refl, andb_false_r. }
  rewrite G. eexists. split; [reflexivity|].
  assert (I : forall st : option cstring * cstring,
             (st = (None, empty)
              \/ exists n, In n pci_feature_names
                           /\ (st = (Some n, lit ",")
                               \/ st = (Some (lit "," ++ n), lit ","))) ->
             (List.length
                (feature_tokens
                   (fst (fold_left
                           (fun st device =>
                              Pci.vendors_loop _xstrfmtcat
                                Pci.pci_known_devices device st)
                           devices st))) <= 1)%nat).
  { induction devices as [|d devices IH]; intros st Hst.
    - cbn [fold_left].
      destruct Hst as [->|[n [Hn [->| ->]]]]; [cbn; lia| |];
        unfold pci_feature_names in Hn; cbn [map In] in Hn;
        repeat match goal with
               | H : _ \/ _ |- _ => destruct H as [H|H]
               | H : False |- _ => destruct H
               end; subst; vm_compute; lia.
    - cbn [fold_left]. apply IH. rewrite vendors_loop_known.
      destruct (pci_feature_of d) as [m|] eqn:F; [|exact Hst].
      destruct (Pci.not_listed (fst st) m); [|exact Hst].
      pose proof (pci_feature_of_names d m F) as Hm.
      right. exists m. split; [exact Hm|].
      assert (Hne : exists c r, m = c :: r).
      { unfold pci_feature_names in Hm. cbn [map In] in Hm.
        repeat match goal with
               | H : _ \/ _ |- _ => destruct H as [H|H]
               | H : False |- _ => destruct H
               end; subst; eexists _, _; reflexivity. }
      destruct Hne as (c & r & ->).
      destruct Hst as [->|[n [Hn [->| ->]]]]; cbn [fst snd].
      + left. reflexivity.
      + right. reflexivity.
      + right. reflexivity. }
  apply I. now left.
Qed.

Lemma pci_device_lookup_test_build_witness :
  exists features : option cstring,
    Pci.pci_device_lookup _xstrfmtcat Pci.pci_known_devices false 0
      [ {| Pci.dev_vendor_id := 0x10de; Pci.dev_device_id := 0x1db5 |};
        {| Pci.dev_vendor_id := 0x1002; Pci.dev_device_id := 0x738c |} ]
      (Some None)
    = (true, true, Some features)
    /\ (List.length (feature_tokens features) <= 1)%nat.
Proof.
  apply (pci_device_lookup_test_build false 0).
  right. reflexivity.
Defined.

(** ** node_features_p_node_state *)

Lemma string_of_uint_comma_free (u : Decimal.uint) :
  forallb (not_delim (lit ",")) (lit (NilZero.string_of_uint u)) = true.
Proof.
  assert (G : forallb (not_delim (lit ","))
                (lit (NilEmpty.string_of_uint u)) = true)
    by (induction u; cbn; auto).
  destruct u; try exact G; reflexivity.
Qed.

Lemma isa_features_from_comma_free (names : list cstring) (fl : Z)
    (x : cstring) :
  forallb (fun name => forallb (not_delim (lit ",")) name) names = true ->
  forall i : Z,
    In x (isa_features_from i names fl) ->
    forallb (not_delim (lit ",")) x = true.
Proof.
  induction names as [|name names IH]; intros Hn i; [intros []|].
  cbn [forallb] in Hn. apply andb_prop in Hn. destruct Hn as [H1 H2].
  cbn [isa_features_from]. intros H. apply in_app_or in H.
  destruct H as [H|H]; [|exact (IH H2 _ H)].
  destruct (Z.testbit fl i); [|destruct H].
  destruct H as [<-|[]]. rewrite forallb_app. now rewrite H1.
Qed.

(** The rendered features can stand in a comma-separated list when the
    vendor and the model name can. *)
Lemma rendered_features_tokens (cif : cpuinfo_features) (x : cstring) :
  comma_free (vendor_id cif) -> comma_free (model_name cif) ->
  In x (rendered_features cif) ->
  x <> [] /\ forallb (not_delim (lit ",")) x = true.
Proof.
  intros Hv Hm H. unfold rendered_features in H.
  apply in_app_or in H. destruct H as [H|H];
    [|apply in_app_or in H; destruct H as [H|H];
      [|apply in_app_or in H; destruct H as [H|H]]].
  - unfold vendor_feature in H. destruct (vendor_id cif); [|destruct H].
    destruct H as [<-|[]]. split; [discriminate|].
    rewrite forallb_app. now rewrite Hv.
  - unfold model_feature in H. destruct (model_name cif); [|destruct H].
    destruct H as [<-|[]]. split; [discriminate|].
    rewrite forallb_app. now rewrite Hm.
  - unfold cache_feature in H. destruct (model_name cif); [|destruct H].
    destruct H as [<-|[]]. unfold cache_text. split; [discriminate|].
    rewrite !forallb_app. unfold fmt_unsigned.
    now rewrite string_of_uint_comma_free.
  - split.
    + apply isa_features_from_prefix in H. destruct H as [name ->].
      discriminate.
    + unfold isa_features in H.
      apply (isa_features_from_comma_free cpuinfo_flags_strings _ _
               eq_refl _ H).
Qed.

Lemma join_tokens (l : list cstring) :
  (forall t, In t l -> t <> [] /\ forallb (not_delim (lit ",")) t = true) ->
  tokens (lit ",") (join (lit ",") l) = l.
Proof.
  destruct l as [|x l]; intros H; [reflexivity|]. cbn [join].
  rewrite (tokens_of_appended (lit ",") ","%char l eq_refl).
  - destruct (H x (or_introl eq_refl)) as [Hne Hx].
    now rewrite (tokens_single (lit ",") x).
  - intros t Ht. apply H. now right.
Qed.

(** What the rendering adds, as tokens. *)
Lemma render_tokens (pci_features : option cstring) (cif : cpuinfo_features) :
  comma_free (vendor_id cif) -> comma_free (model_name cif) ->
  feature_tokens (render_add_features pci_features cif)
  = feature_tokens pci_features ++ rendered_features cif.
Proof.
  intros Hv Hm. rewrite render_as_fold.
  pose proof (rendered_features_tokens cif) as V.
  destruct (rendered_features cif) as [|x l] eqn:R.
  - cbn [fold_left fst]. now rewrite app_nil_r.
  - rewrite fold_append_feature by discriminate. cbn [fst feature_tokens].
    assert (J : tokens (lit ",") (join (lit ",") (x :: l)) = x :: l).
    { apply join_tokens. intros t Ht. now apply V. }
    destruct pci_features as [[|c p]|]; cbn [is_empty feature_tokens app].
    + exact J.
    + refine (eq_trans (tokens_app (lit ",") (c :: p)
                          (join (lit ",") (x :: l)) ","%char eq_refl) _).
      now rewrite J.
    + exact J.
Qed.

Lemma append_modes_tokens (modes add_features : option cstring) :
  feature_tokens (append_modes modes add_features)
  = feature_tokens modes ++ feature_tokens add_features.
Proof.
  unfold append_modes.
  destruct add_features as [[|c add]|]; try now rewrite app_nil_r.
  destruct modes as [m|]; cbn [xstrfmtcat xstrdup feature_tokens];
    [|reflexivity].
  exact (tokens_app (lit ",") m (c :: add) ","%char eq_refl).
Qed.






(** ** What node_features_p_node_state adds is the plugin's own *)

(** X18.  Every token of the text that node_features_p_node_state renders
    is a token of the PCI lookup's text or a feature that
    node_features_p_changible_feature recognises as the plugin's own, with
    or without PCI detection compiled in; so every token of the two lists
    after the call was in that list before, came from the PCI lookup, or is
    the plugin's own.  The vendor and model strings must hold no comma. *)
Theorem rendered_features_owned :
  forall (pci : bool) (alloc_ok : nat -> bool) (proc_cpuinfo : option FILE)
         (pci_features : option cstring) (st st' : plugin_state)
         (avail_modes current_mode avail_modes' current_mode'
            : option cstring),
    comma_free (vendor_id (node_features st')) ->
    comma_free (model_name (node_features st')) ->
    (forall t : cstring,
        In t (feature_tokens
                (render_add_features pci_features (node_features st'))) ->
        In t (feature_tokens pci_features)
        \/ node_features_p_changible_feature pci t = true)
    /\ (node_features_p_node_state alloc_ok proc_cpuinfo pci_features st
          avail_modes current_mode
        = Some (st', (avail_modes', current_mode')) ->
        (forall t : cstring,
            In t (feature_tokens avail_modes') ->
            In t (feature_tokens avail_modes)
            \/ In t (feature_tokens pci_features)
            \/ node_features_p_changible_feature pci t = true)
        /\ (forall t : cstring,
               In t (feature_tokens current_mode') ->
               In t (feature_tokens current_mode)
               \/ In t (feature_tokens pci_features)
               \/ node_features_p_changible_feature pci t = true)).
Proof.
  intros pci alloc_ok fo pf st st' avail cur avail' cur' Hv Hm.
  assert (A : forall t : cstring,
             In t (feature_tokens
                     (render_add_features pf (node_features st'))) ->
             In t (feature_tokens pf)
             \/ node_features_p_changible_feature pci t = true).
  { intros t. rewrite render_tokens by assumption. intros H.
    apply in_app_or in H. destruct H as [H|H]; [now left|right].
    exact (rendered_features_ours pci _ t H). }
  split; [exact A|]. intros H.
  assert (E : (avail' = avail /\ cur' = cur)
              \/ (avail' = append_modes avail
                             (render_add_features pf (node_features st'))
                  /\ cur' = append_modes cur
                              (render_add_features pf (node_features st')))).
  { unfold node_features_p_node_state in H.
    destruct (is_node_features_inited st) eqn:I.
    - cbv beta iota in H. rewrite I in H.
      remember (render_add_features pf (node_features st)) as add eqn:Ea.
      injection H as <- <- <-. subst add. right. now split.
    - destruct (cpuinfo_parse_file alloc_ok cpuinfo_features_init fo)
        as [ok cif| |]; try discriminate.
      cbv beta iota in H. cbn [is_node_features_inited node_features] in H.
      remember (render_add_features pf cif) as add eqn:Ea.
      destruct ok; injection H as <- <- <-; subst add;
        [right|left]; now split. }
  destruct E as [[-> ->]|[-> ->]].
  - split; intros t Ht; now left.
  - split; intros t Ht; rewrite append_modes_tokens in Ht;
      apply in_app_or in Ht; destruct Ht as [Ht|Ht];
      solve [now left | right; now apply A].
Qed.

Lemma rendered_features_owned_witness :
  In (lit "ISA::sse2") (feature_tokens (Some (lit "rack7")))
  \/ In (lit "ISA::sse2") (feature_tokens (Some (lit "PCI::GPU::T4")))
  \/ node_features_p_changible_feature false (lit "ISA::sse2") = true.
Proof.
  refine (proj1 (proj2 (rendered_features_owned false (fun _ => true) None
                          (Some (lit "PCI::GPU::T4"))
                          {| is_node_features_inited := true;
                             node_features :=
                               {| vendor_id := Some (lit "AuthenticAMD");
                                  model_name := None;
                                  cache_kb := 512; flags := 3 |} |}
                          _ (Some (lit "rack7")) None _ _ _ _) eq_refl)
            (lit "ISA::sse2") _).
  - reflexivity.
  - exact I.
  - vm_compute. tauto.
Defined.

(** ** The test program and the plugin *)

(** X23.  cpuinfo_features_summarize of the test program prints what
    node_features_p_node_state would add (without PCI features) exactly
    when the two cache tests agree on the record: a model name is present
    if and only if the cache size is not zero. *)
Theorem summarize_matches_render :
  forall cif : cpuinfo_features,
    (model_name cif = None <-> cache_kb cif = 0%Z) ->
    render_add_features None cif
    = match rendered_features cif with
      | [] => None
      | _ :: _ => Some (cpuinfo_features_summarize cif)
      end.
Proof.
  intros cif H. rewrite render_as_fold, summarize_as_join.
  assert (E : cache_feature_by_size cif = cache_feature cif).
  { unfold cache_feature_by_size, cache_feature.
    destruct (Z.eqb_spec (cache_kb cif) 0) as [Z|Z].
    - apply H in Z. now rewrite Z.
    - destruct (model_name cif); [reflexivity|].
      elim Z. now apply H. }
  rewrite E. fold (rendered_features cif).
  destruct (rendered_features cif) as [|x l]; [reflexivity|].
  now rewrite fold_append_feature by discriminate.
Qed.

Lemma summarize_matches_render_witness :
  render_add_features None
    {| vendor_id := Some (lit "GenuineIntel");
       model_name := Some (lit "Gold_6230");
       cache_kb := 28160; flags := 127 |}
  = Some (cpuinfo_features_summarize
            {| vendor_id := Some (lit "GenuineIntel");
               model_name := Some (lit "Gold_6230");
               cache_kb := 28160; flags := 127 |}).
Proof.
  apply (summarize_matches_render
           {| vendor_id := Some (lit "GenuineIntel");
              model_name := Some (lit "Gold_6230");
              cache_kb := 28160; flags := 127 |}).
  split; discriminate.
Defined.

(** ** cpuinfo_parse_file: the first blank line *)

Lemma parse_yielded_blank (cif : cpuinfo_features) (ws : list ascii)
    (rest : list (list ascii)) :
  forallb isspace ws = true ->
  parse_yielded cif ((ws ++ [nul]) :: rest) = Returns true cif.
Proof.
  intros H. cbn [parse_yielded]. rewrite removelast_last.
  assert (R : rstrip ws = []).
  { unfold rstrip. rewrite skip_everything; [reflexivity|].
    now rewrite forallb_rev. }
  rewrite R. cbn [List.length app].
  destruct ws as [|w ws]; reflexivity.
Qed.

Lemma parse_yielded_stops (ws : list ascii) (rest : list (list ascii)) :
  forallb isspace ws = true ->
  forall (ls : list (list ascii)) (cif : cpuinfo_features),
    parse_yielded cif (ls ++ (ws ++ [nul]) :: rest) = parse_yielded cif ls.
Proof.
  intros H. induction ls as [|l ls IH]; intros cif.
  - now apply parse_yielded_blank.
  - cbn [app parse_yielded].
    destruct (Ascii.eqb _ nul); [reflexivity|].
    destruct (cpuinfo_parse_line cif _); try reflexivity. apply IH.
Qed.

(** X24.  cpuinfo_parse_file stops at the first line handed out by the
    reader that holds white space only: its result is that of parsing the
    lines handed out before, in order, and nothing that follows in the file
    has any influence. *)
Theorem parse_file_stops_at_blank_line :
  forall (alloc_ok : nat -> bool) (cif : cpuinfo_features) (f : FILE)
         (this final : line_reader) (ls rest : list (list ascii))
         (ws : list ascii),
    always alloc_ok ->
    line_reader_create alloc_ok (Some f) 0 = Some this ->
    read_lines alloc_ok (S (List.length (unread f))) this
    = Some (ls ++ (ws ++ [nul]) :: rest, final) ->
    forallb isspace ws = true ->
    cpuinfo_parse_file alloc_ok cif (Some f) = parse_yielded cif ls.
Proof.
  intros alloc_ok cif f this final ls rest ws heap C R H.
  unfold cpuinfo_parse_file. rewrite C.
  assert (S : stream this = f /\ (0 < chunk_size this)%nat).
  { unfold line_reader_create in C. rewrite heap in C.
    injection C as <-. cbn. split; [reflexivity|lia]. }
  destruct S as [S Hc]. rewrite S.
  rewrite (parse_file_loop_yielded alloc_ok heap _ _ cif _ _ Hc R).
  now apply parse_yielded_stops.
Qed.

Lemma parse_file_stops_at_blank_line_witness :
  cpuinfo_parse_file (fun _ => true) cpuinfo_features_init
    (Some {| unread := lit "vendor_id : AuthenticAMD" ++ [newline]
                       ++ lit "flags : sse sse2" ++ [newline]
                       ++ [newline]
                       ++ lit "vendor_id : GenuineIntel" ++ [newline]
                       ++ [newline];
             read_error := false |})
  = parse_yielded cpuinfo_features_init
      [ lit "vendor_id : AuthenticAMD" ++ [newline; nul];
        lit "flags : sse sse2" ++ [newline; nul] ].
Proof.
  refine (parse_file_stops_at_blank_line (fun _ => true) cpuinfo_features_init
            _ _ _ _ _ [newline] (fun _ => eq_refl) eq_refl _ eq_refl).
  vm_compute. reflexivity.
Defined.

(** ** cpuinfo_parse_cache_size on decimal numbers *)

Lemma digit_value_range (c : ascii) :
  isdigit c = true -> (0 <= digit_value c <= 9)%Z.
Proof.
  unfold isdigit, in_range, digit_value, code. intros H.
  apply andb_prop in H. destruct H as [H1 H2].
  apply N.leb_le in H1. apply N.leb_le in H2. lia.
Qed.

Lemma decimal_value_nonneg (ds : cstring) :
  forallb isdigit ds = true -> (0 <= decimal_value ds)%Z.
Proof.
  unfold decimal_value.
  assert (G : forall acc : Z,
             (0 <= acc)%Z -> forallb isdigit ds = true ->
             (0 <= fold_left (fun a c => 10 * a + digit_value c) ds acc)%Z).
  { induction ds as [|c ds IH]; intros acc Ha H; [exact Ha|].
    cbn [forallb] in H. apply andb_prop in H. destruct H as [Hc Hd].
    cbn [fold_left]. apply IH; [|exact Hd].
    pose proof (digit_value_range c Hc). lia. }
  apply G. lia.
Qed.

Lemma take_run (f : ascii -> bool) (ds r : cstring) :
  forallb f ds = true -> f (deref r) = false ->
  take f (ds ++ r) = ds /\ skip f (ds ++ r) = r.
Proof.
  intros Hd Hr. induction ds as [|c ds IH].
  - destruct r as [|x r]; [now split|]. cbn in *. now rewrite Hr.
  - cbn [forallb] in Hd. apply andb_prop in Hd. destruct Hd as [Hc Hd].
    cbn [app take skip]. rewrite Hc. destruct (IH Hd) as [-> ->].
    now split.
Qed.

Lemma digit_plain (c : ascii) :
  isdigit c = true ->
  isspace c = false
  /\ Ascii.eqb c "-" = false /\ Ascii.eqb c "+" = false
  /\ Ascii.eqb (tolower c) "x" = false.
Proof. destruct c as [[] [] [] [] [] [] [] []]; cbv; intuition congruence. Qed.

Lemma isspace_ends_numeral (c : ascii) :
  isspace c = true -> ends_numeral c = true.
Proof. destruct c as [[] [] [] [] [] [] [] []]; cbv; congruence. Qed.

(** strtod on white space, a run of decimal digits and a text that cannot
    continue the numeral. *)
Lemma strtod_digits (ws ds rest : cstring) :
  forallb isspace ws = true ->
  ds <> [] ->
  forallb isdigit ds = true ->
  ends_numeral (deref rest) = true ->
  strtod (ws ++ ds ++ rest)
  = SValue (round_to_double false (decimal_value ds) 1) rest.
Proof.
  intros Hws Hne Hds Hend.
  unfold ends_numeral in Hend.
  apply andb_prop in Hend. destruct Hend as [Hend Hx].
  apply andb_prop in Hend. destruct Hend as [Hend He].
  apply andb_prop in Hend. destruct Hend as [Hd Hp].
  apply negb_true_iff in Hd, Hp, He, Hx.
  destruct ds as [|d ds]; [congruence|].
  assert (Hdg : isdigit d = true).
  { cbn [forallb] in Hds. now apply andb_prop in Hds. }
  destruct (digit_plain d Hdg) as (D1 & D2 & D3 & D4).
  unfold strtod. rewrite skip_all by exact Hws.
  rewrite skip_stays by (cbn [app deref]; exact D1).
  unfold sign_part. cbn [app deref]. rewrite D2, D3.
  assert (Hhex : hex_part (d :: ds ++ rest) = None).
  { unfold hex_part. cbn [deref tl].
    assert (X : Ascii.eqb (tolower (deref (ds ++ rest))) "x" = false).
    { destruct ds as [|d' ds]; [exact Hx|]. cbn [app deref].
      cbn [forallb] in Hds. apply andb_prop in Hds. destruct Hds as [_ Hds].
      apply andb_prop in Hds. destruct Hds as [Hd' _].
      now destruct (digit_plain d' Hd') as (_ & _ & _ & ->). }
    now rewrite X, andb_false_r. }
  rewrite Hhex.
  destruct (take_run isdigit (d :: ds) rest Hds Hd) as [Tk Sk].
  change (d :: ds ++ rest) with ((d :: ds) ++ rest).
  unfold mantissa_part. rewrite Tk, Sk, Hp.
  cbv beta iota zeta. cbn [app]. cbv beta iota.
  unfold exponent_part. rewrite He. cbv beta iota zeta.
  unfold scaled. cbn [strlen List.length Z.of_nat].
  change (0 - 0)%Z with 0%Z. change (0 <=? 0)%Z with true.
  cbv beta iota. now rewrite app_nil_r, Z.pow_0_r, Z.mul_1_r.
Qed.

Lemma round_to_double_integer (N : Z) :
  (0 <= N < 2 ^ 53)%Z ->
  holds_integer (round_to_double false N 1) N.
Proof.
  intros [H0 H1]. unfold round_to_double.
  destruct (Z.eqb_spec N 0) as [->|Hn].
  - exists 0%Z, 0%Z, 0%Z. repeat split; reflexivity || lia.
  - assert (Hpos : (0 < N)%Z) by lia.
    pose proof (Z.log2_spec N Hpos) as [L1 L2].
    pose proof (Z.log2_nonneg N) as L0.
    assert (L3 : (Z.log2 N < 53)%Z).
    { apply Z.log2_lt_pow2; lia. }
    assert (F : floor_log2 N 1 = Z.log2 N).
    { unfold floor_log2. change (Z.log2 1) with 0%Z.
      rewrite Z.pow_0_r, Z.mul_1_r, Z.mul_1_l, Z.sub_0_r.
      destruct (Z.ltb_spec N (2 ^ Z.log2 N)); [lia|reflexivity]. }
    rewrite F.
    rewrite Z.max_l by lia.
    assert (R1 : forall n : Z, round_half_even n 1 = n).
    { intros n. unfold round_half_even.
      rewrite Z.mod_1_r, Z.div_1_r. reflexivity. }
    destruct (Z.leb_spec 0 (Z.log2 N - 52)) as [E|E].
    + replace (Z.log2 N - 52)%Z with 0%Z by lia.
      rewrite Z.pow_0_r, !Z.mul_1_r, R1.
      destruct (Z.leb_spec (2 ^ 1024) N) as [O|O];
        [assert (2 ^ 53 < 2 ^ 1024)%Z by (apply Z.pow_lt_mono_r; lia); lia|].
      cbn [andb]. exists N, 0%Z, 0%Z.
      rewrite Z.pow_0_r, Z.mul_1_r. repeat split; reflexivity || lia.
    + cbn [andb]. rewrite R1.
      exists N, (- (Z.log2 N - 52))%Z, 0%Z. rewrite Z.pow_0_r, Z.mul_1_r.
      repeat split; try lia. f_equal. lia.
Qed.

Lemma dmul1024_integer (v : double) (M : Z) :
  holds_integer v M -> (M * 1024 < 2 ^ 32)%Z ->
  holds_integer (dmul1024 v) (M * 1024).
Proof.
  intros (N & s & t & -> & HN & Hs & Ht & ->) Hlt.
  assert (P : (0 < 2 ^ s)%Z) by (apply Z.pow_pos_nonneg; lia).
  assert (E : (N * 2 ^ (t + 10) = N * 2 ^ t * 1024)%Z).
  { rewrite Z.pow_add_r by lia. change (2 ^ 10)%Z with 1024%Z. lia. }
  unfold dmul1024.
  assert (O : (0 <=? t - s + 10)%Z
              && (2 ^ 1024 <=? Z.abs (N * 2 ^ s) * 2 ^ (t - s + 10))%Z
              = false).
  { destruct (Z.leb_spec 0 (t - s + 10)) as [A|A]; [|reflexivity].
    cbn [andb]. apply Z.leb_gt.
    rewrite Z.abs_eq by (apply Z.mul_nonneg_nonneg; lia).
    rewrite <- Z.mul_assoc, <- Z.pow_add_r by lia.
    replace (s + (t - s + 10))%Z with (t + 10)%Z by lia.
    rewrite E.
    assert (2 ^ 32 < 2 ^ 1024)%Z by (apply Z.pow_lt_mono_r; lia). lia. }
  rewrite O. exists N, s, (t + 10)%Z.
  repeat apply conj; try lia; try (f_equal; lia).
Qed.

Lemma to_unsigned_int_integer (v : double) (M : Z) :
  holds_integer v M -> (M < 2 ^ 32)%Z -> to_unsigned_int v = Some M.
Proof.
  intros (N & s & t & -> & HN & Hs & Ht & ->) Hlt.
  assert (P : (0 < 2 ^ s)%Z) by (apply Z.pow_pos_nonneg; lia).
  assert (Pt : (0 < 2 ^ t)%Z) by (apply Z.pow_pos_nonneg; lia).
  unfold to_unsigned_int.
  assert (T : (if (0 <=? t - s)%Z then (N * 2 ^ s * 2 ^ (t - s))%Z
               else Z.quot (N * 2 ^ s) (2 ^ (- (t - s))))
              = (N * 2 ^ t)%Z).
  { destruct (Z.leb_spec 0 (t - s)) as [A|A].
    - rewrite <- Z.mul_assoc, <- Z.pow_add_r by lia. f_equal. f_equal. lia.
    - replace (2 ^ s)%Z with (2 ^ t * 2 ^ (- (t - s)))%Z
        by (rewrite <- Z.pow_add_r by lia; f_equal; lia).
      rewrite Z.mul_assoc. apply Z.quot_mul.
      apply Z.pow_nonzero; lia. }
  rewrite T.
  destruct (Z.leb_spec 0 (N * 2 ^ t)) as [A|A]; [|nia].
  destruct (Z.ltb_spec (N * 2 ^ t) (2 ^ 32)) as [B|B]; [reflexivity|lia].
Qed.

(** X25.  A cache-size value made of optional white space, a run of decimal
    digits, optional white space and one of the units K, KB, kB, M, MB, G,
    GB or no unit at all: cpuinfo_parse_cache_size returns true and the
    cache-size field then holds the number times the unit's factor (1, 1024
    or 1024 * 1024 kilobytes), for every number whose product stays below
    2^32; vendor, model name and flags are left as they were. *)
Theorem parse_cache_size_decimal :
  forall (cif : cpuinfo_features) (ws ds ws' unit : cstring) (k : Z),
    forallb isspace ws = true ->
    ds <> [] ->
    forallb isdigit ds = true ->
    forallb isspace ws' = true ->
    In (unit, k) cache_units ->
    (decimal_value ds * k < 2 ^ 32)%Z ->
    exists cif' : cpuinfo_features,
      cpuinfo_parse_cache_size cif (ws ++ ds ++ ws' ++ unit)
      = Returns true cif'
      /\ cache_kb cif' = (decimal_value ds * k)%Z
      /\ vendor_id cif' = vendor_id cif
      /\ model_name cif' = model_name cif
      /\ flags cif' = flags cif.
Proof.
  intros cif ws ds ws' unit k Hws Hne Hds Hws' Hu Hlt.
  pose proof (decimal_value_nonneg ds Hds) as Hn.
  assert (Hk : (1 <= k)%Z).
  { unfold cache_units in Hu. cbn [In] in Hu.
    repeat match goal with
           | H : _ \/ _ |- _ => destruct H as [H|H]
           | H : (_, _) = (_, _) |- _ => injection H as <- <-
           | H : False |- _ => destruct H
           end; lia. }
  assert (Hend : ends_numeral (deref (ws' ++ unit)) = true).
  { destruct ws' as [|w ws'].
    - unfold cache_units in Hu. cbn [In] in Hu. cbn [app].
      repeat match goal with
             | H : _ \/ _ |- _ => destruct H as [H|H]
             | H : (_, _) = (_, _) |- _ => injection H as <- <-
             | H : False |- _ => destruct H
             end; reflexivity.
    - cbn [forallb] in Hws'. apply andb_prop in Hws'.
      destruct Hws' as [Hw _]. cbn [app deref].
      now apply isspace_ends_numeral. }
  assert (V : holds_integer (round_to_double false (decimal_value ds) 1)
                (decimal_value ds)).
  { apply round_to_double_integer. split; [exact Hn|].
    assert (2 ^ 32 < 2 ^ 53)%Z by (apply Z.pow_lt_mono_r; lia). nia. }
  assert (R : cpuinfo_parse_cache_size cif (ws ++ ds ++ ws' ++ unit)
              = Returns true (set_cache_kb cif (decimal_value ds * k))).
  { unfold cpuinfo_parse_cache_size.
    rewrite (strtod_digits ws ds (ws' ++ unit) Hws Hne Hds Hend).
    rewrite skip_all by exact Hws'.
    remember (round_to_double false (decimal_value ds) 1) as v eqn:Ev.
    clear Ev.
    remember (decimal_value ds) as n eqn:En. clear En.
    unfold cache_units in Hu. cbn [In] in Hu.
    repeat match goal with
           | H : _ \/ _ |- _ => destruct H as [H|H]
           | H : (_, _) = (_, _) |- _ => injection H as <- <-
           | H : False |- _ => destruct H
           end;
      cbn -[to_unsigned_int dmul1024 ddiv1024 Z.mul];
      match goal with
      | |- context [to_unsigned_int (dmul1024 (dmul1024 v))] =>
          rewrite (to_unsigned_int_integer _ (n * 1024 * 1024));
          [f_equal; f_equal; lia
          |apply dmul1024_integer; [apply dmul1024_integer|];
           [exact V|lia|lia]
          |lia]
      | |- context [to_unsigned_int (dmul1024 v)] =>
          rewrite (to_unsigned_int_integer _ (n * 1024));
          [reflexivity|apply dmul1024_integer; [exact V|lia]|lia]
      | |- context [to_unsigned_int v] =>
          rewrite (to_unsigned_int_integer _ n V) by lia;
          f_equal; f_equal; lia
      end. }
  rewrite R. exists (set_cache_kb cif (decimal_value ds * k)). repeat split.
Qed.

Lemma parse_cache_size_decimal_witness :
  exists cif' : cpuinfo_features,
    cpuinfo_parse_cache_size cpuinfo_features_init (lit "  28160 KB")
    = Returns true cif'
    /\ cache_kb cif' = 28160%Z
    /\ vendor_id cif' = None
    /\ model_name cif' = None
    /\ flags cif' = 0%Z.
Proof.
  apply (parse_cache_size_decimal cpuinfo_features_init (lit "  ")
           (lit "28160") (lit " ") (lit "KB") 1).
  - reflexivity.
  - discriminate.
  - reflexivity.
  - reflexivity.
  - cbn. tauto.
  - reflexivity.
Defined.
